(** * The schema-migration engine of [database/migration.go]

    A shallow embedding of the migration manager: the parser of migration
    files ([parseMigrationFile], [splitMigrationContent]), the runner
    ([RunMigrations], [executeMigration]) and the single-step [Rollback],
    together with the parts of the Go standard library they call
    ([strings], [strconv], [path/filepath], [sort]).

    Go strings are byte sequences; they are modelled by [string], whose
    characters are the bytes. *)

From Stdlib Require Import String Ascii List ZArith Lia Bool Arith.
From Stdlib Require Import Permutation Sorted.
Import ListNotations.
Open Scope string_scope.

(** ** Package [strings] *)

Module strings.

Definition LF : ascii := ascii_of_nat 10.

(** [strings.Split(s, sep)] for a one-byte separator: the pieces between
    the occurrences of [sep]; a string without separator is one piece,
    the empty string included. *)
Fixpoint Split (s : string) (sep : ascii) : list string :=
  match s with
  | EmptyString => [EmptyString]
  | String c r =>
      if Ascii.eqb c sep then EmptyString :: Split r sep
      else match Split r sep with
           | piece :: pieces => String c piece :: pieces
           | [] => [String c EmptyString]
           end
  end.

(** [strings.Join(elems, sep)]. *)
Fixpoint Join (elems : list string) (sep : string) : string :=
  match elems with
  | [] => ""
  | [e] => e
  | e :: rest => e ++ sep ++ Join rest sep
  end.

Definition HasPrefix (s pre : string) : bool := String.prefix pre s.

Fixpoint rev_string (s : string) : string :=
  match s with
  | EmptyString => EmptyString
  | String c r => rev_string r ++ String c EmptyString
  end.

Definition HasSuffix (s suf : string) : bool :=
  String.prefix (rev_string suf) (rev_string s).

Fixpoint drop (n : nat) (s : string) : string :=
  match n, s with
  | S k, String _ r => drop k r
  | _, _ => s
  end.

(** [strings.TrimSuffix(s, suf)]. *)
Definition TrimSuffix (s suf : string) : string :=
  if HasSuffix s suf
  then rev_string (drop (String.length suf) (rev_string s))
  else s.

(** [strings.ReplaceAll(s, old, new)] for one-byte [old] and [new]. *)
Fixpoint ReplaceAll (s : string) (old new : ascii) : string :=
  match s with
  | EmptyString => EmptyString
  | String c r =>
      String (if Ascii.eqb c old then new else c) (ReplaceAll r old new)
  end.

(** [strings.SplitN(s, sep, 2)] for a one-byte separator: [None] stands
    for the one-element result (no separator in [s]), [Some (a, b)] for
    the two-element result cut at the first separator. *)
Fixpoint SplitN2 (s : string) (sep : ascii) : option (string * string) :=
  match s with
  | EmptyString => None
  | String c r =>
      if Ascii.eqb c sep then Some (EmptyString, r)
      else match SplitN2 r sep with
           | Some (a, b) => Some (String c a, b)
           | None => None
           end
  end.

Definition bytes (l : list nat) : string :=
  fold_right (fun n s => String (ascii_of_nat n) s) EmptyString l.

(** The UTF-8 encodings of the runes for which [unicode.IsSpace] holds:
    the six ASCII ones of the [asciiSpace] table of strings.go, U+0085
    and U+00A0, and the code points with the White_Space property.  Go's
    decoder turns every other byte sequence (an overlong form included)
    into a rune that is not a space, so a string starts (ends) with a
    space rune exactly when it starts (ends) with one of these. *)
Definition space_runes : list string :=
  map bytes
    ([ [9]; [10]; [11]; [12]; [13]; [32];
       [194; 133]; [194; 160];
       [225; 154; 128] ]
     ++ map (fun k => [226; 128; 128 + k]) (seq 0 11)
     ++ [ [226; 128; 168]; [226; 128; 169]; [226; 128; 175];
          [226; 129; 159]; [227; 128; 128] ]).

(** Width in bytes of the rune of [runes] the string starts with, 0
    when it starts with none. *)
Fixpoint rune_width (runes : list string) (s : string) : nat :=
  match runes with
  | [] => 0
  | r :: rest =>
      if String.prefix r s then String.length r else rune_width rest s
  end.

Fixpoint trim_left (fuel : nat) (runes : list string) (s : string) : string :=
  match fuel with
  | O => s
  | S fuel' =>
      match rune_width runes s with
      | O => s
      | w => trim_left fuel' runes (drop w s)
      end
  end.

(** [strings.TrimLeftFunc(s, unicode.IsSpace)]: every step removes at
    least one byte, so [length s] steps are enough. *)
Definition TrimLeftSpace (s : string) : string :=
  trim_left (String.length s) space_runes s.

(** [strings.TrimRightFunc(s, unicode.IsSpace)], on the reversed bytes. *)
Definition TrimRightSpace (s : string) : string :=
  rev_string
    (trim_left (String.length s) (map rev_string space_runes) (rev_string s)).

(** [strings.TrimSpace(s)]. *)
Definition TrimSpace (s : string) : string :=
  TrimRightSpace (TrimLeftSpace s).

End strings.

(** ** Splitting a migration file into its UP and DOWN sections *)

Module Splitter.
Import strings.

(** The three locals of the loop of [splitMigrationContent]. *)
Record scan : Type := mkScan {
  upLines : list string;
  downLines : list string;
  inDownSection : bool
}.

Definition scan_start : scan := mkScan [] [] false.

Definition is_down_marker (line : string) : bool :=
  let trimmed := TrimSpace line in
  HasPrefix trimmed "-- DOWN" || HasPrefix trimmed "--DOWN".

Definition is_up_marker (line : string) : bool :=
  let trimmed := TrimSpace line in
  HasPrefix trimmed "-- UP" || HasPrefix trimmed "--UP".

Definition enter_section (down : bool) (st : scan) : scan :=
  mkScan (upLines st) (downLines st) down.

Definition keep_line (line : string) (st : scan) : scan :=
  if inDownSection st
  then mkScan (upLines st) (downLines st ++ [line]) true
  else mkScan (upLines st ++ [line]) (downLines st) false.

(** One iteration of [for _, line := range lines]. *)
Definition scan_line (st : scan) (line : string) : scan :=
  if is_down_marker line then enter_section true st
  else if is_up_marker line then enter_section false st
  else keep_line line st.

Definition scan_lines (st : scan) (lines : list string) : scan :=
  fold_left scan_line lines st.

Definition sections (st : scan) : string * string :=
  (Join (upLines st) (String LF ""), Join (downLines st) (String LF "")).

Definition splitMigrationContent (content : string) : string * string :=
  sections (scan_lines scan_start (Split content LF)).

End Splitter.

(** ** Package [strconv] *)

Module strconv.

Inductive NumError : Type := ErrSyntax | ErrRange.

Definition digit (c : ascii) : option Z :=
  let n := Z.of_nat (nat_of_ascii c) in
  if (48 <=? n)%Z && (n <=? 57)%Z then Some (n - 48)%Z else None.

(** The digit loop of the fast path of [Atoi]. *)
Fixpoint small_digits (s : string) (n : Z) : option Z :=
  match s with
  | EmptyString => Some n
  | String ch r =>
      match digit ch with
      | None => None
      | Some d => small_digits r (n * 10 + d)%Z
      end
  end.

Definition maxUint64 : Z := (2 ^ 64 - 1)%Z.

(** The loop of [ParseUint(s, 10, 64)]: a value with [None], or the
    value returned together with the error. *)
Fixpoint uint_digits (s : string) (n : Z) : Z * option NumError :=
  match s with
  | EmptyString => (n, None)
  | String c r =>
      match digit c with
      | None => (0%Z, Some ErrSyntax)
      | Some d =>
          if (maxUint64 / 10 + 1 <=? n)%Z then (maxUint64, Some ErrRange)
          else
            let n1 := (n * 10 + d)%Z in
            if (maxUint64 <? n1)%Z then (maxUint64, Some ErrRange)
            else uint_digits r n1
      end
  end.

Definition ParseUint (s : string) : Z * option NumError :=
  match s with
  | EmptyString => (0%Z, Some ErrSyntax)
  | _ => uint_digits s 0%Z
  end.

Definition is_sign (c : ascii) : bool :=
  Ascii.eqb c "+"%char || Ascii.eqb c "-"%char.

(** [ParseInt(s, 10, 0)] with a 64-bit [int]. *)
Definition ParseInt (s : string) : Z * option NumError :=
  match s with
  | EmptyString => (0%Z, Some ErrSyntax)
  | String c r =>
      let neg := Ascii.eqb c "-"%char in
      let body := if is_sign c then r else s in
      match ParseUint body with
      | (_, Some ErrSyntax) => (0%Z, Some ErrSyntax)
      | (un, _) =>
          let cutoff := (2 ^ 63)%Z in
          if negb neg && (cutoff <=? un)%Z then ((cutoff - 1)%Z, Some ErrRange)
          else if neg && (cutoff <? un)%Z then ((- cutoff)%Z, Some ErrRange)
          else ((if neg then - un else un)%Z, None)
      end
  end.

(** [strconv.Atoi(s)] on a 64-bit platform: the value and the error. *)
Definition Atoi (s : string) : Z * option NumError :=
  let sLen := String.length s in
  if ((0 <? sLen) && (sLen <? 19))%nat then
    match s with
    | EmptyString => (0%Z, Some ErrSyntax)
    | String c r =>
        let body := if is_sign c then r else s in
        match body with
        | EmptyString => (0%Z, Some ErrSyntax)
        | _ =>
            match small_digits body 0%Z with
            | None => (0%Z, Some ErrSyntax)
            | Some n => ((if Ascii.eqb c "-"%char then - n else n)%Z, None)
            end
        end
    end
  else ParseInt s.

End strconv.

(** ** Package [path/filepath], with [/] as the separator *)

Module filepath.
Import strings.

Definition Separator : ascii := "/"%char.

Fixpoint clean_elements (rooted : bool) (out : list string)
         (elems : list string) : list string :=
  match elems with
  | [] => rev out
  | e :: rest =>
      if (e =? "") || (e =? ".") then clean_elements rooted out rest
      else if e =? ".." then
        match out with
        | top :: below =>
            if top =? ".." then clean_elements rooted (e :: out) rest
            else clean_elements rooted below rest
        | [] =>
            if rooted then clean_elements rooted [] rest
            else clean_elements rooted [e] rest
        end
      else clean_elements rooted (e :: out) rest
  end.

(** [filepath.Clean]: the loop works on the path elements, [out] being
    the elements written so far, the last one first. *)
Definition Clean (path : string) : string :=
  match path with
  | EmptyString => "."
  | String c _ =>
      let rooted := Ascii.eqb c Separator in
      let body := Join (clean_elements rooted [] (Split path Separator)) "/" in
      if rooted then "/" ++ body
      else if body =? "" then "." else body
  end.

(** [path[:i+1]] for the index [i] of the last separator. *)
Fixpoint through_last_separator (path : string) : string :=
  match path with
  | EmptyString => EmptyString
  | String c r =>
      match through_last_separator r with
      | EmptyString =>
          if Ascii.eqb c Separator then String c EmptyString else EmptyString
      | t => String c t
      end
  end.

Definition Dir (path : string) : string :=
  Clean (through_last_separator path).

Fixpoint strip_leading_separators (s : string) : string :=
  match s with
  | String c r =>
      if Ascii.eqb c Separator then strip_leading_separators r else s
  | EmptyString => s
  end.

Definition last_element (path : string) : string :=
  last (Split path Separator) EmptyString.

Definition Base (path : string) : string :=
  match path with
  | EmptyString => "."
  | _ =>
      let stripped :=
        rev_string (strip_leading_separators (rev_string path)) in
      match last_element stripped with
      | EmptyString => "/"
      | elem => elem
      end
  end.

End filepath.

(** ** Migrations and their files *)

Inductive error : Type :=
| errorString (msg : string)
| wrapError (msg : string) (err : error).

Record Migration : Type := mkMigration {
  Version : string;
  Description : string;
  Module_ : string;
  UpSQL : string;
  DownSQL : string;
  FilePath : string
}.

(** The file system as the manager sees it: the paths below
    [migrationsDir] that are not directories, in the order
    [filepath.WalkDir] visits them, and [os.ReadFile]. *)
Record FileSystem : Type := mkFS {
  walk : list string;
  ReadFile : string -> option string
}.

Definition parseMigrationFile (fs : FileSystem) (filePath : string)
  : error + Migration :=
  match ReadFile fs filePath with
  | None => inl (wrapError "failed to read file" (errorString "open"))
  | Some content =>
      let filename := filepath.Base filePath in
      match strings.SplitN2 filename "_" with
      | None =>
          inl (errorString ("invalid migration filename format: " ++ filename))
      | Some (version, rest) =>
          let description :=
            strings.ReplaceAll (strings.TrimSuffix rest ".sql") "_" " " in
          let module := filepath.Base (filepath.Dir filePath) in
          let '(upSQL, downSQL) := Splitter.splitMigrationContent content in
          inr (mkMigration version description module upSQL downSQL filePath)
      end
  end.

(** The callback of [filepath.WalkDir] over the visited files. *)
Fixpoint walk_files (fs : FileSystem) (paths : list string)
         (migrations : list Migration) : error + list Migration :=
  match paths with
  | [] => inr migrations
  | path :: rest =>
      if negb (strings.HasSuffix path ".sql") then walk_files fs rest migrations
      else
        match parseMigrationFile fs path with
        | inl err =>
            inl (wrapError "failed to walk migration directory"
                   (wrapError ("failed to parse migration file " ++ path) err))
        | inr migration => walk_files fs rest (migrations ++ [migration])
        end
  end.

Definition loadMigrationsFromFiles (fs : FileSystem) : error + list Migration :=
  walk_files fs (walk fs) [].


(** ** The comparison of [RunMigrations] and [sort.Slice] *)

(** The [less] closure handed to [sort.Slice]: both conversion errors are
    dropped ([vi, _ := strconv.Atoi(...)]), only the values are compared. *)
Definition version_number (m : Migration) : Z := fst (strconv.Atoi (Version m)).

Definition version_less (a b : Migration) : bool :=
  (version_number a <? version_number b)%Z.

(** [sort.Slice(migrations, less)] is not a stable sort, and which
    algorithm runs depends on the length of the slice.  The runner is
    verified against what the package documents: the result holds the same
    elements and no later element is less than an earlier one. *)
Class SliceSort : Type := {
  sort_Slice : list Migration -> list Migration;
  sort_Slice_perm : forall l, Permutation l (sort_Slice l);
  sort_Slice_sorted :
    forall l, StronglySorted (fun a b => version_less b a = false) (sort_Slice l)
}.

(** [insertionSortLessFunc] of sort/zsortfunc.go, the algorithm that
    [sort.Slice] runs on slices of at most 12 elements: [sorted] is
    [data[a:i]] with its last element first, and [data[i]] moves down while
    it is less than its left neighbour. *)
Fixpoint sift_down (x : Migration) (sorted : list Migration) : list Migration :=
  match sorted with
  | [] => [x]
  | y :: below =>
      if version_less x y then y :: sift_down x below else x :: sorted
  end.

Definition insertionSort (data : list Migration) : list Migration :=
  rev (fold_left (fun sorted x => sift_down x sorted) data []).


(** ** The database *)

Definition driver_error : error := errorString "pq".

(** *** The tracking table, in its old and its present structure *)

Module Legacy.

(** A row of [public.migrations]; the two later columns may be NULL. *)
Record Row : Type := mkRow {
  version : string;
  description : string;
  module : option string;
  file_path : option string;
  executed_at : Z
}.

(** The table: which of the two later columns exist, and the rows. *)
Record Table : Type := mkTable {
  has_module : bool;
  has_file_path : bool;
  rows : list Row
}.

(** A column that does not exist holds no value. *)
Definition well_formed (t : Table) : Prop :=
  (has_module t = false -> Forall (fun r => module r = None) (rows t))
  /\ (has_file_path t = false -> Forall (fun r => file_path r = None) (rows t)).

(** The table of [CREATE TABLE IF NOT EXISTS], when there was none. *)
Definition new_table : Table := mkTable true true [].

(** [ALTER TABLE public.migrations ADD COLUMN module VARCHAR(100)]. *)
Definition add_module (t : Table) : option Table :=
  if has_module t then None
  else Some (mkTable true (has_file_path t) (rows t)).

(** [ALTER TABLE public.migrations ADD COLUMN file_path VARCHAR(500)]. *)
Definition add_file_path (t : Table) : option Table :=
  if has_file_path t then None
  else Some (mkTable (has_module t) true (rows t)).

Definition default_module (r : Row) : Row :=
  match module r with
  | None => mkRow (version r) (description r) (Some "legacy") (file_path r)
                  (executed_at r)
  | Some _ => r
  end.

(** [UPDATE public.migrations SET module = 'legacy' WHERE module IS NULL]. *)
Definition set_legacy (t : Table) : option Table :=
  Some (mkTable (has_module t) (has_file_path t) (map default_module (rows t))).

(** One call of the driver.  [faults] tells for each call in turn whether
    it fails for a reason outside the table (the connection, a timeout);
    no call runs inside a transaction, so an earlier statement stays
    done when a later one fails. *)
Definition Exec (statement : Table -> option Table) (faults : list bool)
           (t : Table) : option Table * list bool :=
  match faults with
  | true :: rest => (None, rest)
  | false :: rest => (statement t, rest)
  | [] => (statement t, [])
  end.

Definition check (t : Table) : option Table := Some t.

Definition migrateMigrationsTable (faults : list bool) (t : Table)
  : option error * Table :=
  match Exec check faults t with
  | (None, _) =>
      (Some (wrapError "failed to check column existence" driver_error), t)
  | (Some _, faults1) =>
      if has_module t then (None, t)
      else
        match Exec add_module faults1 t with
        | (None, _) =>
            (Some (wrapError "failed to add module column" driver_error), t)
        | (Some t1, faults2) =>
            match Exec add_file_path faults2 t1 with
            | (None, _) =>
                (Some (wrapError "failed to add file_path column" driver_error),
                 t1)
            | (Some t2, faults3) =>
                match Exec set_legacy faults3 t2 with
                | (None, _) =>
                    (Some (wrapError "failed to update existing records"
                             driver_error), t2)
                | (Some t3, _) => (None, t3)
                end
            end
        end
  end.

(** The table is [None] while it does not exist. *)
Definition createMigrationsTable (faults : list bool) (table : option Table)
  : option error * option Table :=
  match faults with
  | true :: _ => (Some driver_error, table)
  | _ =>
      let t := match table with Some t => t | None => new_table end in
      match migrateMigrationsTable (tl faults) t with
      | (Some err, t') =>
          (Some (wrapError "failed to migrate migrations table" err), Some t')
      | (None, t') => (None, Some t')
      end
  end.

(** The columns of a row that every structure of the table has. *)
Definition key (r : Row) : string * string * Z :=
  (version r, description r, executed_at r).

End Legacy.

Import Legacy.

(** A row of [public.migrations]. *)
Abbreviation LedgerEntry := Row (only parsing).

(** A row with every column set. *)
Abbreviation mkEntry v d m p t :=
  (mkRow v d (Some m) (Some p) t) (only parsing).

(** The row that [executeMigration] inserts for a migration at time [t]. *)
Definition entry_of (m : Migration) (t : Z) : LedgerEntry :=
  mkEntry (Version m) (Description m) (Module_ m) (FilePath m) t.

(** The query of [Rollback], [ORDER BY executed_at DESC LIMIT 1], with its
    [Scan] into four Go strings, which fails on a NULL.  [pick] is the row
    the server returns; [inr None] stands for [sql.ErrNoRows]. *)
Definition last_migration (pick : list Row -> option Row) (table : option Table)
  : error + option (string * string * string * string) :=
  let failed := inl (wrapError "failed to get last migration" driver_error) in
  match table with
  | None => failed
  | Some t =>
      if has_module t && has_file_path t
      then match pick (rows t) with
           | None => inr None
           | Some r =>
               match module r, file_path r with
               | Some m, Some p => inr (Some (version r, description r, m, p))
               | _, _ => failed
               end
           end
      else failed
  end.

(** What the runner needs from PostgreSQL.  [Schema] is the state of the
    managed schemas; a script body acts on it and may fail.  The bodies are
    taken not to touch [public.migrations] itself.  [insert_ok] is the
    check of the column types of the tracking table on insertion,
    [commit_ok] the checks deferred to commit time.  [latest] is
    [ORDER BY executed_at DESC LIMIT 1]: a row with the greatest timestamp,
    whichever the server picks among equal ones. *)
Class Database : Type := {
  Schema : Type;
  exec_sql : string -> Schema -> option Schema;
  insert_ok : string -> string -> string -> string -> bool;
  commit_ok : Schema -> bool;
  latest : list LedgerEntry -> option LedgerEntry;
  latest_none : forall rows, latest rows = None -> rows = [];
  latest_greatest :
    forall rows e, latest rows = Some e ->
      In e rows /\ forall e', In e' rows -> (executed_at e' <= executed_at e)%Z
}.

(** A scan that keeps the first row among those with the greatest
    timestamp. *)
Fixpoint first_latest (rows : list LedgerEntry) : option LedgerEntry :=
  match rows with
  | [] => None
  | r :: rest =>
      match first_latest rest with
      | None => Some r
      | Some e => if (executed_at e <=? executed_at r)%Z then Some r else Some e
      end
  end.

Inductive event : Type :=
| EvSkip (m : Migration)
| EvBegin (m : Migration)
| EvExec (m : Migration)
| EvRecord (m : Migration)
| EvCommit (m : Migration)
| EvRollback (m : Migration).

Section Manager.
Context {PG : Database} {SS : SliceSort}.

(** The database behind [m.db]: the tracking table ([None] while it does
    not exist), the managed schemas, and the clock that gives
    [CURRENT_TIMESTAMP]; it advances with every transaction. *)
Record DB : Type := mkDB {
  table : option Table;
  schema : Schema;
  now : Z
}.

(** The rows of the tracking table. *)
Definition ledger (db : DB) : option (list LedgerEntry) :=
  option_map rows (table db).

Definition applied (db : DB) : list string :=
  match ledger db with
  | Some rows => map version rows
  | None => []
  end.

(** The database as the call of [createMigrationsTable] leaves it; the
    statements of that call change the tracking table only. *)
Definition prepared (faults : list bool) (db : DB) : DB :=
  mkDB (snd (createMigrationsTable faults (table db))) (schema db) (now db).

Definition count_version (v : string) (rows : list LedgerEntry) : nat :=
  List.length (filter (fun r => version r =? v) rows).

Definition blank (sql : string) : bool := strings.TrimSpace sql =? "".

(** [INSERT INTO public.migrations (version, description, module,
    file_path)]: the two later columns must exist, and [version] is the
    primary key. *)
Definition insert_entry (t : Table) (migration : Migration) (time : Z)
  : option Table :=
  if (0 <? count_version (Version migration) (rows t))%nat then None
  else if has_module t && has_file_path t
          && insert_ok (Version migration) (Description migration)
                       (Module_ migration) (FilePath migration)
       then Some (mkTable (has_module t) (has_file_path t)
                          (rows t ++ [entry_of migration time])%list)
       else None.

(** The database after a transaction that began at [now db] was rolled
    back: only time has passed. *)
Definition rolled_back (db : DB) : DB :=
  mkDB (table db) (schema db) (now db + 1).

Definition executeMigration (migration : Migration) (db : DB)
  : option error * DB * list event :=
  match table db with
  | None =>
      (Some (wrapError "failed to check migration status" driver_error), db, [])
  | Some t =>
      if (0 <? count_version (Version migration) (rows t))%nat
      then (None, db, [EvSkip migration])
      else
        let up :=
          if blank (UpSQL migration) then (Some (schema db), [])
          else (exec_sql (UpSQL migration) (schema db), [EvExec migration]) in
        match up with
        | (None, sent) =>
            (Some (wrapError "failed to execute migration SQL" driver_error),
             rolled_back db,
             (EvBegin migration :: sent ++ [EvRollback migration])%list)
        | (Some schema', sent) =>
            match insert_entry t migration (now db) with
            | None =>
                (Some (wrapError "failed to record migration" driver_error),
                 rolled_back db,
                 (EvBegin migration :: sent
                    ++ [EvRecord migration; EvRollback migration])%list)
            | Some t' =>
                if commit_ok schema'
                then (None, mkDB (Some t') schema' (now db + 1),
                      (EvBegin migration :: sent
                         ++ [EvRecord migration; EvCommit migration])%list)
                else (Some (wrapError "failed to commit migration" driver_error),
                      rolled_back db,
                      (EvBegin migration :: sent
                         ++ [EvRecord migration; EvRollback migration])%list)
            end
        end
  end.

(** The loop [for _, migration := range migrations]. *)
Fixpoint execute_pending (migrations : list Migration) (db : DB)
  : option error * DB * list event :=
  match migrations with
  | [] => (None, db, [])
  | migration :: rest =>
      match executeMigration migration db with
      | (Some err, db', evs) =>
          (Some (wrapError ("failed to execute migration " ++ Version migration)
                   err), db', evs)
      | (None, db', evs) =>
          let '(res, db'', evs') := execute_pending rest db' in
          (res, db'', (evs ++ evs')%list)
      end
  end.

(** [faults] are the driver faults met by the statements of
    [createMigrationsTable]. *)
Definition RunMigrations (faults : list bool) (fs : FileSystem) (db : DB)
  : option error * DB * list event :=
  match createMigrationsTable faults (table db) with
  | (Some err, _) =>
      (Some (wrapError "failed to create migrations table" err),
       prepared faults db, [])
  | (None, _) =>
      match loadMigrationsFromFiles fs with
      | inl err =>
          (Some (wrapError "failed to load migrations" err),
           prepared faults db, [])
      | inr migrations =>
          execute_pending (sort_Slice migrations) (prepared faults db)
      end
  end.

Definition delete_version (v : string) (rows : list LedgerEntry)
  : list LedgerEntry :=
  filter (fun r => negb (version r =? v)) rows.

(** The table with its rows changed by [f]. *)
Definition with_rows (f : list LedgerEntry -> list LedgerEntry)
           (table : option Table) : option Table :=
  option_map (fun t => mkTable (has_module t) (has_file_path t) (f (rows t)))
             table.

Definition Rollback (fs : FileSystem) (db : DB) : option error * DB :=
  match last_migration latest (table db) with
  | inl err => (Some err, db)
  | inr None => (None, db)
  | inr (Some (version, description, module, filePath)) =>
      match parseMigrationFile fs filePath with
      | inl err =>
          (Some (wrapError "failed to parse migration file for rollback" err),
           db)
      | inr migration =>
          let down :=
            if blank (DownSQL migration) then Some (schema db)
            else exec_sql (DownSQL migration) (schema db) in
          match down with
          | None =>
              (Some (wrapError "failed to execute rollback SQL" driver_error),
               rolled_back db)
          | Some schema' =>
              if commit_ok schema'
              then (None,
                    mkDB (with_rows (delete_version version) (table db))
                         schema' (now db + 1))
              else (Some (wrapError "failed to commit rollback" driver_error),
                    rolled_back db)
          end
      end
  end.

(** *** Reading a trace *)

Definition skipped (evs : list event) : list Migration :=
  flat_map (fun ev => match ev with EvSkip m => [m] | _ => [] end) evs.

Definition begun (evs : list event) : list Migration :=
  flat_map (fun ev => match ev with EvBegin m => [m] | _ => [] end) evs.

(** The script bodies sent to the database. *)
Definition executed (evs : list event) : list Migration :=
  flat_map (fun ev => match ev with EvExec m => [m] | _ => [] end) evs.

(** The migrations whose transaction was committed. *)
Definition committed (evs : list event) : list Migration :=
  flat_map (fun ev => match ev with EvCommit m => [m] | _ => [] end) evs.

(** The migrations the loop reached, in the order it reached them. *)
Definition visited (evs : list event) : list Migration :=
  flat_map (fun ev => match ev with
                      | EvSkip m | EvBegin m => [m]
                      | _ => []
                      end) evs.

End Manager.

(** ** The vocabulary of the properties *)

Open Scope list_scope.

Section MarkerTerms.
Import strings Splitter.

(** A file given by its lines. *)
Definition text (lines : list string) : string :=
  strings.Join lines (String strings.LF "").

(** ASCII letters folded to lower case, to speak of a marker written in
    another letter case. *)
Definition lower_letter (c : ascii) : ascii :=
  let n := nat_of_ascii c in
  if ((65 <=? n) && (n <=? 90))%nat then ascii_of_nat (n + 32) else c.

Fixpoint lower (s : string) : string :=
  match s with
  | EmptyString => EmptyString
  | String c r => String (lower_letter c) (lower r)
  end.

Definition is_marker (line : string) : bool :=
  is_down_marker line || is_up_marker line.

(** Neither marker test of the loop fires on the line. *)
Definition plain (line : string) : Prop := is_marker line = false.

(** A marker line with the lines that follow it up to the next marker. *)
Definition block : Type := (string * list string)%type.

Definition block_lines (b : block) : list string := fst b :: snd b.

Definition well_formed_block (b : block) : Prop :=
  is_marker (fst b) = true /\ Forall plain (snd b).

Definition bodies (down : bool) (blocks : list block) : list string :=
  concat (map snd (filter (fun b => Bool.eqb (is_down_marker (fst b)) down)
                          blocks)).

Definition markers : list string := ["-- DOWN"; "--DOWN"; "-- UP"; "--UP"].

(** The trimmed line is one of the markers written in another letter case. *)
Definition case_variant (line : string) : Prop :=
  exists marker, In marker markers /\
    lower (TrimSpace line) = lower marker /\ TrimSpace line <> marker.

End MarkerTerms.

Section RunnerTerms.
Context {PG : Database}.

Definition same_versions (a b : list string) : Prop :=
  forall v, In v a <-> In v b.

(** The applied versions are those of the first [k] migrations of the
    sorted corpus, for some [k]. *)
Definition applied_prefix (sorted : list Migration) (db : DB) : Prop :=
  exists k, same_versions (applied db) (map Version (firstn k sorted)).

(** Which of the two later columns the tracking table has. *)
Definition columns (db : DB) : option (bool * bool) :=
  option_map (fun t => (has_module t, has_file_path t)) (table db).

(** The query of [Rollback] can read the row: the table has the two later
    columns and the row holds a module and the path [path]. *)
Definition readable (db : DB) (e : LedgerEntry) (path : string) : Prop :=
  columns db = Some (true, true)
  /\ module e <> None /\ file_path e = Some path.

(** The reverse script of a migration as the transaction of [Rollback]
    runs it: a blank one is not sent. *)
Definition down_script (m : Migration) (s : Schema) : option Schema :=
  if blank (DownSQL m) then Some s else exec_sql (DownSQL m) s.

(** The database takes the migration: its script runs in every state of
    the schemas and its row passes the checks of the tracking table. *)
Definition accepted (m : Migration) : Prop :=
  (forall s, blank (UpSQL m) = false -> exec_sql (UpSQL m) s <> None)
  /\ insert_ok (Version m) (Description m) (Module_ m) (FilePath m) = true.

End RunnerTerms.

(** The version text begins with a minus sign. *)
Definition minus_sign (v : string) : bool :=
  match v with
  | String c _ => Ascii.eqb c "-"
  | EmptyString => false
  end.


Definition corpus_of (fs : FileSystem) : list Migration :=
  match loadMigrationsFromFiles fs with
  | inr ms => ms
  | inl _ => []
  end.

(** ** Instances to run the manager on *)

Lemma sift_down_perm (x : Migration) (l : list Migration) :
  Permutation (x :: l) (sift_down x l).
Proof.
  induction l as [| y l IH]; simpl.
  - apply Permutation_refl.
  - destruct (version_less x y).
    + eapply Permutation_trans; [apply perm_swap |].
      now apply perm_skip.
    + apply Permutation_refl.
Qed.

Lemma insertion_fold_perm (data acc : list Migration) :
  Permutation (data ++ acc)
    (fold_left (fun sorted x => sift_down x sorted) data acc).
Proof.
  revert acc; induction data as [| x data IH]; intros acc; simpl.
  - apply Permutation_refl.
  - eapply Permutation_trans; [| apply IH].
    eapply Permutation_trans; [apply Permutation_middle |].
    apply Permutation_app_head, sift_down_perm.
Qed.

Lemma insertionSort_perm (data : list Migration) :
  Permutation data (insertionSort data).
Proof.
  unfold insertionSort.
  eapply Permutation_trans; [| apply Permutation_rev].
  pose proof (insertion_fold_perm data []) as H.
  now rewrite app_nil_r in H.
Qed.

Definition not_less (a b : Migration) : Prop := version_less a b = false.

Lemma sift_down_sorted (x : Migration) (l : list Migration) :
  StronglySorted not_less l -> StronglySorted not_less (sift_down x l).
Proof.
  unfold not_less, version_less.
  induction l as [| y l IH]; intros Hs; simpl.
  - repeat constructor.
  - apply StronglySorted_inv in Hs as [Hl Hy].
    unfold version_less.
    destruct (version_number x <? version_number y)%Z eqn:E.
    + constructor; [now apply IH |].
      eapply Permutation_Forall; [apply sift_down_perm |].
      constructor; [| exact Hy].
      apply Z.ltb_lt in E. apply Z.ltb_ge. lia.
    + constructor; [now constructor |].
      constructor; [exact E |].
      eapply Forall_impl; [| exact Hy].
      intros b Hb; cbv beta in Hb.
      apply Z.ltb_ge in E, Hb. apply Z.ltb_ge. lia.
Qed.

Lemma StronglySorted_snoc {A} (R : A -> A -> Prop) (l : list A) (x : A) :
  StronglySorted R l -> Forall (fun y => R y x) l ->
  StronglySorted R (l ++ [x]).
Proof.
  induction l as [| a l IH]; intros Hs Hx; simpl.
  - repeat constructor.
  - apply StronglySorted_inv in Hs as [Hl Ha].
    inversion Hx; subst.
    constructor; [now apply IH |].
    apply Forall_app; split; [exact Ha | now repeat constructor].
Qed.

Lemma StronglySorted_rev {A} (R : A -> A -> Prop) (l : list A) :
  StronglySorted R l -> StronglySorted (fun a b => R b a) (rev l).
Proof.
  induction l as [| a l IH]; intros Hs; simpl.
  - constructor.
  - apply StronglySorted_inv in Hs as [Hl Ha].
    apply StronglySorted_snoc; [now apply IH |].
    now apply Forall_rev.
Qed.

Lemma insertionSort_sorted (data : list Migration) :
  StronglySorted (fun a b => version_less b a = false) (insertionSort data).
Proof.
  unfold insertionSort.
  apply (StronglySorted_rev not_less).
  assert (G : forall acc, StronglySorted not_less acc ->
              StronglySorted not_less
                (fold_left (fun sorted x => sift_down x sorted) data acc)).
  { induction data as [| x data IH]; intros acc Hacc; simpl.
    - exact Hacc.
    - apply IH, sift_down_sorted, Hacc. }
  apply G. constructor.
Qed.

(** [sort.Slice] as it runs on the slices of the examples. *)
#[export] Instance small_slices : SliceSort :=
  {| sort_Slice := insertionSort;
     sort_Slice_perm := insertionSort_perm;
     sort_Slice_sorted := insertionSort_sorted |}.

Lemma first_latest_none (rows : list LedgerEntry) :
  first_latest rows = None -> rows = [].
Proof.
  destruct rows as [| r rest]; [reflexivity | simpl].
  destruct (first_latest rest) as [e |]; [| discriminate].
  destruct (executed_at e <=? executed_at r)%Z; discriminate.
Qed.

Lemma first_latest_greatest (rows : list LedgerEntry) (e : LedgerEntry) :
  first_latest rows = Some e ->
  In e rows /\ forall e', In e' rows -> (executed_at e' <= executed_at e)%Z.
Proof.
  revert e; induction rows as [| r rest IH]; intros e; simpl; [discriminate |].
  destruct (first_latest rest) as [e0 |] eqn:E0.
  - destruct (IH e0 eq_refl) as [Hin Hmax].
    destruct (executed_at e0 <=? executed_at r)%Z eqn:Ecmp;
      intros [= <-]; (split; [tauto |]); intros e' [<- | He'];
      try apply Z.leb_le in Ecmp; try apply Z.leb_gt in Ecmp;
      try specialize (Hmax _ He'); try specialize (Hmax _ Hin); lia.
  - apply first_latest_none in E0; subst rest.
    intros [= <-]; split; [now left |].
    intros e' [<- | []]; lia.
Qed.

(** A database to run examples on: the state of the managed schemas is the
    list of the script bodies executed so far; a body fails when it begins
    with RAISE; rows are accepted when their version fits [VARCHAR(255)]. *)
#[export] Instance script_log : Database :=
  {| Schema := list string;
     exec_sql := fun sql done =>
       if strings.HasPrefix (strings.TrimSpace sql) "RAISE" then None
       else Some (done ++ [sql])%list;
     insert_ok := fun v _ _ _ => (String.length v <=? 255)%nat;
     commit_ok := fun _ => true;
     latest := first_latest;
     latest_none := first_latest_none;
     latest_greatest := first_latest_greatest |}.

(** ** Examples to run *)

Definition lower_case_file : string :=
  text ["-- UP"; "CREATE TABLE t (id INT);"; "-- down"; "DROP TABLE t;"].

Definition commented_file : string :=
  text ["CREATE TABLE t (id INT);"; "-- DOWNTIME note"; "DROP TABLE t;";
        "  -- UPDATE existing rows"; "UPDATE t SET id = 0;"].

Definition alternating_file : string :=
  text ["-- UP"; "CREATE TABLE a (id INT);"; "-- DOWN"; "DROP TABLE a;";
        "-- UP"; "CREATE TABLE b (id INT);"; "-- DOWN"; "DROP TABLE b;"].

Definition alternating_blocks : list block :=
  [("-- UP", ["CREATE TABLE a (id INT);"]); ("-- DOWN", ["DROP TABLE a;"]);
   ("-- UP", ["CREATE TABLE b (id INT);"]); ("-- DOWN", ["DROP TABLE b;"])].

(** A file system given by its files, in walk order. *)
Definition files_of (l : list (string * string)) : FileSystem :=
  mkFS (map fst l)
       (fun path => option_map snd (find (fun f => (fst f =? path)%string) l)).

Definition script (up down : string) : string :=
  text ["-- UP"; up; ""; "-- DOWN"; down].

Definition three_scripts : FileSystem :=
  files_of
    [("database/migrations/sensor_data/003_create_sensors.sql",
      script "CREATE TABLE sensors (id INT);" "DROP TABLE sensors;");
     ("database/migrations/user_management/001_create_users.sql",
      script "CREATE TABLE users (id INT);" "DROP TABLE users;");
     ("database/migrations/user_management/002_create_roles.sql",
      script "CREATE TABLE roles (id INT);" "DROP TABLE roles;")].

Definition fresh_database : DB := mkDB None ([] : list string) 0.

(** Version 001 is added to the corpus after 003 was applied, and its
    script fails. *)
Definition late_scripts : FileSystem :=
  files_of
    [("database/migrations/sensor_data/003_create_sensors.sql",
      script "CREATE TABLE sensors (id INT);" "DROP TABLE sensors;");
     ("database/migrations/user_management/001_create_users.sql",
      script "RAISE EXCEPTION 'broken';" "DROP TABLE users;");
     ("database/migrations/user_management/002_create_roles.sql",
      script "CREATE TABLE roles (id INT);" "DROP TABLE roles;")].

(** A tracking table of the present structure. *)
Definition tracking (rows : list LedgerEntry) : option Table :=
  Some (mkTable true true rows).

Definition sensors_applied : DB :=
  mkDB (tracking
          [mkEntry "003" "create sensors" "sensor_data"
             "database/migrations/sensor_data/003_create_sensors.sql" 0])
       ["CREATE TABLE sensors (id INT);"] 1.

(** A version that is not a number, next to one that is. *)
Definition named_scripts : FileSystem :=
  files_of
    [("database/migrations/user_management/001_create_users.sql",
      script "CREATE TABLE users (id INT);" "DROP TABLE users;");
     ("database/migrations/user_management/abc_seed_users.sql",
      script "INSERT INTO users VALUES (1);" "DELETE FROM users;")].

(** Two modules that number their first script 001. *)
Definition colliding_scripts : FileSystem :=
  files_of
    [("database/migrations/sensor_data/001_create_sensors.sql",
      script "CREATE TABLE sensors (id INT);" "DROP TABLE sensors;");
     ("database/migrations/user_management/001_create_users.sql",
      script "CREATE TABLE users (id INT);" "DROP TABLE users;")].

(** Two files with the version number 1, written 1 and 001. *)
Definition renumbered_scripts : FileSystem :=
  files_of
    [("database/migrations/sensor_data/001_create_sensors.sql",
      script "CREATE TABLE sensors (id INT);" "DROP TABLE sensors;");
     ("database/migrations/user_management/1_create_users.sql",
      script "CREATE TABLE users (id INT);" "DROP TABLE users;")].

Definition users_row (t : Z) : LedgerEntry :=
  mkEntry "001" "create users" "user_management"
          "database/migrations/user_management/001_create_users.sql" t.

Definition sensors_row (t : Z) : LedgerEntry :=
  mkEntry "003" "create sensors" "sensor_data"
          "database/migrations/sensor_data/003_create_sensors.sql" t.

(** The DOWN script of 001 fails. *)
Definition broken_down_scripts : FileSystem :=
  files_of
    [("database/migrations/user_management/001_create_users.sql",
      script "CREATE TABLE users (id INT);" "RAISE EXCEPTION 'in use';")].

Definition users_applied : DB :=
  mkDB (tracking [users_row 0]) ["CREATE TABLE users (id INT);"] 1.

(** 003 was applied first; 001 was added to the corpus and applied later. *)
Definition out_of_band : DB :=
  mkDB (tracking [sensors_row 10; users_row 20])
       ["CREATE TABLE sensors (id INT);"; "CREATE TABLE users (id INT);"] 21.

(** A table of the old structure with one row. *)
Definition old_table : Legacy.Table :=
  Legacy.mkTable false false [Legacy.mkRow "001" "create users" None None 5].

(** A database whose tracking table has the old structure. *)
Definition old_database : DB := mkDB (Some old_table) ([] : list string) 10.

(** ** Facts about strings *)

Lemma lower_app (a b : string) :
  lower (a ++ b)%string = (lower a ++ lower b)%string.
Proof. induction a as [| c a IH]; simpl; [reflexivity | now rewrite IH]. Qed.

Lemma lower_empty (s : string) : lower s = "" -> s = "".
Proof. destruct s; [reflexivity | discriminate]. Qed.

Lemma HasPrefix_split (s pre : string) :
  strings.HasPrefix s pre = true -> exists rest, s = (pre ++ rest)%string.
Proof.
  unfold strings.HasPrefix.
  revert s; induction pre as [| c pre IH]; intros s H.
  - now exists s.
  - destruct s as [| d s]; simpl in H; [discriminate |].
    destruct (ascii_dec c d) as [-> |]; [| discriminate].
    destruct (IH s H) as [rest ->]. now exists rest.
Qed.

(** ** Facts about the splitter *)

Section SplitterFacts.
Import strings Splitter.

Lemma scan_lines_app (st : scan) (l1 l2 : list string) :
  scan_lines st (l1 ++ l2) = scan_lines (scan_lines st l1) l2.
Proof. apply fold_left_app. Qed.

Lemma scan_lines_cons (st : scan) (line : string) (rest : list string) :
  scan_lines st (line :: rest) = scan_lines (scan_line st line) rest.
Proof. reflexivity. Qed.

Lemma scan_line_down (st : scan) (line : string) :
  is_down_marker line = true -> scan_line st line = enter_section true st.
Proof. intros H; unfold scan_line; now rewrite H. Qed.

Lemma scan_line_up (st : scan) (line : string) :
  is_down_marker line = false -> is_up_marker line = true ->
  scan_line st line = enter_section false st.
Proof. intros H1 H2; unfold scan_line; now rewrite H1, H2. Qed.

Lemma scan_line_plain (st : scan) (line : string) :
  plain line -> scan_line st line = keep_line line st.
Proof.
  unfold plain, is_marker; intros H.
  apply orb_false_elim in H as [H1 H2].
  unfold scan_line; now rewrite H1, H2.
Qed.

Lemma scan_line_marker (st : scan) (line : string) :
  is_marker line = true ->
  scan_line st line = enter_section (is_down_marker line) st.
Proof.
  unfold is_marker; intros H.
  destruct (is_down_marker line) eqn:E; simpl in H.
  - now apply scan_line_down.
  - now apply scan_line_up.
Qed.

(** A line that opens the UP section does not also open the DOWN one. *)
Lemma up_prefix_not_down (line : string) :
  is_up_marker line = true -> is_down_marker line = false.
Proof.
  unfold is_up_marker, is_down_marker; intros H.
  apply orb_true_iff in H as [H | H];
    apply HasPrefix_split in H as [rest ->]; reflexivity.
Qed.

Lemma scan_through (content : string) (pre post : list string) (line : string) :
  Split content LF = pre ++ line :: post ->
  splitMigrationContent content =
  sections (scan_lines (scan_line (scan_lines scan_start pre) line) post).
Proof.
  intros H; unfold splitMigrationContent.
  now rewrite H, scan_lines_app.
Qed.

Lemma scan_plain_lines (st : scan) (body : list string) :
  Forall plain body ->
  scan_lines st body =
  if inDownSection st
  then mkScan (upLines st) (downLines st ++ body) true
  else mkScan (upLines st ++ body) (downLines st) false.
Proof.
  intros H; revert st; induction H as [| line body Hl _ IH]; intros st.
  - destruct st as [u d []]; simpl; now rewrite !app_nil_r.
  - rewrite scan_lines_cons, scan_line_plain by exact Hl. rewrite IH.
    unfold keep_line; destruct (inDownSection st); simpl;
      now rewrite <- app_assoc.
Qed.

Lemma scan_blocks (blocks : list block) :
  Forall well_formed_block blocks ->
  forall st,
    sections (scan_lines st (concat (map block_lines blocks))) =
    sections (mkScan (upLines st ++ bodies false blocks)
                     (downLines st ++ bodies true blocks) false).
Proof.
  induction 1 as [| [mark body] blocks [Hm Hb] _ IH]; intros st.
  - unfold bodies; simpl. now rewrite !app_nil_r.
  - simpl in Hm, Hb.
    cbn [concat map block_lines fst snd app].
    rewrite scan_lines_cons, scan_lines_app.
    rewrite (scan_line_marker _ _ Hm), (scan_plain_lines _ _ Hb), IH.
    unfold bodies; simpl filter.
    destruct (is_down_marker mark); simpl; now rewrite <- !app_assoc.
Qed.

End SplitterFacts.

(** ** The markers of a migration file *)

Section Markers.
Import strings Splitter.

Lemma case_variant_plain (line : string) : case_variant line -> plain line.
Proof.
  intros (marker & Hin & Hlow & Hne).
  unfold plain, is_marker, is_down_marker, is_up_marker.
  set (t := TrimSpace line) in *. clearbody t.
  assert (G : forall p, In p markers -> HasPrefix t p = false).
  { intros p Hp. destruct (HasPrefix t p) eqn:E; [exfalso | reflexivity].
    apply HasPrefix_split in E as [rest ->].
    rewrite lower_app in Hlow.
    simpl in Hin, Hp.
    repeat (destruct Hin as [<- | Hin]); try contradiction;
      repeat (destruct Hp as [<- | Hp]); try contradiction;
      simpl in Hlow; try discriminate Hlow;
      injection Hlow as Hrest; apply lower_empty in Hrest; subst rest;
      now apply Hne. }
  rewrite !G by (simpl; tauto). reflexivity.
Qed.

(** C7 (as amended): the markers are matched with their letters in upper
    case only.  A line whose trimmed form starts with [-- DOWN] or [--DOWN]
    begins the reverse section and one that starts with [-- UP] or [--UP]
    resets to the forward section; a line whose trimmed form is one of
    these markers in another letter case, such as [-- down], is no marker
    and stays in the body of the section it stands in. *)
Theorem markers_match_upper_case_only
  (content : string) (pre post : list string) (line : string) :
  Split content LF = pre ++ line :: post ->
  let st := scan_lines scan_start pre in
  (is_down_marker line = true ->
   splitMigrationContent content =
   sections (scan_lines (enter_section true st) post))
  /\ (is_up_marker line = true ->
      splitMigrationContent content =
      sections (scan_lines (enter_section false st) post))
  /\ (case_variant line ->
      is_down_marker line = false /\ is_up_marker line = false /\
      splitMigrationContent content =
      sections (scan_lines (keep_line line st) post)).
Proof.
  intros Hsplit st.
  rewrite (scan_through _ _ _ _ Hsplit). fold st.
  repeat split.
  - intros H. now rewrite scan_line_down.
  - intros H. now rewrite scan_line_up by auto using up_prefix_not_down.
  - apply case_variant_plain in H. unfold plain, is_marker in H.
    now apply orb_false_elim in H.
  - apply case_variant_plain in H. unfold plain, is_marker in H.
    now apply orb_false_elim in H.
  - apply case_variant_plain in H. now rewrite scan_line_plain.
Qed.

Lemma markers_match_upper_case_only_witness :
  Split lower_case_file LF =
    ["-- UP"; "CREATE TABLE t (id INT);"] ++ "-- down" :: ["DROP TABLE t;"]
  /\ case_variant "-- down"
  /\ splitMigrationContent lower_case_file =
     (text ["CREATE TABLE t (id INT);"; "-- down"; "DROP TABLE t;"], "").
Proof.
  assert (V : case_variant "-- down").
  { exists "-- DOWN". repeat split; [simpl; tauto | discriminate]. }
  split; [reflexivity |]. split; [exact V |].
  destruct (markers_match_upper_case_only lower_case_file
              ["-- UP"; "CREATE TABLE t (id INT);"] ["DROP TABLE t;"]
              "-- down" eq_refl) as (_ & _ & K).
  destruct (K V) as (_ & _ & ->). reflexivity.
Defined.

(** The claim C7 fails on a file whose DOWN marker is in lower case: the
    trimmed line is the marker up to letter case, yet the scan is still in
    the forward section after it and the reverse section comes out empty. *)
Lemma lower_case_marker_not_recognised :
  In "-- down" (Split lower_case_file LF)
  /\ lower (TrimSpace "-- down") = lower "-- DOWN"
  /\ inDownSection
       (scan_lines scan_start ["-- UP"; "CREATE TABLE t (id INT);"; "-- down"])
     = false
  /\ snd (splitMigrationContent lower_case_file) = "".
Proof. repeat split; vm_compute; tauto. Qed.

(** C10: a line whose trimmed form merely starts with [-- DOWN] or [--DOWN]
    (resp. [-- UP] or [--UP]) is consumed as a marker whatever follows the
    prefix: the scan goes on in the reverse (resp. forward) section with
    both bodies as they were before the line, and the result is the one
    obtained with the bare marker in its place. *)
Theorem prefix_line_consumed_as_marker
  (content : string) (pre post : list string) (line : string) :
  Split content LF = pre ++ line :: post ->
  let trimmed := TrimSpace line in
  let st := scan_lines scan_start pre in
  (HasPrefix trimmed "-- DOWN" = true \/ HasPrefix trimmed "--DOWN" = true ->
   splitMigrationContent content =
     sections (scan_lines (mkScan (upLines st) (downLines st) true) post)
   /\ splitMigrationContent content =
      sections (scan_lines scan_start (pre ++ "-- DOWN" :: post)))
  /\ (HasPrefix trimmed "-- UP" = true \/ HasPrefix trimmed "--UP" = true ->
      splitMigrationContent content =
        sections (scan_lines (mkScan (upLines st) (downLines st) false) post)
      /\ splitMigrationContent content =
         sections (scan_lines scan_start (pre ++ "-- UP" :: post))).
Proof.
  intros Hsplit trimmed st.
  rewrite (scan_through _ _ _ _ Hsplit). fold st.
  split; intros H.
  - assert (D : is_down_marker line = true).
    { unfold is_down_marker. fold trimmed. now apply orb_true_iff. }
    rewrite scan_lines_app, scan_lines_cons. fold st.
    rewrite (scan_line_down _ _ D), (scan_line_down st "-- DOWN" eq_refl).
    now split.
  - assert (U : is_up_marker line = true).
    { unfold is_up_marker. fold trimmed. now apply orb_true_iff. }
    rewrite scan_lines_app, scan_lines_cons. fold st.
    rewrite (scan_line_up _ _ (up_prefix_not_down _ U) U),
            (scan_line_up st "-- UP" eq_refl eq_refl).
    now split.
Qed.

Lemma prefix_line_consumed_as_marker_witness :
  Split commented_file LF =
    ["CREATE TABLE t (id INT);"; "-- DOWNTIME note"; "DROP TABLE t;"]
      ++ "  -- UPDATE existing rows" :: ["UPDATE t SET id = 0;"]
  /\ HasPrefix (TrimSpace "  -- UPDATE existing rows") "-- UP" = true
  /\ splitMigrationContent commented_file =
     (text ["CREATE TABLE t (id INT);"; "UPDATE t SET id = 0;"],
      "DROP TABLE t;").
Proof.
  split; [reflexivity |]. split; [reflexivity |].
  destruct (prefix_line_consumed_as_marker commented_file
              ["CREATE TABLE t (id INT);"; "-- DOWNTIME note"; "DROP TABLE t;"]
              ["UPDATE t SET id = 0;"] "  -- UPDATE existing rows" eq_refl)
    as [_ K].
  destruct (K (or_introl eq_refl)) as [-> _]. reflexivity.
Defined.

(** C8 (as amended): in a file made of any number of marker blocks, the
    reverse section is the concatenation, in file order, of the bodies of
    all the DOWN blocks (and the forward section that of what precedes the
    first marker and of all the UP blocks). *)
Theorem reverse_section_joins_all_down_blocks
  (content : string) (pre : list string) (blocks : list block) :
  Split content LF = pre ++ concat (map block_lines blocks) ->
  Forall plain pre ->
  Forall well_formed_block blocks ->
  splitMigrationContent content =
  (text (pre ++ bodies false blocks), text (bodies true blocks)).
Proof.
  intros Hsplit Hpre Hblocks.
  unfold splitMigrationContent.
  rewrite Hsplit, scan_lines_app, (scan_plain_lines _ _ Hpre).
  simpl. now rewrite (scan_blocks _ Hblocks).
Qed.

Lemma reverse_section_joins_all_down_blocks_witness :
  Split alternating_file LF = [] ++ concat (map block_lines alternating_blocks)
  /\ Forall plain []
  /\ Forall well_formed_block alternating_blocks
  /\ splitMigrationContent alternating_file =
     (text ["CREATE TABLE a (id INT);"; "CREATE TABLE b (id INT);"],
      text ["DROP TABLE a;"; "DROP TABLE b;"]).
Proof.
  assert (W : Forall well_formed_block alternating_blocks).
  { repeat constructor. }
  split; [reflexivity |]. split; [constructor |]. split; [exact W |].
  rewrite (reverse_section_joins_all_down_blocks alternating_file []
             alternating_blocks eq_refl (Forall_nil _) W).
  reflexivity.
Defined.

(** The claim C8 fails on a file with two UP/DOWN alternations: the last
    contiguous DOWN block is the one line [DROP TABLE b;], while the
    reverse section holds the lines of both DOWN blocks. *)
Lemma reverse_section_not_last_block_only :
  Split alternating_file LF = concat (map block_lines alternating_blocks)
  /\ snd (splitMigrationContent alternating_file)
     = text ["DROP TABLE a;"; "DROP TABLE b;"]
  /\ snd (splitMigrationContent alternating_file) <> text ["DROP TABLE b;"].
Proof. repeat split; [vm_compute; discriminate]. Qed.

End Markers.

(** ** Facts about the tracking table *)

Section TableFacts.

Lemma key_default_module (l : list Row) :
  map key (map default_module l) = map key l.
Proof.
  induction l as [| r l IH]; [reflexivity |].
  cbn [map]. rewrite IH. f_equal.
  unfold default_module. now destruct (module r).
Qed.

Lemma default_module_all (l : list Row) :
  Forall (fun r => module r = None) l ->
  Forall (fun r => module r = Some "legacy") (map default_module l).
Proof.
  induction 1 as [| r l Hr _ IH]; [constructor |].
  cbn [map]. constructor; [| exact IH].
  unfold default_module. now rewrite Hr.
Qed.

Lemma migrate_with_module (faults : list bool) (t : Table) :
  has_module t = true -> snd (migrateMigrationsTable faults t) = t.
Proof.
  intros H. unfold migrateMigrationsTable.
  destruct faults as [| [] rest]; cbn [Exec check]; now rewrite ?H.
Qed.

Lemma migrate_result (faults : list bool) (t : Table) :
  has_module t = false ->
  forall res t', migrateMigrationsTable faults t = (res, t') ->
    map key (rows t') = map key (rows t)
    /\ (t' = t \/ has_module t' = true)
    /\ (res = None ->
        has_module t' = true /\ has_file_path t' = true
        /\ has_file_path t = false
        /\ rows t' = map default_module (rows t)).
Proof.
  intros Hm res t'. unfold migrateMigrationsTable.
  destruct (Exec check faults t) as [[c |] f1] eqn:E0;
    [| intros [= <- <-]; split; [reflexivity | split; [now left | discriminate]]].
  rewrite Hm.
  assert (A : forall f, fst (Exec add_module f t) = None
                        \/ fst (Exec add_module f t)
                           = Some (mkTable true (has_file_path t) (rows t))).
  { intros f. unfold Exec, add_module. rewrite Hm.
    destruct f as [| [] r]; auto. }
  destruct (A f1) as [EA | EA];
    destruct (Exec add_module f1 t) as [[t1 |] f2]; cbn [fst] in EA;
      try discriminate EA.
  - intros [= <- <-]. split; [reflexivity | split; [now left | discriminate]].
  - injection EA as ->.
    assert (B : forall f t0, fst (Exec add_file_path f t0) = None
                \/ (has_file_path t0 = false
                    /\ fst (Exec add_file_path f t0)
                       = Some (mkTable (has_module t0) true (rows t0)))).
    { intros f t0. unfold Exec, add_file_path.
      destruct (has_file_path t0); destruct f as [| [] r]; auto. }
    destruct (B f2 (mkTable true (has_file_path t) (rows t))) as [EB | [HB EB]];
      destruct (Exec add_file_path f2 (mkTable true (has_file_path t) (rows t)))
        as [[t2 |] f3]; cbn [fst] in EB; try discriminate EB.
    + intros [= <- <-]. split; [reflexivity | split; [now right | discriminate]].
    + injection EB as ->. cbn [has_module has_file_path rows] in *.
      assert (C : forall f t0, fst (Exec set_legacy f t0) = None
                  \/ fst (Exec set_legacy f t0)
                     = Some (mkTable (has_module t0) (has_file_path t0)
                                     (map default_module (rows t0)))).
      { intros f t0. unfold Exec, set_legacy. destruct f as [| [] r]; auto. }
      destruct (C f3 (mkTable true true (rows t))) as [EC | EC];
        destruct (Exec set_legacy f3 (mkTable true true (rows t)))
          as [[t3 |] f4]; cbn [fst] in EC; try discriminate EC.
      * intros [= <- <-]. split; [reflexivity | split; [now right | discriminate]].
      * injection EC as ->. intros [= <- <-].
        cbn [has_module has_file_path rows].
        split; [apply key_default_module |]. split; [now right |].
        intros _. split; [reflexivity |]. split; [reflexivity |].
        split; [exact HB | reflexivity].
Qed.

Lemma map_key_columns (a b : list Row) :
  map key a = map key b ->
  map version a = map version b /\ map executed_at a = map executed_at b.
Proof.
  revert b. induction a as [| x a IH]; intros [| y b] H; try discriminate H;
    [now split |].
  cbn [map] in H. injection H as Ev _ Et Hrest.
  destruct (IH _ Hrest) as [Hv Ht].
  cbn [map]. now rewrite Ev, Et, Hv, Ht.
Qed.

(** What [createMigrationsTable] leaves: when it returns no error, a table
    with the module column; in every case the table it was given with the
    same versions, descriptions and times, untouched when it had the
    module column; from no table, none or the new one. *)
Lemma create_result (faults : list bool) (tb : option Table)
      (res : option error) (tb' : option Table) :
  createMigrationsTable faults tb = (res, tb') ->
  (res = None -> exists t', tb' = Some t' /\ has_module t' = true)
  /\ match tb with
     | Some t =>
         exists t', tb' = Some t'
                    /\ map key (rows t') = map key (rows t)
                    /\ (has_module t = true -> t' = t)
     | None => (tb' = None /\ res <> None) \/ tb' = Some new_table
     end.
Proof.
  unfold createMigrationsTable.
  assert (M : forall f t0 r t1,
             migrateMigrationsTable f t0 = (r, t1) ->
             map key (rows t1) = map key (rows t0)
             /\ (has_module t0 = true -> t1 = t0)
             /\ (r = None -> has_module t1 = true)).
  { intros f t0 r t1 E. destruct (has_module t0) eqn:Hm.
    - pose proof (migrate_with_module f t0 Hm) as S. rewrite E in S.
      cbn [snd] in S. subst t1. repeat split; auto.
    - destruct (migrate_result f t0 Hm _ _ E) as (K & _ & R).
      split; [exact K |]. split; [discriminate |].
      intros Hr. now destruct (R Hr). }
  assert (G : forall f t0,
             match migrateMigrationsTable f t0 with
             | (Some err, t') =>
                 (Some (wrapError "failed to migrate migrations table" err),
                  Some t')
             | (None, t') => (None, Some t')
             end = (res, tb') ->
             exists t1, tb' = Some t1
                        /\ map key (rows t1) = map key (rows t0)
                        /\ (has_module t0 = true -> t1 = t0)
                        /\ (res = None -> has_module t1 = true)).
  { intros f t0.
    destruct (migrateMigrationsTable f t0) as [[e |] t1] eqn:E;
      destruct (M _ _ _ _ E) as (K & I & R);
      intros [= <- <-]; exists t1; repeat split; auto; discriminate. }
  assert (Done : forall f,
             match migrateMigrationsTable f
                     match tb with Some t => t | None => new_table end with
             | (Some err, t') =>
                 (Some (wrapError "failed to migrate migrations table" err),
                  Some t')
             | (None, t') => (None, Some t')
             end = (res, tb') ->
             (res = None -> exists t', tb' = Some t' /\ has_module t' = true)
             /\ match tb with
                | Some t =>
                    exists t', tb' = Some t'
                               /\ map key (rows t') = map key (rows t)
                               /\ (has_module t = true -> t' = t)
                | None => (tb' = None /\ res <> None) \/ tb' = Some new_table
                end).
  { intros f H. destruct (G _ _ H) as (t1 & -> & K & I & R).
    split; [intros Hr; exists t1; split; [reflexivity | now apply R] |].
    destruct tb as [t |].
    - exists t1. repeat split; auto.
    - right. now rewrite (I eq_refl). }
  destruct faults as [| [] rest]; cbn [tl]; cbv zeta.
  - apply Done.
  - intros [= <- <-]. split; [discriminate |].
    destruct tb as [t |];
      [exists t; repeat split | left; split; [reflexivity | discriminate]].
  - apply Done.
Qed.

End TableFacts.


(** ** Facts about the runner *)

Section RunnerFacts.
Context {PG : Database} {SS : SliceSort}.

Lemma count_version_pos (v : string) (rows : list LedgerEntry) :
  (0 <? count_version v rows)%nat = true <-> In v (map version rows).
Proof.
  unfold count_version; induction rows as [| r rows IH]; simpl.
  - split; [discriminate | tauto].
  - destruct (version r =? v)%string eqn:E; simpl.
    + apply String.eqb_eq in E. split; [now left | reflexivity].
    + apply String.eqb_neq in E. rewrite IH. split; [now right |].
      now intros [H | H].
Qed.

Lemma count_version_zero (v : string) (rows : list LedgerEntry) :
  (0 <? count_version v rows)%nat = false <-> ~ In v (map version rows).
Proof.
  rewrite <- count_version_pos.
  destruct (0 <? count_version v rows)%nat; split; congruence.
Qed.

Lemma ledger_table (db : DB) (rows0 : list LedgerEntry) :
  ledger db = Some rows0 -> exists t, table db = Some t /\ rows t = rows0.
Proof.
  unfold ledger. destruct (table db) as [t |]; [| discriminate].
  intros [= <-]. now exists t.
Qed.

Lemma table_ledger (db : DB) (t : Table) :
  table db = Some t -> ledger db = Some (rows t).
Proof. unfold ledger. now intros ->. Qed.

Lemma columns_table (db : DB) (hm hf : bool) :
  columns db = Some (hm, hf) ->
  exists t, table db = Some t /\ has_module t = hm /\ has_file_path t = hf.
Proof.
  unfold columns. destruct (table db) as [t |]; [| discriminate].
  intros [= <- <-]. now exists t.
Qed.

Lemma executeMigration_skip (m : Migration) (db : DB) :
  In (Version m) (applied db) ->
  executeMigration m db = (None, db, [EvSkip m]).
Proof.
  unfold applied, ledger, executeMigration.
  destruct (table db) as [t |]; [| contradiction].
  intros H. apply count_version_pos in H. now rewrite H.
Qed.

(** What one call of [executeMigration] can do. *)
Inductive step : Migration -> DB -> option error -> DB -> list event -> Prop :=
| step_skip m db :
    In (Version m) (applied db) ->
    step m db None db [EvSkip m]
| step_commit m db rows e db' evs :
    ledger db = Some rows ->
    ~ In (Version m) (map version rows) ->
    e = mkEntry (Version m) (Description m) (Module_ m) (FilePath m) (now db) ->
    ledger db' = Some (rows ++ [e]) ->
    now db' = (now db + 1)%Z ->
    (evs = [EvBegin m; EvRecord m; EvCommit m]
     \/ evs = [EvBegin m; EvExec m; EvRecord m; EvCommit m]) ->
    step m db None db' evs
| step_abort m db err evs :
    ~ In (Version m) (applied db) ->
    (evs = [EvBegin m; EvRollback m]
     \/ evs = [EvBegin m; EvExec m; EvRollback m]
     \/ evs = [EvBegin m; EvRecord m; EvRollback m]
     \/ evs = [EvBegin m; EvExec m; EvRecord m; EvRollback m]) ->
    step m db (Some err) (rolled_back db) evs.

Lemma executeMigration_step (m : Migration) (db : DB) (rows : list LedgerEntry) :
  ledger db = Some rows ->
  forall res db' evs,
    executeMigration m db = (res, db', evs) -> step m db res db' evs.
Proof.
  intros Hl res db' evs. unfold executeMigration.
  destruct (ledger_table _ _ Hl) as (t & Ht & Hr). rewrite Ht, Hr.
  destruct (0 <? count_version (Version m) rows)%nat eqn:Ec.
  - intros [= <- <- <-]. apply step_skip.
    unfold applied; rewrite Hl. now apply count_version_pos.
  - apply count_version_zero in Ec.
    assert (Hn : ~ In (Version m) (applied db))
      by (unfold applied; now rewrite Hl).
    unfold insert_entry. rewrite Hr.
    rewrite (proj2 (count_version_zero _ _) Ec).
    destruct (blank (UpSQL m));
      [| destruct (exec_sql (UpSQL m) (schema db)) as [schema' |]];
      simpl;
      try destruct (has_module t && has_file_path t && insert_ok _ _ _ _);
      try destruct (commit_ok _);
      intros [= <- <- <-];
      try (apply step_abort; [exact Hn | tauto]);
      eapply step_commit; eauto; reflexivity.
Qed.

Lemma step_ledger (m : Migration) (db db' : DB) res evs :
  step m db res db' evs ->
  forall rows, ledger db = Some rows ->
  exists added, ledger db' = Some (rows ++ added)
    /\ (res = None -> In (Version m) (map version (rows ++ added)))
    /\ (res <> None -> added = []).
Proof.
  destruct 1 as [m db Hin | m db rows0 e db' evs Hl Hn -> Hl' _ _ | m db err evs _ _];
    intros rows Hrows.
  - exists []. rewrite app_nil_r. unfold applied in Hin; rewrite Hrows in Hin.
    repeat split; auto.
  - rewrite Hl in Hrows; injection Hrows as ->.
    eexists; split; [exact Hl' |]. split; [| congruence].
    intros _. rewrite map_app, in_app_iff. right; now left.
  - exists []. rewrite app_nil_r. simpl. split; [exact Hrows |].
    split; [discriminate | reflexivity].
Qed.

Lemma step_visited (m : Migration) (db db' : DB) res evs :
  step m db res db' evs -> visited evs = [m].
Proof.
  destruct 1 as [| ? ? ? ? ? ? _ _ _ _ _ H | ? ? ? ? _ H]; [reflexivity | |];
    repeat (destruct H as [-> | H]); subst; reflexivity.
Qed.

Lemma step_begun (m : Migration) (db db' : DB) res evs :
  step m db res db' evs ->
  (begun evs = [] /\ skipped evs = [m] /\ executed evs = [] /\ db' = db
   /\ res = None /\ In (Version m) (applied db))
  \/ (begun evs = [m] /\ skipped evs = [] /\ ~ In (Version m) (applied db)
      /\ (executed evs = [] \/ executed evs = [m])).
Proof.
  destruct 1 as [m db Hin | m db rows e db' evs Hl Hn _ _ _ H | m db err evs Hn H].
  - left. repeat split; auto.
  - right. unfold applied; rewrite Hl.
    repeat (destruct H as [-> | H]); subst; simpl; tauto.
  - right. repeat (destruct H as [-> | H]); subst; simpl; tauto.
Qed.

Lemma step_failed_commits_nothing (m : Migration) (db db' : DB) err evs :
  step m db (Some err) db' evs -> committed evs = [].
Proof.
  inversion 1 as [| | ? ? ? ? _ H']; subst.
  repeat (destruct H' as [-> | H']); subst; reflexivity.
Qed.

Lemma step_ok_inv (m : Migration) (db db1 : DB) evs :
  step m db None db1 evs ->
  (db1 = db /\ In (Version m) (applied db))
  \/ (exists rows,
        ledger db = Some rows /\ ~ In (Version m) (map version rows)
        /\ exists e, version e = Version m /\ executed_at e = now db
                     /\ ledger db1 = Some (rows ++ [e])).
Proof.
  inversion 1; subst; [now left | right].
  eexists; split; [eassumption |]. split; [assumption |].
  eexists; split; [| split; [| eassumption]]; reflexivity.
Qed.

(** A call of [executeMigration] adds no column to the tracking table and
    drops none, and it commits on a table with both later columns only. *)
Lemma executeMigration_columns (m : Migration) (db db' : DB) res evs :
  executeMigration m db = (res, db', evs) ->
  columns db' = columns db
  /\ (committed evs <> [] -> columns db = Some (true, true)).
Proof.
  unfold executeMigration, columns.
  destruct (table db) as [t |] eqn:Ht;
    [| intros [= <- <- <-]; rewrite Ht; split; [reflexivity | now intros H]].
  destruct (0 <? count_version (Version m) (rows t))%nat eqn:Ec;
    [intros [= <- <- <-]; rewrite Ht; split; [reflexivity | now intros H] |].
  unfold insert_entry. rewrite Ec.
  destruct (blank (UpSQL m));
    [| destruct (exec_sql (UpSQL m) (schema db)) as [schema' |]];
    cbn [fst snd];
    try destruct (has_module t && has_file_path t && insert_ok _ _ _ _) eqn:Ei;
    try destruct (commit_ok _);
    intros [= <- <- <-]; cbn [table rolled_back option_map has_module
                                has_file_path];
    rewrite ?Ht; cbn [option_map];
    (split; [reflexivity |]); try (now intros H);
    intros _; apply andb_true_iff in Ei as [Ei _];
    apply andb_true_iff in Ei as [-> ->]; reflexivity.
Qed.

End RunnerFacts.

Section LoopFacts.
Context {PG : Database} {SS : SliceSort}.

(** The runs of the loop of [RunMigrations], step by step. *)
Inductive run : list Migration -> DB -> option error -> DB -> list event -> Prop :=
| run_done db : run [] db None db []
| run_stop m rest db err db' evs :
    step m db (Some err) db' evs ->
    run (m :: rest) db
        (Some (wrapError ("failed to execute migration " ++ Version m)%string err))
        db' evs
| run_next m rest db db1 evs1 res db' evs2 :
    step m db None db1 evs1 ->
    run rest db1 res db' evs2 ->
    run (m :: rest) db res db' (evs1 ++ evs2).

Lemma execute_pending_run (ms : list Migration) :
  forall db rows res db' evs,
    ledger db = Some rows ->
    execute_pending ms db = (res, db', evs) -> run ms db res db' evs.
Proof.
  induction ms as [| m ms IH]; intros db rows res db' evs Hl; simpl.
  - intros [= <- <- <-]. constructor.
  - destruct (executeMigration m db) as [[r1 db1] evs1] eqn:E1.
    pose proof (executeMigration_step m db rows Hl _ _ _ E1) as Hs.
    destruct r1 as [err |].
    + intros [= <- <- <-]. now constructor.
    + destruct (step_ledger _ _ _ _ _ Hs rows Hl) as (added & Hl1 & _).
      destruct (execute_pending ms db1) as [[r2 db2] evs2] eqn:E2.
      intros [= <- <- <-]. econstructor; eauto.
Qed.

Lemma run_ledger ms db res db' evs :
  run ms db res db' evs ->
  forall rows, ledger db = Some rows ->
  exists added, ledger db' = Some (rows ++ added)
    /\ (res = None -> forall m, In m ms -> In (Version m) (map version (rows ++ added))).
Proof.
  induction 1 as [db | m rest db err db' evs Hs
                  | m rest db db1 evs1 res db' evs2 Hs Hr IH]; intros rows Hl.
  - exists []. rewrite app_nil_r. split; [exact Hl | intros _ m []].
  - destruct (step_ledger _ _ _ _ _ Hs rows Hl) as (added & Hl1 & _).
    exists added. split; [exact Hl1 | discriminate].
  - destruct (step_ledger _ _ _ _ _ Hs rows Hl) as (a1 & Hl1 & Hin1 & _).
    destruct (IH _ Hl1) as (a2 & Hl2 & Hin2).
    exists (a1 ++ a2). rewrite app_assoc. split; [exact Hl2 |].
    intros Hres m' [<- | Hm'].
    + rewrite map_app, in_app_iff. left. now apply Hin1.
    + now apply Hin2.
Qed.

Lemma run_visited ms db res db' evs :
  run ms db res db' evs ->
  exists rest, ms = visited evs ++ rest /\ (res = None -> rest = []).
Proof.
  induction 1 as [db | m rest db err db' evs Hs
                  | m rest db db1 evs1 res db' evs2 Hs Hr IH].
  - exists []. split; [reflexivity | reflexivity].
  - exists rest. rewrite (step_visited _ _ _ _ _ Hs).
    split; [reflexivity | discriminate].
  - destruct IH as (tl & -> & Htl). exists tl.
    unfold visited in *. rewrite flat_map_app.
    fold (visited evs1). rewrite (step_visited _ _ _ _ _ Hs).
    split; [reflexivity | exact Htl].
Qed.


(** A failed run: the migrations before the failing one went through, the
    failing one left the database as it found it, and nothing follows. *)
Lemma failed_run_stops (ms : list Migration) :
  forall db rows err db' evs,
    ledger db = Some rows ->
    execute_pending ms db = (Some err, db', evs) ->
    exists done m rest db1 evs1 err0 evs_m,
      ms = done ++ m :: rest
      /\ execute_pending done db = (None, db1, evs1)
      /\ executeMigration m db1 = (Some err0, db', evs_m)
      /\ err = wrapError ("failed to execute migration " ++ Version m)%string err0
      /\ db' = rolled_back db1
      /\ evs = evs1 ++ evs_m
      /\ visited evs = done ++ [m].
Proof.
  induction ms as [| m ms IH]; intros db rows err db' evs Hl; simpl;
    [discriminate |].
  destruct (executeMigration m db) as [[r1 db1] evs1] eqn:E1.
  pose proof (executeMigration_step m db rows Hl _ _ _ E1) as Hs.
  destruct r1 as [err1 |].
  - intros [= <- <- <-].
    exists [], m, ms, db, [], err1, evs1. simpl.
    repeat split; auto.
    + now inversion Hs.
    + exact (step_visited _ _ _ _ _ Hs).
  - destruct (step_ledger _ _ _ _ _ Hs rows Hl) as (added & Hl1 & _).
    destruct (execute_pending ms db1) as [[r2 db2] evs2] eqn:E2.
    intros [= -> <- <-].
    destruct (IH _ _ _ _ _ Hl1 E2)
      as (done & m' & rest & dbk & evsk & err0 & evs_m
          & -> & Hdone & Hm' & Herr & Hdb & -> & Hvis).
    exists (m :: done), m', rest, dbk, (evs1 ++ evsk), err0, evs_m.
    simpl. rewrite E1, Hdone.
    repeat split; auto.
    + now rewrite app_assoc.
    + unfold visited in *. rewrite flat_map_app. fold (visited evs1).
      rewrite (step_visited _ _ _ _ _ Hs), Hvis. reflexivity.
Qed.

Lemma execute_pending_app (l1 l2 : list Migration) :
  forall db db1 evs1,
    execute_pending l1 db = (None, db1, evs1) ->
    execute_pending (l1 ++ l2) db =
    let '(res, db', evs2) := execute_pending l2 db1 in (res, db', evs1 ++ evs2).
Proof.
  induction l1 as [| m l1 IH]; intros db db1 evs1; simpl.
  - intros [= <- <-]. now destruct (execute_pending l2 db) as [[r d] e].
  - destruct (executeMigration m db) as [[[err |] dbm] evsm]; [discriminate |].
    destruct (execute_pending l1 dbm) as [[r d] e] eqn:E1.
    intros [= -> -> <-]. rewrite (IH _ _ _ E1).
    destruct (execute_pending l2 db1) as [[r2 d2] e2].
    now rewrite app_assoc.
Qed.

(** A failed migration fails in the same way when it is tried again on
    the database it left. *)
Lemma executeMigration_fails_again (m : Migration) (db db' : DB) rows err evs :
  ledger db = Some rows ->
  executeMigration m db = (Some err, db', evs) ->
  db' = rolled_back db
  /\ executeMigration m db' = (Some err, rolled_back db', evs).
Proof.
  intros Hl. unfold executeMigration.
  destruct (ledger_table _ _ Hl) as (t & Ht & Hr). rewrite Ht, Hr.
  destruct (0 <? count_version (Version m) rows)%nat eqn:Ec; [discriminate |].
  unfold insert_entry. rewrite Hr, Ec.
  destruct (blank (UpSQL m)) eqn:Eb;
    [| destruct (exec_sql (UpSQL m) (schema db)) as [schema' |] eqn:Ex];
    simpl;
    try destruct (has_module t && has_file_path t && insert_ok _ _ _ _) eqn:Ei;
    try destruct (commit_ok _) eqn:Eo;
    intros [= <- <- <-]; (split; [reflexivity |]);
    simpl; rewrite Ht, Hr, Ec, ?Eb, ?Ex; simpl; rewrite ?Ei, ?Eo; reflexivity.
Qed.


End LoopFacts.

(** ** The runner: idempotency and the applied prefix *)

Section Runner.
Context {PG : Database} {SS : SliceSort}.



(** The rows after the call of [createMigrationsTable]: those of before
    with the same versions, descriptions and times, the same rows when
    the table had the module column; from no table, none. *)
Lemma prepared_keys (faults : list bool) (db : DB) :
  match ledger db with
  | Some rows0 =>
      exists rows1, ledger (prepared faults db) = Some rows1
                    /\ map key rows1 = map key rows0
                    /\ (forall t, table db = Some t -> has_module t = true ->
                                  rows1 = rows0)
  | None =>
      ledger (prepared faults db) = None \/ ledger (prepared faults db) = Some []
  end.
Proof.
  unfold prepared, ledger. cbn [table].
  destruct (createMigrationsTable faults (table db)) as [res tb'] eqn:E.
  destruct (create_result _ _ _ _ E) as [_ R]. cbn [snd].
  destruct (table db) as [t |]; cbn [option_map].
  - destruct R as (t' & -> & K & I). exists (rows t').
    split; [reflexivity |]. split; [exact K |].
    intros t1 [= <-] Hm. now rewrite (I Hm).
  - destruct R as [[-> _] | ->]; [now left | now right].
Qed.

Lemma prepared_applied (faults : list bool) (db : DB) :
  applied (prepared faults db) = applied db.
Proof.
  unfold applied. pose proof (prepared_keys faults db) as K.
  destruct (ledger db) as [rows0 |].
  - destruct K as (rows1 & -> & K & _). now apply map_key_columns in K.
  - destruct K as [-> | ->]; reflexivity.
Qed.

Lemma prepared_ok (faults : list bool) (db : DB) :
  fst (createMigrationsTable faults (table db)) = None ->
  exists t0, table (prepared faults db) = Some t0 /\ has_module t0 = true.
Proof.
  unfold prepared. cbn [table].
  destruct (createMigrationsTable faults (table db)) as [res tb'] eqn:E.
  destruct (create_result _ _ _ _ E) as [R _]. cbn [fst snd]. exact R.
Qed.

(** The three ways in which [RunMigrations] ends. *)
Lemma RunMigrations_cases (faults : list bool) (fs : FileSystem) (db : DB)
      res db' evs :
  RunMigrations faults fs db = (res, db', evs) ->
  (exists err,
      fst (createMigrationsTable faults (table db)) = Some err
      /\ res = Some (wrapError "failed to create migrations table" err)
      /\ db' = prepared faults db /\ evs = [])
  \/ (exists t0,
        fst (createMigrationsTable faults (table db)) = None
        /\ table (prepared faults db) = Some t0 /\ has_module t0 = true
        /\ match loadMigrationsFromFiles fs with
           | inl err =>
               res = Some (wrapError "failed to load migrations" err)
               /\ db' = prepared faults db /\ evs = []
           | inr ms =>
               execute_pending (sort_Slice ms) (prepared faults db)
               = (res, db', evs)
           end).
Proof.
  unfold RunMigrations. pose proof (prepared_ok faults db) as P.
  destruct (createMigrationsTable faults (table db)) as [[err |] tb'].
  - intros [= <- <- <-]. left. exists err. repeat split.
  - destruct (P eq_refl) as (t0 & Ht0 & Hm0). intros H. right. exists t0.
    split; [reflexivity |]. split; [exact Ht0 |]. split; [exact Hm0 |].
    destruct (loadMigrationsFromFiles fs) as [err | ms];
      [injection H as <- <- <-; repeat split | exact H].
Qed.



(** *** The applied prefix *)

Lemma firstn_whole_prefix {A} (l1 l2 : list A) :
  firstn (List.length l1) (l1 ++ l2) = l1.
Proof.
  rewrite firstn_app, Nat.sub_diag, firstn_all. simpl. apply app_nil_r.
Qed.

Lemma In_firstn {A} (x : A) (n : nat) (l : list A) :
  In x (firstn n l) -> In x l.
Proof.
  intros H. rewrite <- (firstn_skipn n l). apply in_app_iff. now left.
Qed.

Lemma run_keeps_prefix ms db res db' evs :
  run ms db res db' evs ->
  forall done,
    applied_prefix (done ++ ms) db ->
    incl (map Version done) (applied db) ->
    applied_prefix (done ++ ms) db'.
Proof.
  induction 1 as [db | m rest db err db' evs Hs
                  | m rest db db1 evs1 res db' evs2 Hs Hr IH];
    intros done Hpre Hincl.
  - exact Hpre.
  - inversion Hs; subst. exact Hpre.
  - replace (done ++ m :: rest) with ((done ++ [m]) ++ rest) in *
      by (now rewrite <- app_assoc).
    destruct (step_ok_inv _ _ _ _ Hs)
      as [[-> Hin] | (rows & Hl & Hnew & e & He & _ & Hl1)].
    + apply IH; [exact Hpre |].
      rewrite map_app. apply incl_app; [exact Hincl |].
      intros v [<- | []]. assumption.
    + assert (Ha : applied db = map version rows)
        by (unfold applied; now rewrite Hl).
      assert (Ha1 : applied db1 = map version rows ++ [Version m]).
      { unfold applied. rewrite Hl1, map_app, <- He. reflexivity. }
      assert (Hsame : same_versions (applied db) (map Version done)).
      { intros v; split; [| apply Hincl].
        destruct Hpre as [k Hk]. intros Hv.
        apply Hk in Hv. rewrite <- app_assoc, firstn_app, map_app in Hv.
        apply in_app_iff in Hv as [Hv | Hv].
        - apply in_map_iff in Hv as (x & <- & Hx).
          apply in_map. eapply In_firstn; eauto.
        - destruct (k - List.length done) as [| j] eqn:Ej; [contradiction |].
          exfalso. apply Hnew. rewrite <- Ha. apply Hk.
          rewrite <- app_assoc, firstn_app, map_app, Ej, in_app_iff.
          right; now left. }
      apply IH.
      * exists (List.length (done ++ [m])).
        rewrite firstn_whole_prefix, map_app, Ha1, <- Ha.
        intros v. rewrite !in_app_iff. now rewrite (Hsame v).
      * rewrite map_app, Ha1, <- Ha. apply incl_app.
        -- apply incl_appl, Hincl.
        -- apply incl_appr, incl_refl.
Qed.

End Runner.

Section PrefixInvariant.
Context {PG : Database} {SS : SliceSort}.

(** C2 (as amended): when a migration fails, what its transaction did is
    rolled back (ledger and schemas are as the migrations before it left
    them) and the run aborts at once: the loop reached the migrations up to
    the failing one and no other.  (A run that fails on the tracking table
    reaches no migration at all.)  And after any run, successful or
    failed, the applied versions are those of a prefix of the sorted
    corpus, provided they were so before the run (as with an empty
    ledger). *)
Theorem failed_migration_aborts_run
  (faults : list bool) (fs : FileSystem) (ms : list Migration) (db : DB)
  (res : option error) (db' : DB) (evs : list event) :
  loadMigrationsFromFiles fs = inr ms ->
  RunMigrations faults fs db = (res, db', evs) ->
  (forall err, res = Some err ->
     (exists e,
         err = wrapError "failed to create migrations table" e
         /\ db' = prepared faults db /\ evs = [])
     \/ exists done m rest db1 evs1 err0 evs_m,
          sort_Slice ms = done ++ m :: rest
          /\ execute_pending done (prepared faults db) = (None, db1, evs1)
          /\ executeMigration m db1 = (Some err0, db', evs_m)
          /\ ledger db' = ledger db1 /\ schema db' = schema db1
          /\ evs = evs1 ++ evs_m
          /\ visited evs = done ++ [m])
  /\ (applied_prefix (sort_Slice ms) db -> applied_prefix (sort_Slice ms) db').
Proof.
  intros Hload Hrun.
  destruct (RunMigrations_cases _ _ _ _ _ _ Hrun)
    as [(e & _ & -> & -> & ->) | (t0 & _ & Ht0 & _ & R)].
  - split.
    + intros err [= <-]. left. now exists e.
    + unfold applied_prefix. now rewrite prepared_applied.
  - rewrite Hload in R. pose proof (table_ledger _ _ Ht0) as Hl0. split.
    + intros err ->. right.
      destruct (failed_run_stops _ _ _ _ _ _ Hl0 R)
        as (done & m & rest & db1 & evs1 & err0 & evs_m
            & E & Hdone & Hm & _ & -> & -> & Hvis).
      exists done, m, rest, db1, evs1, err0, evs_m.
      repeat split; auto.
    + intros Hpre.
      apply (run_keeps_prefix _ _ _ _ _
               (execute_pending_run _ _ _ _ _ _ Hl0 R) []).
      * unfold applied_prefix in *. now rewrite prepared_applied.
      * intros v [].
Qed.

End PrefixInvariant.

Lemma triple_eta {A B C} (x : A * B * C) : x = (fst (fst x), snd (fst x), snd x).
Proof. now destruct x as [[a b] c]. Qed.




Lemma failed_migration_aborts_run_witness :
  let out := RunMigrations [] late_scripts fresh_database in
  loadMigrationsFromFiles late_scripts = inr (corpus_of late_scripts)
  /\ applied_prefix (sort_Slice (corpus_of late_scripts)) fresh_database
  /\ fst (fst out) <> None
  /\ applied_prefix (sort_Slice (corpus_of late_scripts)) (snd (fst out)).
Proof.
  assert (P : applied_prefix (sort_Slice (corpus_of late_scripts))
                             fresh_database).
  { exists 0%nat. intros v. reflexivity. }
  assert (L : loadMigrationsFromFiles late_scripts
              = inr (corpus_of late_scripts)) by (vm_compute; reflexivity).
  split; [exact L |]. split; [exact P |].
  split; [vm_compute; discriminate |].
  refine (proj2 (failed_migration_aborts_run [] late_scripts
                   (corpus_of late_scripts) fresh_database
                   (fst (fst (RunMigrations [] late_scripts fresh_database)))
                   _ (snd (RunMigrations [] late_scripts fresh_database))
                   L _) P).
  now destruct (RunMigrations [] late_scripts fresh_database) as [[r d] e].
Defined.

(** The claim C2 fails on a ledger that holds 003 alone when the run
    starts: 001 fails, the run aborts, and the applied versions, 003 only,
    are those of no prefix of the sorted corpus 001, 002, 003. *)
Lemma applied_versions_not_a_prefix :
  let out := RunMigrations [] late_scripts sensors_applied in
  map Version (sort_Slice (corpus_of late_scripts)) = ["001"; "002"; "003"]
  /\ fst (fst out) <> None
  /\ applied (snd (fst out)) = ["003"]
  /\ ~ applied_prefix (sort_Slice (corpus_of late_scripts)) (snd (fst out)).
Proof.
  assert (E : map Version (sort_Slice (corpus_of late_scripts))
              = ["001"; "002"; "003"]) by (vm_compute; reflexivity).
  assert (A : applied (snd (fst (RunMigrations [] late_scripts sensors_applied)))
              = ["003"]) by (vm_compute; reflexivity).
  split; [exact E |]. split; [vm_compute; discriminate |]. split; [exact A |].
  intros [k Hk]. rewrite A, <- firstn_map, E in Hk.
  destruct k as [| k].
  - destruct (proj1 (Hk "003") (or_introl eq_refl)).
  - destruct (proj2 (Hk "001") (or_introl eq_refl)) as [H | []].
    discriminate H.
Qed.

(** ** The order of execution *)




Section Ordering.
Context {PG : Database} {SS : SliceSort}.




End Ordering.



(** ** Versions that do not parse, versions that collide *)

Lemma Atoi_syntax (v : string) :
  snd (strconv.Atoi v) = Some strconv.ErrSyntax ->
  fst (strconv.Atoi v) = 0%Z.
Proof.
  unfold strconv.Atoi, strconv.ParseInt.
  destruct ((0 <? String.length v) && (String.length v <? 19))%nat.
  - destruct v as [| c r]; [reflexivity |].
    destruct (if strconv.is_sign c then r else String c r); [reflexivity |].
    destruct (strconv.small_digits _ _); [discriminate | reflexivity].
  - destruct v as [| c r]; [reflexivity |].
    destruct (strconv.ParseUint _) as [un [[] |]]; simpl; try reflexivity;
      repeat match goal with
             | |- context [if ?b then _ else _] => destruct b; simpl
             end; try discriminate; reflexivity.
Qed.

(** A number out of range is read as the bound of [int64] on its side. *)
Lemma Atoi_range (v : string) :
  snd (strconv.Atoi v) = Some strconv.ErrRange ->
  fst (strconv.Atoi v)
  = if minus_sign v then (- 2 ^ 63)%Z else (2 ^ 63 - 1)%Z.
Proof.
  unfold strconv.Atoi, strconv.ParseInt, minus_sign.
  destruct ((0 <? String.length v) && (String.length v <? 19))%nat.
  - destruct v as [| c r]; [discriminate |].
    destruct (if strconv.is_sign c then r else String c r); [discriminate |].
    destruct (strconv.small_digits _ _); discriminate.
  - destruct v as [| c r]; [discriminate |].
    destruct (strconv.ParseUint _) as [un [[] |]];
      cbv zeta; cbn [fst snd]; try discriminate;
      destruct (Ascii.eqb c "-"); cbn [negb andb];
      repeat match goal with
             | |- context [if ?b then _ else _] => destruct b; cbn [fst snd]
             end; try discriminate; reflexivity.
Qed.

Section Acceptance.
Context {PG : Database} {SS : SliceSort}.

Lemma executeMigration_accepted (m : Migration) (db : DB) :
  columns db = Some (true, true) ->
  accepted m -> (forall s, commit_ok s = true) ->
  exists db1 evs1, executeMigration m db = (None, db1, evs1).
Proof.
  intros Hc [Hexec Hins] Hcommit. unfold executeMigration.
  destruct (columns_table _ _ _ Hc) as (t & -> & Hm & Hf).
  destruct (0 <? count_version (Version m) (rows t))%nat eqn:Ec; [eauto |].
  unfold insert_entry. rewrite Ec, Hm, Hf, Hins. cbn [andb].
  destruct (blank (UpSQL m)) eqn:Eb.
  - rewrite Hcommit. eauto.
  - specialize (Hexec (schema db) eq_refl).
    destruct (exec_sql (UpSQL m) (schema db)); [| contradiction].
    rewrite Hcommit. eauto.
Qed.

Lemma execute_pending_accepted (ms : list Migration) :
  forall db,
    columns db = Some (true, true) ->
    (forall m, In m ms -> accepted m) -> (forall s, commit_ok s = true) ->
    exists db' evs, execute_pending ms db = (None, db', evs).
Proof.
  induction ms as [| m ms IH]; intros db Hc Hacc Hcommit; simpl;
    [eauto |].
  destruct (executeMigration_accepted m db Hc
              (Hacc m (or_introl eq_refl)) Hcommit) as (db1 & evs1 & E1).
  rewrite E1.
  destruct (executeMigration_columns _ _ _ _ _ E1) as [C1 _].
  rewrite <- C1 in Hc.
  destruct (IH db1 Hc (fun x Hx => Hacc x (or_intror Hx)) Hcommit)
    as (db' & evs & E2).
  rewrite E2. eauto.
Qed.

(** With the tracking table in place and a database that takes every
    migration, apply-all returns no error. *)
Lemma RunMigrations_accepted (faults : list bool) (fs : FileSystem)
      (ms : list Migration) (db : DB) (t0 : Table) :
  loadMigrationsFromFiles fs = inr ms ->
  (forall m, In m ms -> accepted m) ->
  (forall s, commit_ok s = true) ->
  createMigrationsTable faults (table db) = (None, Some t0) ->
  has_file_path t0 = true ->
  exists db' evs,
    RunMigrations faults fs db = (None, db', evs)
    /\ execute_pending (sort_Slice ms) (prepared faults db) = (None, db', evs)
    /\ ledger (prepared faults db) = Some (rows t0).
Proof.
  intros Hload Hacc Hcommit Hcreate Hf.
  assert (Ht0 : table (prepared faults db) = Some t0)
    by (unfold prepared; now rewrite Hcreate).
  assert (Hc : columns (prepared faults db) = Some (true, true)).
  { unfold columns. rewrite Ht0. cbn [option_map]. rewrite Hf.
    destruct (create_result _ _ _ _ Hcreate) as [R _].
    destruct (R eq_refl) as (t' & [= <-] & ->). reflexivity. }
  destruct (execute_pending_accepted (sort_Slice ms) _ Hc)
    as (db' & evs & E); [| exact Hcommit |].
  { intros m Hm. apply Hacc.
    eapply Permutation_in; [apply Permutation_sym, sort_Slice_perm | exact Hm]. }
  exists db', evs. unfold RunMigrations. rewrite Hcreate, Hload.
  split; [exact E |]. split; [exact E |]. now apply table_ledger.
Qed.

(** C6 (as amended): a version string that [strconv.Atoi] rejects is no
    error for apply-all.  The migration is sorted by the number returned
    along with the error (0 for a string that is not a number, the bound
    of [int64] on its side for a number out of range) and is run like any
    other: when the tracking table is in place with its columns and the
    database takes every migration of the corpus, apply-all succeeds,
    visits the whole sorted corpus and records every version, whether it
    parses or not. *)
Theorem unparsable_version_is_not_an_error
  (faults : list bool) (fs : FileSystem) (ms : list Migration) (db : DB)
  (t0 : Table) :
  loadMigrationsFromFiles fs = inr ms ->
  (forall m, In m ms -> accepted m) ->
  (forall s, commit_ok s = true) ->
  createMigrationsTable faults (table db) = (None, Some t0) ->
  has_file_path t0 = true ->
  (forall m, In m ms ->
     (snd (strconv.Atoi (Version m)) = Some strconv.ErrSyntax ->
      version_number m = 0%Z)
     /\ (snd (strconv.Atoi (Version m)) = Some strconv.ErrRange ->
         version_number m
         = if minus_sign (Version m) then (- 2 ^ 63)%Z else (2 ^ 63 - 1)%Z))
  /\ exists db' evs,
       RunMigrations faults fs db = (None, db', evs)
       /\ visited evs = sort_Slice ms
       /\ forall m, In m ms -> In (Version m) (applied db').
Proof.
  intros Hload Hacc Hcommit Hcreate Hf. split.
  - intros m _. split; [apply Atoi_syntax | apply Atoi_range].
  - destruct (RunMigrations_accepted _ _ _ _ _ Hload Hacc Hcommit Hcreate Hf)
      as (db' & evs & E & P & Hl0).
    exists db', evs. split; [exact E |].
    pose proof (execute_pending_run _ _ _ _ _ _ Hl0 P) as R.
    destruct (run_visited _ _ _ _ _ R) as (rest & Hvis & Hrest).
    rewrite (Hrest eq_refl), app_nil_r in Hvis. split; [now symmetry |].
    destruct (run_ledger _ _ _ _ _ R _ Hl0) as (added & Hl1 & Hall).
    intros m Hm. unfold applied; rewrite Hl1. apply Hall; [reflexivity |].
    eapply Permutation_in; [apply sort_Slice_perm | exact Hm].
Qed.

Lemma run_begun_distinct ms db res db' evs :
  run ms db res db' evs ->
  NoDup (map Version (begun evs))
  /\ forall m, In m (begun evs) -> ~ In (Version m) (applied db).
Proof.
  induction 1 as [db | m rest db err db' evs Hs
                  | m rest db db1 evs1 res db' evs2 Hs Hr [IHn IHa]].
  - split; [constructor | intros m []].
  - destruct (step_begun _ _ _ _ _ Hs) as [(-> & _) | (-> & _ & Hn & _)].
    + split; [constructor | intros x []].
    + split; [repeat constructor; intros [] |].
      intros x [<- | []]. exact Hn.
  - unfold begun in *. rewrite flat_map_app.
    fold (begun evs1) (begun evs2) in *.
    destruct (step_begun _ _ _ _ _ Hs)
      as [(-> & _ & _ & -> & _) | (-> & _ & Hn & _)]; simpl; [now split |].
    destruct (step_ok_inv _ _ _ _ Hs)
      as [[_ Hin] | (rows & Hl & Hnew & e & He & _ & Hl1)]; [contradiction |].
    assert (Ha1 : forall v, In v (applied db) \/ v = Version m ->
                            In v (applied db1)).
    { unfold applied. rewrite Hl, Hl1, map_app, <- He.
      intros v [Hv | ->]; apply in_app_iff; [now left | right; now left]. }
    split.
    + constructor; [| exact IHn].
      intros Hv. apply in_map_iff in Hv as (x & Ex & Hx).
      apply (IHa x Hx), Ha1. now right.
    + intros x [<- | Hx]; [exact Hn |].
      intros Hv. apply (IHa x Hx), Ha1. now left.
Qed.

(** The versions in the ledger after a run were there before it or are
    those of migrations of the run. *)
Lemma run_applied_from ms db res db' evs :
  run ms db res db' evs ->
  forall v, In v (applied db') -> In v (applied db) \/ In v (map Version ms).
Proof.
  induction 1 as [db | m rest db err db' evs Hs
                  | m rest db db1 evs1 res db' evs2 Hs Hr IH]; intros v Hv.
  - now left.
  - inversion Hs; subst. now left.
  - destruct (IH v Hv) as [H1 | H1]; [| right; now right].
    destruct (step_ok_inv _ _ _ _ Hs)
      as [[-> _] | (rows & Hl & _ & e & He & _ & Hl1)]; [now left |].
    unfold applied in H1 |- *. rewrite Hl1, map_app in H1. rewrite Hl.
    apply in_app_iff in H1 as [H1 | [<- | []]]; [now left |].
    right. left. now symmetry.
Qed.

(** A run that succeeds, cut at one of its migrations. *)
Lemma execute_pending_split (pre : list Migration) (m : Migration)
      (post : list Migration) :
  forall db db' evs,
    execute_pending (pre ++ m :: post) db = (None, db', evs) ->
    exists db1 evs1 db2 evs_m evs2,
      execute_pending pre db = (None, db1, evs1)
      /\ executeMigration m db1 = (None, db2, evs_m)
      /\ evs = evs1 ++ evs_m ++ evs2.
Proof.
  induction pre as [| x pre IH]; intros db db' evs; simpl.
  - destruct (executeMigration m db) as [[[err |] db2] evs_m] eqn:Em;
      [discriminate |].
    destruct (execute_pending post db2) as [[r d] evs2].
    intros [= -> <- <-]. exists db, [], db2, evs_m, evs2.
    split; [reflexivity |]. split; [exact Em | reflexivity].
  - destruct (executeMigration x db) as [[[err |] dbx] evsx]; [discriminate |].
    destruct (execute_pending (pre ++ m :: post) dbx) as [[r d] e] eqn:E.
    intros [= -> <- <-].
    destruct (IH _ _ _ E) as (db1 & evs1 & db2 & evs_m & evs2 & E1 & Em & ->).
    exists db1, (evsx ++ evs1), db2, evs_m, evs2. rewrite E1.
    split; [reflexivity |]. split; [exact Em | now rewrite app_assoc].
Qed.

(** What a run that succeeds does with each migration: it commits the
    migration when its version is not in the ledger and no earlier file of
    the sorted corpus carries it, and skips it otherwise. *)
Lemma run_fate (pre : list Migration) (m : Migration) (post : list Migration)
      (db db' : DB) (rows0 : list LedgerEntry) (evs : list event) :
  ledger db = Some rows0 ->
  execute_pending (pre ++ m :: post) db = (None, db', evs) ->
  (In (Version m) (applied db) \/ In (Version m) (map Version pre) ->
   In m (skipped evs))
  /\ (~ In (Version m) (applied db) -> ~ In (Version m) (map Version pre) ->
      In m (committed evs)).
Proof.
  intros Hl0 E.
  destruct (execute_pending_split _ _ _ _ _ _ E)
    as (db1 & evs1 & db2 & evs_m & evs2 & E1 & Em & ->).
  pose proof (execute_pending_run _ _ _ _ _ _ Hl0 E1) as R1.
  destruct (run_ledger _ _ _ _ _ R1 _ Hl0) as (added & Hl1 & Hall).
  pose proof (executeMigration_step _ _ _ Hl1 _ _ _ Em) as Hs.
  split.
  - intros Hin.
    assert (H1 : In (Version m) (applied db1)).
    { unfold applied. rewrite Hl1. destruct Hin as [Hin | Hin].
      - unfold applied in Hin. rewrite Hl0 in Hin.
        rewrite map_app. apply in_app_iff. now left.
      - apply in_map_iff in Hin as (x & Ex & Hx). rewrite <- Ex.
        now apply Hall. }
    rewrite (executeMigration_skip _ _ H1) in Em. injection Em as _ <-.
    unfold skipped. rewrite !flat_map_app. apply in_app_iff. right.
    apply in_app_iff. left. now left.
  - intros Hn1 Hn2.
    assert (H1 : ~ In (Version m) (applied db1)).
    { intros H. destruct (run_applied_from _ _ _ _ _ R1 _ H); contradiction. }
    destruct (step_begun _ _ _ _ _ Hs) as [(_ & _ & _ & _ & _ & H) | _];
      [contradiction |].
    assert (C : committed evs_m = [m]).
    { inversion Hs as [? ? Hin | ? ? ? ? ? ? _ _ _ _ _ H' |]; subst;
        [contradiction |].
      destruct H' as [-> | ->]; reflexivity. }
    unfold committed. rewrite !flat_map_app. fold (committed evs_m).
    rewrite C. apply in_app_iff. right. apply in_app_iff. left. now left.
Qed.

(** C9 (as amended): apply-all does not detect that two files carry the
    same version number and raises no error for it: with the tracking
    table in place and a database that takes every migration, it returns
    no error whatever the versions are.  In a run that succeeds, the
    colliding migration that comes first in the sorted corpus is committed
    (when its version is neither in the ledger nor carried by an earlier
    file); the other one is skipped as already executed when its version
    is the same text, and committed as well when the text differs (1 and
    001) and is new.  In every run, the migrations for which a transaction
    is opened have pairwise distinct version texts, none of them in the
    ledger before the run. *)
Theorem colliding_version_is_skipped
  (faults : list bool) (fs : FileSystem) (ms : list Migration) (db : DB)
  (res : option error) (db' : DB) (evs : list event) :
  loadMigrationsFromFiles fs = inr ms ->
  RunMigrations faults fs db = (res, db', evs) ->
  ((forall m, In m ms -> accepted m) ->
   (forall s, commit_ok s = true) ->
   (exists t0, createMigrationsTable faults (table db) = (None, Some t0)
               /\ has_file_path t0 = true) ->
   res = None)
  /\ NoDup (map Version (begun evs))
  /\ (forall m, In m (begun evs) -> ~ In (Version m) (applied db))
  /\ (res = None ->
      forall done m1 mid m2 rest,
        sort_Slice ms = done ++ m1 :: mid ++ m2 :: rest ->
        version_number m1 = version_number m2 ->
        ~ In (Version m1) (applied db) ->
        ~ In (Version m1) (map Version done) ->
        In m1 (committed evs)
        /\ (Version m2 = Version m1 -> In m2 (skipped evs))
        /\ (~ In (Version m2) (applied db) ->
            ~ In (Version m2) (map Version (done ++ m1 :: mid)) ->
            In m2 (committed evs))).
Proof.
  intros Hload Hrun. split.
  { intros Hacc Hcommit (t0 & Hcreate & Hf).
    destruct (RunMigrations_accepted _ _ _ _ _ Hload Hacc Hcommit Hcreate Hf)
      as (d & e & E & _). rewrite E in Hrun. now injection Hrun as <- _ _. }
  destruct (RunMigrations_cases _ _ _ _ _ _ Hrun)
    as [(e & _ & -> & _ & ->) | (t0 & _ & Ht0 & _ & R)].
  { split; [constructor |]. split; [intros m [] | discriminate]. }
  rewrite Hload in R. pose proof (table_ledger _ _ Ht0) as Hl0.
  pose proof (execute_pending_run _ _ _ _ _ _ Hl0 R) as R0.
  destruct (run_begun_distinct _ _ _ _ _ R0) as [Hn Ha].
  rewrite prepared_applied in Ha.
  split; [exact Hn |]. split; [exact Ha |].
  intros -> done m1 mid m2 rest Hsort _ Hnew1 Hnew2.
  rewrite Hsort in R.
  destruct (run_fate done m1 (mid ++ m2 :: rest) _ _ _ _ Hl0 R) as [_ C1].
  replace (done ++ m1 :: mid ++ m2 :: rest)
    with ((done ++ m1 :: mid) ++ m2 :: rest) in R
    by (rewrite <- app_assoc; reflexivity).
  destruct (run_fate (done ++ m1 :: mid) m2 rest _ _ _ _ Hl0 R) as [S2 C2].
  rewrite prepared_applied in C1, S2, C2.
  split; [now apply C1 |]. split; [| exact C2].
  intros Hv. apply S2. right. rewrite map_app. apply in_app_iff. right.
  left. now symmetry.
Qed.

End Acceptance.

Lemma named_scripts_accepted :
  forall m, In m (corpus_of named_scripts) -> accepted m.
Proof.
  intros m Hm. vm_compute in Hm.
  destruct Hm as [<- | [<- | []]];
    (split; [intros s _; vm_compute; discriminate | vm_compute; reflexivity]).
Defined.

Lemma unparsable_version_is_not_an_error_witness :
  loadMigrationsFromFiles named_scripts = inr (corpus_of named_scripts)
  /\ (forall m, In m (corpus_of named_scripts) -> accepted m)
  /\ (forall s, commit_ok s = true)
  /\ createMigrationsTable [] (table fresh_database) = (None, Some new_table)
  /\ has_file_path new_table = true
  /\ exists db' evs,
       RunMigrations [] named_scripts fresh_database = (None, db', evs)
       /\ visited evs = sort_Slice (corpus_of named_scripts)
       /\ forall m, In m (corpus_of named_scripts) ->
                    In (Version m) (applied db').
Proof.
  assert (L : loadMigrationsFromFiles named_scripts
              = inr (corpus_of named_scripts)) by (vm_compute; reflexivity).
  split; [exact L |]. split; [exact named_scripts_accepted |].
  split; [reflexivity |]. split; [reflexivity |]. split; [reflexivity |].
  exact (proj2 (unparsable_version_is_not_an_error [] named_scripts
                  (corpus_of named_scripts) fresh_database new_table L
                  named_scripts_accepted (fun _ => eq_refl)
                  eq_refl eq_refl)).
Defined.

(** The claim C6 fails on a corpus with the version [abc]: the conversion
    reports a syntax error, yet apply-all succeeds, runs the script of
    [abc] first (as number 0) and records it. *)
Lemma unparsable_version_is_executed :
  let out := RunMigrations [] named_scripts fresh_database in
  map Version (corpus_of named_scripts) = ["001"; "abc"]
  /\ strconv.Atoi "abc" = (0%Z, Some strconv.ErrSyntax)
  /\ fst (fst out) = None
  /\ map Version (executed (snd out)) = ["abc"; "001"]
  /\ applied (snd (fst out)) = ["abc"; "001"].
Proof. repeat split; vm_compute; reflexivity. Qed.

(** The sorted corpus of two files, the run over them from an empty
    database, and what the run did with the second file. *)
Definition pair_run (fs : FileSystem) : option error * DB * list event :=
  RunMigrations [] fs fresh_database.

Lemma colliding_version_is_skipped_witness :
  (exists m1 m2,
      sort_Slice (corpus_of colliding_scripts) = [] ++ m1 :: [] ++ m2 :: []
      /\ version_number m1 = version_number m2
      /\ Version m2 = Version m1
      /\ fst (fst (pair_run colliding_scripts)) = None
      /\ In m1 (committed (snd (pair_run colliding_scripts)))
      /\ In m2 (skipped (snd (pair_run colliding_scripts))))
  /\ (exists m1 m2,
        sort_Slice (corpus_of renumbered_scripts) = [] ++ m1 :: [] ++ m2 :: []
        /\ version_number m1 = version_number m2
        /\ Version m2 <> Version m1
        /\ fst (fst (pair_run renumbered_scripts)) = None
        /\ In m1 (committed (snd (pair_run renumbered_scripts)))
        /\ In m2 (committed (snd (pair_run renumbered_scripts)))).
Proof.
  split.
  - destruct (sort_Slice (corpus_of colliding_scripts)) as [| m1 [| m2 [| x l]]]
      eqn:S; try (vm_compute in S; discriminate S).
    assert (V1 : Version m1 = "001")
      by (vm_compute in S; injection S as <- _; reflexivity).
    assert (V2 : Version m2 = "001")
      by (vm_compute in S; injection S as _ <-; reflexivity).
    assert (N : version_number m1 = version_number m2)
      by (unfold version_number; rewrite V1, V2; reflexivity).
    assert (R : fst (fst (pair_run colliding_scripts)) = None)
      by (vm_compute; reflexivity).
    assert (L : loadMigrationsFromFiles colliding_scripts
                = inr (corpus_of colliding_scripts))
      by (vm_compute; reflexivity).
    destruct (colliding_version_is_skipped [] colliding_scripts
                (corpus_of colliding_scripts) fresh_database
                (fst (fst (pair_run colliding_scripts)))
                (snd (fst (pair_run colliding_scripts)))
                (snd (pair_run colliding_scripts)) L (triple_eta _))
      as (_ & _ & _ & K).
    destruct (K R [] m1 [] m2 [] S N (fun H => H) (fun H => H))
      as (C1 & S2 & _).
    exists m1, m2. split; [reflexivity |]. split; [exact N |].
    split; [rewrite V1, V2; reflexivity |]. split; [exact R |].
    split; [exact C1 |]. apply S2. rewrite V1, V2. reflexivity.
  - destruct (sort_Slice (corpus_of renumbered_scripts)) as [| m1 [| m2 [| x l]]]
      eqn:S; try (vm_compute in S; discriminate S).
    assert (V1 : Version m1 = "001")
      by (vm_compute in S; injection S as <- _; reflexivity).
    assert (V2 : Version m2 = "1")
      by (vm_compute in S; injection S as _ <-; reflexivity).
    assert (N : version_number m1 = version_number m2)
      by (unfold version_number; rewrite V1, V2; vm_compute; reflexivity).
    assert (R : fst (fst (pair_run renumbered_scripts)) = None)
      by (vm_compute; reflexivity).
    assert (L : loadMigrationsFromFiles renumbered_scripts
                = inr (corpus_of renumbered_scripts))
      by (vm_compute; reflexivity).
    destruct (colliding_version_is_skipped [] renumbered_scripts
                (corpus_of renumbered_scripts) fresh_database
                (fst (fst (pair_run renumbered_scripts)))
                (snd (fst (pair_run renumbered_scripts)))
                (snd (pair_run renumbered_scripts)) L (triple_eta _))
      as (_ & _ & _ & K).
    destruct (K R [] m1 [] m2 [] S N (fun H => H) (fun H => H))
      as (C1 & _ & C2).
    exists m1, m2. split; [reflexivity |]. split; [exact N |].
    split; [rewrite V1, V2; discriminate |]. split; [exact R |].
    split; [exact C1 |]. apply C2; [intros [] |].
    cbn [app map]. rewrite V1, V2. intros [H | []]. discriminate H.
Defined.

(** The claim C9 fails on these two files: apply-all returns no error,
    runs the script of [sensor_data], skips the one of [user_management]
    and records the single version 001. *)
Lemma collision_is_not_refused :
  let out := RunMigrations [] colliding_scripts fresh_database in
  map (fun m => (Module_ m, Version m)) (corpus_of colliding_scripts)
  = [("sensor_data", "001"); ("user_management", "001")]
  /\ map version_number (corpus_of colliding_scripts) = [1%Z; 1%Z]
  /\ fst (fst out) = None
  /\ map Module_ (executed (snd out)) = ["sensor_data"]
  /\ map Module_ (skipped (snd out)) = ["user_management"]
  /\ applied (snd (fst out)) = ["001"].
Proof. repeat split; vm_compute; reflexivity. Qed.

(** ** Rollback *)

Lemma ledger_entry_eq_dec (a b : LedgerEntry) : {a = b} + {a <> b}.
Proof.
  decide equality; try apply Z.eq_dec;
    try (decide equality; apply string_dec); apply string_dec.
Qed.

Section RollbackFacts.
Context {PG : Database}.

(** When the query of [Rollback] returns a row. *)
Lemma last_migration_some (db : DB) (v d mname path : string) :
  last_migration latest (table db) = inr (Some (v, d, mname, path)) ->
  exists t e,
    table db = Some t /\ columns db = Some (true, true)
    /\ latest (rows t) = Some e
    /\ version e = v /\ module e = Some mname /\ file_path e = Some path.
Proof.
  unfold last_migration, columns.
  destruct (table db) as [t |]; [| discriminate]. cbn [option_map].
  destruct (has_module t) eqn:Hm; [| discriminate].
  destruct (has_file_path t) eqn:Hf; [| discriminate]. cbn [andb].
  destruct (latest (rows t)) as [e |] eqn:He; [| discriminate].
  destruct (module e) as [m0 |] eqn:Em; [| discriminate].
  destruct (file_path e) as [p0 |] eqn:Ep; [| discriminate].
  intros [= <- <- <- <-]. exists t, e. repeat split; assumption.
Qed.

Lemma last_migration_none (db : DB) :
  last_migration latest (table db) = inr None -> ledger db = Some [].
Proof.
  unfold last_migration, ledger.
  destruct (table db) as [t |]; [| discriminate]. cbn [option_map].
  destruct (has_module t && has_file_path t); [| discriminate].
  destruct (latest (rows t)) as [e |] eqn:He.
  - destruct (module e); [| discriminate].
    destruct (file_path e); discriminate.
  - intros _. now rewrite (latest_none _ He).
Qed.

Lemma last_migration_reads (db : DB) (rows0 : list LedgerEntry)
      (e : LedgerEntry) (path : string) :
  ledger db = Some rows0 -> latest rows0 = Some e -> readable db e path ->
  exists mname,
    module e = Some mname
    /\ last_migration latest (table db)
       = inr (Some (version e, description e, mname, path)).
Proof.
  intros Hl He (Hc & Hm & Hp).
  destruct (columns_table _ _ _ Hc) as (t & Ht & Cm & Cf).
  unfold ledger in Hl. rewrite Ht in Hl. injection Hl as <-.
  destruct (module e) as [mname |] eqn:Em; [| now contradiction Hm].
  exists mname. split; [reflexivity |].
  unfold last_migration. now rewrite Ht, Cm, Cf, He, Em, Hp.
Qed.

(** A rollback that fails leaves the tracking table and the schemas as
    they were. *)
Lemma Rollback_failure (fs : FileSystem) (db db' : DB) (err : error) :
  Rollback fs db = (Some err, db') ->
  table db' = table db /\ ledger db' = ledger db /\ schema db' = schema db.
Proof.
  unfold Rollback.
  destruct (last_migration latest (table db)) as [e | [[[[v d] mname] path] |]];
    [now intros [= <- <-] | | discriminate].
  destruct (parseMigrationFile fs path) as [perr | m];
    [now intros [= <- <-] |].
  destruct (if blank (DownSQL m) then Some (schema db)
            else exec_sql (DownSQL m) (schema db)) as [schema' |];
    [destruct (commit_ok schema'); [discriminate |] |];
    intros [= <- <-]; repeat split.
Qed.

(** A rollback that succeeds: either the table is empty and nothing
    happens, or the row returned as latest is read, the reverse script of
    the file at its path runs and the rows with its version are deleted. *)
Lemma Rollback_success (fs : FileSystem) (db db' : DB) :
  Rollback fs db = (None, db') ->
  (ledger db = Some [] /\ db' = db)
  \/ exists t e path m,
       table db = Some t /\ columns db = Some (true, true)
       /\ latest (rows t) = Some e
       /\ module e <> None /\ file_path e = Some path
       /\ parseMigrationFile fs path = inr m
       /\ down_script m (schema db) = Some (schema db')
       /\ table db' = with_rows (delete_version (version e)) (table db)
       /\ ledger db' = Some (delete_version (version e) (rows t))
       /\ now db' = (now db + 1)%Z.
Proof.
  unfold Rollback.
  destruct (last_migration latest (table db))
    as [e | [[[[v d] mname] path] |]] eqn:Q; [discriminate | |].
  - destruct (last_migration_some _ _ _ _ _ Q)
      as (t & e & Ht & Hc & He & <- & Hm & Hp).
    destruct (parseMigrationFile fs path) as [perr | m] eqn:P; [discriminate |].
    fold (down_script m (schema db)).
    destruct (down_script m (schema db)) as [schema' |] eqn:D;
      [| discriminate].
    destruct (commit_ok schema'); [| discriminate].
    intros [= <-]. right. exists t, e, path, m. cbn [table schema now].
    split; [exact Ht |]. split; [exact Hc |]. split; [exact He |].
    split; [now rewrite Hm |]. split; [exact Hp |]. split; [exact P |].
    split; [exact D |]. split; [reflexivity |].
    split; [| reflexivity]. unfold ledger. cbn [table]. now rewrite Ht.
  - intros [= <-]. left. split; [now apply last_migration_none | reflexivity].
Qed.

(** C4: when the DOWN script of the migration to roll back fails, the
    transaction is rolled back and [Rollback] returns the error: the
    ledger still holds every row it held, the row of that migration
    included, and the schemas are unchanged.  (The row is one that the
    query of [Rollback] can read: the table has its columns and the row
    its module and path.) *)
Theorem failed_down_script_keeps_ledger
  (fs : FileSystem) (db : DB) (rows : list LedgerEntry)
  (last_row : LedgerEntry) (path : string) (m : Migration) :
  ledger db = Some rows ->
  latest rows = Some last_row ->
  readable db last_row path ->
  parseMigrationFile fs path = inr m ->
  blank (DownSQL m) = false ->
  exec_sql (DownSQL m) (schema db) = None ->
  exists db',
    Rollback fs db
    = (Some (wrapError "failed to execute rollback SQL" driver_error), db')
    /\ ledger db' = Some rows
    /\ In last_row rows
    /\ schema db' = schema db
    /\ table db' = table db.
Proof.
  intros Hl Hlast Hread Hparse Hblank Hexec.
  destruct (last_migration_reads _ _ _ _ Hl Hlast Hread) as (mname & _ & Q).
  unfold Rollback. rewrite Q, Hparse, Hblank, Hexec.
  eexists; split; [reflexivity |].
  split; [exact Hl |]. split; [now apply latest_greatest in Hlast |].
  split; reflexivity.
Qed.

Lemma delete_version_other (v : string) (rows : list LedgerEntry) (e : LedgerEntry) :
  In e rows -> version e <> v -> In e (delete_version v rows).
Proof.
  intros Hin Hne. unfold delete_version. apply filter_In. split; [exact Hin |].
  apply negb_true_iff, String.eqb_neq, Hne.
Qed.

Lemma delete_version_gone (v : string) (rows : list LedgerEntry) :
  ~ In v (map version (delete_version v rows)).
Proof.
  intros H. apply in_map_iff in H as (e & <- & He).
  unfold delete_version in He. apply filter_In in He as [_ He].
  apply negb_true_iff, String.eqb_neq in He. now apply He.
Qed.

(** What a successful rollback does, for the row [e] that the database
    returns as latest. *)
Lemma Rollback_target (fs : FileSystem) (db db' : DB)
      (rows : list LedgerEntry) (e : LedgerEntry) :
  ledger db = Some rows -> latest rows = Some e ->
  Rollback fs db = (None, db') ->
  ledger db' = Some (delete_version (version e) rows)
  /\ exists path m,
       file_path e = Some path /\ parseMigrationFile fs path = inr m
       /\ down_script m (schema db) = Some (schema db').
Proof.
  intros Hl He Hroll.
  destruct (Rollback_success _ _ _ Hroll)
    as [[Hl0 _] | (t & e0 & path & m & Ht & _ & He0 & _ & Hp & P & D & _ & L & _)].
  - rewrite Hl in Hl0. injection Hl0 as ->.
    now apply latest_greatest in He as [[] _].
  - unfold ledger in Hl. rewrite Ht in Hl. injection Hl as <-.
    rewrite He in He0. injection He0 as <-.
    split; [exact L |]. now exists path, m.
Qed.

Lemma delete_version_last (v : string) (rows : list LedgerEntry) (e : LedgerEntry) :
  ~ In v (map version rows) -> version e = v ->
  delete_version v (rows ++ [e]) = rows.
Proof.
  intros Hn He. unfold delete_version. rewrite filter_app; simpl.
  rewrite He, String.eqb_refl; simpl. rewrite app_nil_r.
  induction rows as [| r rows IH]; simpl; [reflexivity |].
  destruct (version r =? v)%string eqn:E.
  - apply String.eqb_eq in E. exfalso. apply Hn. now left.
  - simpl. f_equal. apply IH. intros H. apply Hn. now right.
Qed.

Lemma latest_strict (rows : list LedgerEntry) (e lo : LedgerEntry) :
  latest rows = Some e -> In lo rows ->
  (forall e', In e' rows -> e' <> lo -> (executed_at e' < executed_at lo)%Z) ->
  e = lo.
Proof.
  intros He Hlo Hlate. destruct (latest_greatest _ _ He) as [Hin Hmax].
  destruct (ledger_entry_eq_dec e lo) as [E | E]; [exact E | exfalso].
  specialize (Hlate _ Hin E). specialize (Hmax _ Hlo). lia.
Qed.

(** C5: the only row [Rollback] ever removes is a row with the greatest
    [executed_at] of the ledger, and the only reverse script it runs is
    the one of the file at the path of that row; version numbers play no
    part.  A rollback that fails removes nothing and leaves the schemas
    as they were; one that succeeds removes the row that
    [ORDER BY executed_at DESC LIMIT 1] returns and leaves the schemas as
    the DOWN section of that row's file makes them.  So when a row with a
    lower version number has been written strictly later than all the
    others, a higher-numbered one among them, a successful rollback runs
    the reverse script of that lower-numbered row, removes it and keeps
    the higher-numbered one; and a rollback that follows the application
    of a migration, whatever its number, runs the reverse script of that
    migration's file and gives back the ledger as it was before the
    migration. *)
Theorem rollback_targets_latest_executed
  (fs : FileSystem) (db db' : DB) (res : option error)
  (rows : list LedgerEntry) :
  ledger db = Some rows ->
  Rollback fs db = (res, db') ->
  (res <> None -> ledger db' = Some rows /\ schema db' = schema db)
  /\ (res = None -> rows = [] -> db' = db)
  /\ (res = None -> rows <> [] ->
      exists e path m,
        latest rows = Some e /\ In e rows
        /\ (forall e', In e' rows -> (executed_at e' <= executed_at e)%Z)
        /\ ledger db' = Some (delete_version (version e) rows)
        /\ file_path e = Some path
        /\ parseMigrationFile fs path = inr m
        /\ down_script m (schema db) = Some (schema db'))
  /\ (res = None ->
      forall lo hi,
        In lo rows -> In hi rows ->
        (fst (strconv.Atoi (version lo)) < fst (strconv.Atoi (version hi)))%Z ->
        (forall e', In e' rows -> e' <> lo ->
                    (executed_at e' < executed_at lo)%Z) ->
        ledger db' = Some (delete_version (version lo) rows)
        /\ ~ In (version lo) (applied db')
        /\ In hi (delete_version (version lo) rows)
        /\ exists path m,
             file_path lo = Some path
             /\ parseMigrationFile fs path = inr m
             /\ down_script m (schema db) = Some (schema db'))
  /\ (res = None ->
      forall m db0 rows0 evs0,
        ledger db0 = Some rows0 ->
        (forall e, In e rows0 -> (executed_at e < now db0)%Z) ->
        ~ In (Version m) (map version rows0) ->
        executeMigration m db0 = (None, db, evs0) ->
        ledger db' = Some rows0
        /\ exists mf,
             parseMigrationFile fs (FilePath m) = inr mf
             /\ down_script mf (schema db) = Some (schema db')).
Proof.
  intros Hl Hroll.
  split.
  { destruct res as [err |]; [intros _ | congruence].
    destruct (Rollback_failure _ _ _ _ Hroll) as (_ & -> & ->).
    now split. }
  assert (Hsel : res = None -> rows <> [] ->
            exists e path m,
              latest rows = Some e /\ In e rows
              /\ (forall e', In e' rows -> (executed_at e' <= executed_at e)%Z)
              /\ ledger db' = Some (delete_version (version e) rows)
              /\ file_path e = Some path
              /\ parseMigrationFile fs path = inr m
              /\ down_script m (schema db) = Some (schema db')).
  { intros -> Hne. destruct (latest rows) as [e |] eqn:He.
    - destruct (latest_greatest _ _ He) as [Hin Hmax].
      destruct (Rollback_target _ _ _ _ _ Hl He Hroll)
        as (L & path & m & Hp & P & D).
      exists e, path, m. repeat split; auto.
    - now apply latest_none in He. }
  split; [| split; [exact Hsel | split]].
  - intros -> ->.
    destruct (Rollback_success _ _ _ Hroll)
      as [[_ E] | (t & e & _ & _ & Ht & _ & He & _)]; [exact E |].
    unfold ledger in Hl. rewrite Ht in Hl. injection Hl as Hr.
    rewrite Hr in He. now apply latest_greatest in He as [[] _].
  - intros Hres lo hi Hlo Hhi Hnum Hlate.
    destruct (Hsel Hres) as (e & path & m & He & Hin & Hmax & Hl' & Hp & P & D).
    { intros ->. destruct Hlo. }
    apply (latest_strict _ _ _ He Hlo) in Hlate. subst e.
    split; [exact Hl' |]. split; [| split].
    + unfold applied; rewrite Hl'. apply delete_version_gone.
    + apply delete_version_other; [exact Hhi |].
      intros E. rewrite E in Hnum. lia.
    + now exists path, m.
  - intros Hres m db0 rows0 evs0 Hl0 Hclock Hnew Hexec.
    pose proof (executeMigration_step _ _ _ Hl0 _ _ _ Hexec) as Hs.
    inversion Hs as [? ? Hin | ? ? rows1 e ? ? Hl1 _ Ee Hldb Ht _ |]; subst.
    { unfold applied in Hin. rewrite Hl0 in Hin. contradiction. }
    rewrite Hl0 in Hl1; injection Hl1 as <-.
    rewrite Hl in Hldb; injection Hldb as ->.
    destruct (Hsel eq_refl) as (e1 & path & mf & He1 & _ & _ & Hl' & Hp & P & D).
    { now destruct rows0. }
    assert (e1 = mkRow (Version m) (Description m) (Some (Module_ m))
                       (Some (FilePath m)) (now db0)) as ->.
    { apply (latest_strict _ _ _ He1); [apply in_app_iff; right; now left |].
      intros e' He' Hne. apply in_app_iff in He' as [He' | [<- | []]].
      - cbn [executed_at]. now apply Hclock.
      - now elim Hne. }
    cbn [file_path] in Hp. injection Hp as <-.
    split; [| now exists mf].
    rewrite Hl'. f_equal. apply delete_version_last; [| reflexivity].
    exact Hnew.
Qed.

End RollbackFacts.

Lemma Some_eq {A} (x y : A) : Some x = Some y -> y = x.
Proof. now intros [= ->]. Qed.

Lemma users_row_readable :
  readable users_applied (users_row 0)
           "database/migrations/user_management/001_create_users.sql".
Proof. repeat split. discriminate. Defined.

Lemma failed_down_script_keeps_ledger_witness :
  exists m db',
    ledger users_applied = Some [users_row 0]
    /\ latest [users_row 0] = Some (users_row 0)
    /\ readable users_applied (users_row 0)
                "database/migrations/user_management/001_create_users.sql"
    /\ parseMigrationFile broken_down_scripts
         "database/migrations/user_management/001_create_users.sql" = inr m
    /\ blank (DownSQL m) = false
    /\ exec_sql (DownSQL m) (schema users_applied) = None
    /\ Rollback broken_down_scripts users_applied
       = (Some (wrapError "failed to execute rollback SQL" driver_error), db')
    /\ ledger db' = Some [users_row 0]
    /\ schema db' = schema users_applied.
Proof.
  destruct (parseMigrationFile broken_down_scripts
              "database/migrations/user_management/001_create_users.sql")
    as [err | m] eqn:P; [vm_compute in P; discriminate P |].
  assert (B : blank (DownSQL m) = false).
  { vm_compute in P. injection P as <-. vm_compute; reflexivity. }
  assert (X : exec_sql (DownSQL m) (schema users_applied) = None).
  { vm_compute in P. injection P as <-. vm_compute; reflexivity. }
  destruct (failed_down_script_keeps_ledger broken_down_scripts users_applied
              [users_row 0] (users_row 0) _ m eq_refl eq_refl
              users_row_readable P B X)
    as (db' & R & L & _ & S & _).
  exists m, db'. split; [reflexivity |]. split; [reflexivity |].
  split; [exact users_row_readable |]. split; [reflexivity |].
  split; [exact B |]. split; [exact X |]. split; [exact R |].
  split; [exact L | exact S].
Defined.

Lemma rollback_targets_latest_executed_witness :
  let out := Rollback three_scripts out_of_band in
  ledger out_of_band = Some [sensors_row 10; users_row 20]
  /\ fst out = None
  /\ (fst (strconv.Atoi (version (users_row 20)))
      < fst (strconv.Atoi (version (sensors_row 10))))%Z
  /\ (forall e', In e' [sensors_row 10; users_row 20] -> e' <> users_row 20 ->
                 (executed_at e' < executed_at (users_row 20))%Z)
  /\ ledger (snd out) = Some [sensors_row 10]
  /\ ~ In "001" (applied (snd out))
  /\ schema (snd out) = (schema out_of_band ++ ["DROP TABLE users;"])%list.
Proof.
  assert (T : forall e', In e' [sensors_row 10; users_row 20] ->
                         e' <> users_row 20 ->
                         (executed_at e' < executed_at (users_row 20))%Z).
  { intros e' [<- | [<- | []]] H; [reflexivity | now elim H]. }
  assert (N : (fst (strconv.Atoi (version (users_row 20)))
               < fst (strconv.Atoi (version (sensors_row 10))))%Z)
    by (vm_compute; reflexivity).
  assert (R : Rollback three_scripts out_of_band
              = (None, snd (Rollback three_scripts out_of_band)))
    by (vm_compute; reflexivity).
  destruct (rollback_targets_latest_executed three_scripts out_of_band _ _
              [sensors_row 10; users_row 20] eq_refl R) as (_ & _ & _ & K & _).
  destruct (K eq_refl (users_row 20) (sensors_row 10)
              (or_intror (or_introl eq_refl)) (or_introl eq_refl) N T)
    as (E & G & _ & path & m & Hp & P & D).
  split; [reflexivity |]. split; [vm_compute; reflexivity |].
  split; [exact N |]. split; [exact T |].
  split; [rewrite E; vm_compute; reflexivity |]. split; [exact G |].
  vm_compute in Hp. injection Hp as <-. vm_compute in P. injection P as <-.
  match type of D with
  | ?script = _ =>
      assert (D' : script = Some (schema out_of_band ++ ["DROP TABLE users;"]))
        by (vm_compute; reflexivity)
  end.
  rewrite D' in D. exact (Some_eq _ _ D).
Defined.

(** * More of the manager

    The rest of this file follows the code beyond the ten properties
    above: what else the parser, the discovery, the runner and the rollback
    guarantee, then the creation of new migration files and the [reset]
    action of the command line. *)

(** ** Files without markers, and what a split keeps *)

Section SplitterMore.
Import strings Splitter.

Lemma Split_nonempty (s : string) (sep : ascii) : Split s sep <> [].
Proof.
  destruct s as [| c r]; simpl; [discriminate |].
  destruct (Ascii.eqb c sep); [discriminate |].
  destruct (Split r sep); discriminate.
Qed.

Lemma Join_Split (s : string) : Join (Split s LF) (String LF "") = s.
Proof.
  induction s as [| c r IH]; simpl; [reflexivity |].
  destruct (Ascii.eqb c LF) eqn:E.
  - apply Ascii.eqb_eq in E; subst c.
    pose proof (Split_nonempty r LF) as Hne.
    destruct (Split r LF) as [| p ps]; [contradiction |].
    simpl in *. now rewrite IH.
  - destruct (Split r LF) as [| p ps]; simpl in *.
    + now rewrite <- IH.
    + destruct ps; simpl in *; now rewrite <- IH.
Qed.

(** X1: a file none of whose lines is a marker is forward content as a
    whole: the forward section is the file, byte for byte, and the reverse
    section is empty. *)
Theorem unmarked_file_is_forward_only (content : string) :
  Forall plain (Split content LF) ->
  splitMigrationContent content = (content, "").
Proof.
  intros H. unfold splitMigrationContent.
  rewrite (scan_plain_lines _ _ H). simpl.
  unfold sections; simpl. now rewrite Join_Split.
Qed.

Definition unmarked_file : string :=
  text ["CREATE TABLE t (id INT);"; "  -- keeps the ids"; "";
        "CREATE INDEX t_id ON t (id);"].

Lemma unmarked_file_is_forward_only_witness :
  Forall plain (Split unmarked_file LF)
  /\ splitMigrationContent unmarked_file = (unmarked_file, "").
Proof.
  assert (P : Forall plain (Split unmarked_file LF)).
  { replace (Split unmarked_file LF)
      with ["CREATE TABLE t (id INT);"; "  -- keeps the ids"; "";
            "CREATE INDEX t_id ON t (id);"] by (vm_compute; reflexivity).
    repeat (constructor; [vm_compute; reflexivity |]). constructor. }
  split; [exact P |].
  exact (unmarked_file_is_forward_only unmarked_file P).
Defined.

Definition kept (lines : list string) : list string :=
  filter (fun line => negb (is_marker line)) lines.

Lemma scan_lines_partition (lines : list string) :
  forall st,
    Permutation (upLines (scan_lines st lines) ++ downLines (scan_lines st lines))
                ((upLines st ++ downLines st) ++ kept lines)
    /\ (Forall plain (upLines st) -> Forall plain (upLines (scan_lines st lines)))
    /\ (Forall plain (downLines st) ->
        Forall plain (downLines (scan_lines st lines))).
Proof.
  induction lines as [| line lines IH]; intros st.
  - simpl. rewrite app_nil_r. auto.
  - rewrite scan_lines_cons. destruct (IH (scan_line st line)) as (P & U & D).
    destruct (is_marker line) eqn:M.
    + rewrite (scan_line_marker _ _ M) in *.
      unfold kept; simpl; rewrite M; simpl. auto.
    + assert (Hp : plain line) by exact M.
      rewrite (scan_line_plain _ _ Hp) in *.
      unfold kept; simpl; rewrite M; simpl. fold (kept lines).
      unfold keep_line in *. destruct (inDownSection st); simpl in *.
      * split; [| split].
        -- eapply Permutation_trans; [exact P |].
           rewrite <- !app_assoc. do 2 apply Permutation_app_head.
           reflexivity.
        -- exact U.
        -- intros Hd. apply D, Forall_app. split; [exact Hd | now constructor].
      * split; [| split].
        -- eapply Permutation_trans; [exact P |].
           rewrite <- !app_assoc. apply Permutation_app_head.
           simpl. apply Permutation_middle.
        -- intros Hu. apply U, Forall_app. split; [exact Hu | now constructor].
        -- exact D.
Qed.

(** X2: a split drops the marker lines and nothing else.  The lines of the
    two sections together are the lines of the file that are not markers,
    each as often as it occurs, and neither section holds a marker line. *)
Theorem split_keeps_every_plain_line (content : string) :
  exists ups downs,
    splitMigrationContent content = (text ups, text downs)
    /\ Permutation (ups ++ downs) (kept (Split content LF))
    /\ Forall plain ups /\ Forall plain downs.
Proof.
  destruct (scan_lines_partition (Split content LF) scan_start) as (P & U & D).
  exists (upLines (scan_lines scan_start (Split content LF))),
         (downLines (scan_lines scan_start (Split content LF))).
  split; [reflexivity |]. split; [exact P |].
  split; [apply U | apply D]; constructor.
Qed.

End SplitterMore.

(** ** File names and discovery *)

(** [strings.Contains(s, string(c))]. *)
Fixpoint has_byte (c : ascii) (s : string) : bool :=
  match s with
  | EmptyString => false
  | String d r => Ascii.eqb d c || has_byte c r
  end.

Definition is_sql (path : string) : bool := strings.HasSuffix path ".sql".

Lemma SplitN2_none (s : string) (sep : ascii) :
  has_byte sep s = false -> strings.SplitN2 s sep = None.
Proof.
  induction s as [| c r IH]; simpl; [reflexivity |].
  destruct (Ascii.eqb c sep); simpl; [discriminate |].
  intros H. now rewrite IH.
Qed.

Lemma SplitN2_some (s : string) (sep : ascii) :
  has_byte sep s = true ->
  exists a b, strings.SplitN2 s sep = Some (a, b)
    /\ s = (a ++ String sep b)%string /\ has_byte sep a = false.
Proof.
  induction s as [| c r IH]; simpl; [discriminate |].
  destruct (Ascii.eqb c sep) eqn:E; simpl.
  - apply Ascii.eqb_eq in E; subst c. intros _.
    exists EmptyString, r. auto.
  - intros H. destruct (IH H) as (a & b & -> & -> & Ha).
    exists (String c a), b. simpl. rewrite E. auto.
Qed.

Lemma ReplaceAll_removes (s : string) (old new : ascii) :
  old <> new -> has_byte old (strings.ReplaceAll s old new) = false.
Proof.
  intros Hne. induction s as [| c r IH]; simpl; [reflexivity |].
  rewrite IH, orb_false_r.
  destruct (Ascii.eqb c old) eqn:E.
  - apply Ascii.eqb_neq. congruence.
  - exact E.
Qed.

(** X3: the grammar of file names.  For a readable file, parsing fails if
    and only if the base name holds no underscore; otherwise the version is
    what precedes the first underscore (so it holds none), the description
    is the rest without its [.sql] suffix and with every underscore turned
    into a space, the path is recorded as given and the two sections are
    those of the content. *)
Theorem file_name_grammar (fs : FileSystem) (path content : string) :
  ReadFile fs path = Some content ->
  (has_byte "_" (filepath.Base path) = false ->
   parseMigrationFile fs path
   = inl (errorString ("invalid migration filename format: "
                         ++ filepath.Base path)%string))
  /\ (has_byte "_" (filepath.Base path) = true ->
      exists m rest,
        parseMigrationFile fs path = inr m
        /\ filepath.Base path = (Version m ++ "_" ++ rest)%string
        /\ has_byte "_" (Version m) = false
        /\ Description m
           = strings.ReplaceAll (strings.TrimSuffix rest ".sql") "_" " "
        /\ has_byte "_" (Description m) = false
        /\ FilePath m = path
        /\ (UpSQL m, DownSQL m) = Splitter.splitMigrationContent content).
Proof.
  intros Hread. unfold parseMigrationFile. rewrite Hread. split; intros H.
  - now rewrite (SplitN2_none _ _ H).
  - destruct (SplitN2_some _ _ H) as (a & b & -> & E & Ha).
    destruct (Splitter.splitMigrationContent content) as [up down].
    eexists; exists b. split; [reflexivity |]. simpl.
    repeat split; auto.
    apply ReplaceAll_removes. discriminate.
Qed.

Lemma file_name_grammar_witness :
  let fs := three_scripts in
  let path := "database/migrations/user_management/002_create_roles.sql" in
  exists content m,
    ReadFile fs path = Some content
    /\ has_byte "_" (filepath.Base path) = true
    /\ parseMigrationFile fs path = inr m
    /\ Version m = "002" /\ Description m = "create roles".
Proof.
  intros fs path.
  destruct (ReadFile fs path) as [content |] eqn:R;
    [| vm_compute in R; discriminate R].
  assert (U : has_byte "_" (filepath.Base path) = true)
    by (vm_compute; reflexivity).
  destruct (proj2 (file_name_grammar fs path content R) U)
    as (m & rest & P & _).
  exists content, m. split; [reflexivity |]. split; [exact U |].
  split; [exact P |].
  vm_compute in P. injection P as <-. split; reflexivity.
Defined.

Lemma parse_records_path (fs : FileSystem) (path : string) (m : Migration) :
  parseMigrationFile fs path = inr m -> FilePath m = path.
Proof.
  unfold parseMigrationFile.
  destruct (ReadFile fs path); [| discriminate].
  destruct (strings.SplitN2 _ _) as [[a b] |]; [| discriminate].
  destruct (Splitter.splitMigrationContent _). now intros [= <-].
Qed.

Lemma walk_files_sql_only (fs : FileSystem) (paths : list string) :
  forall acc, walk_files fs paths acc = walk_files fs (filter is_sql paths) acc.
Proof.
  induction paths as [| p paths IH]; intros acc; simpl; [reflexivity |].
  unfold is_sql at 1.
  destruct (strings.HasSuffix p ".sql") eqn:E; simpl; [| apply IH].
  rewrite E; simpl.
  destruct (parseMigrationFile fs p); [reflexivity | apply IH].
Qed.

Lemma walk_files_ok (fs : FileSystem) (paths : list string) :
  forall acc ms,
    walk_files fs paths acc = inr ms ->
    exists found,
      ms = acc ++ found
      /\ map FilePath found = filter is_sql paths
      /\ forall m, In m found -> parseMigrationFile fs (FilePath m) = inr m.
Proof.
  induction paths as [| p paths IH]; intros acc ms; simpl.
  - intros [= <-]. exists []. rewrite app_nil_r. repeat split. intros m [].
  - unfold is_sql at 1.
    destruct (strings.HasSuffix p ".sql") eqn:E; simpl; [| apply IH].
    destruct (parseMigrationFile fs p) as [err | m0] eqn:P; [discriminate |].
    intros H. destruct (IH _ _ H) as (found & -> & Hp & Hall).
    exists (m0 :: found). rewrite <- app_assoc. simpl.
    pose proof (parse_records_path _ _ _ P) as Hpath.
    repeat split; [now rewrite Hpath, Hp |].
    intros m [<- | Hm]; [now rewrite Hpath | now apply Hall].
Qed.

(** X4: discovery yields one migration for each visited path that ends in
    [.sql], in the order of the walk, and ignores every other file; each
    migration is what parsing the file at its recorded path gives. *)
Theorem discovery_follows_the_walk (fs : FileSystem) (ms : list Migration) :
  loadMigrationsFromFiles fs = inr ms ->
  map FilePath ms = filter is_sql (walk fs)
  /\ forall m, In m ms -> parseMigrationFile fs (FilePath m) = inr m.
Proof.
  intros H. destruct (walk_files_ok _ _ _ _ H) as (found & -> & Hp & Hall).
  simpl. auto.
Qed.

Definition mixed_directory : FileSystem :=
  files_of
    [("database/migrations/README.md", "How to write a migration.");
     ("database/migrations/sensor_data/003_create_sensors.sql",
      script "CREATE TABLE sensors (id INT);" "DROP TABLE sensors;");
     ("database/migrations/sensor_data/notes.txt", "-- UP");
     ("database/migrations/user_management/001_create_users.sql",
      script "CREATE TABLE users (id INT);" "DROP TABLE users;")].

Lemma discovery_follows_the_walk_witness :
  loadMigrationsFromFiles mixed_directory = inr (corpus_of mixed_directory)
  /\ map FilePath (corpus_of mixed_directory)
     = ["database/migrations/sensor_data/003_create_sensors.sql";
        "database/migrations/user_management/001_create_users.sql"].
Proof.
  assert (L : loadMigrationsFromFiles mixed_directory
              = inr (corpus_of mixed_directory)) by (vm_compute; reflexivity).
  split; [exact L |].
  rewrite (proj1 (discovery_follows_the_walk _ _ L)).
  vm_compute; reflexivity.
Defined.

Lemma walk_files_fails (fs : FileSystem) (good : list string) :
  forall acc bad rest err,
    (forall p, In p good -> exists m, parseMigrationFile fs p = inr m) ->
    Forall (fun p => is_sql p = true) (good ++ [bad]) ->
    parseMigrationFile fs bad = inl err ->
    walk_files fs (good ++ bad :: rest) acc
    = inl (wrapError "failed to walk migration directory"
             (wrapError ("failed to parse migration file " ++ bad)%string err)).
Proof.
  induction good as [| p good IH]; intros acc bad rest err Hgood Hsql Hbad;
    simpl in *.
  - apply Forall_inv in Hsql. unfold is_sql in Hsql.
    now rewrite Hsql, Hbad.
  - inversion Hsql as [| ? ? Hp Hrest]; subst. unfold is_sql in Hp.
    rewrite Hp; simpl.
    destruct (Hgood p (or_introl eq_refl)) as [m ->].
    apply IH; auto.
Qed.


Section DiscoveryFailure.
Context {PG : Database} {SS : SliceSort}.

(** X5: one [.sql] file that cannot be parsed blocks every migration.
    When the walk meets such a file after files that parse, apply-all
    reaches no migration and sends no script: it leaves the database as
    the call of [createMigrationsTable] left it and returns the error of
    that call if it failed, and otherwise the error that names the file,
    whatever other files the directory holds. *)
Theorem unparsable_file_blocks_the_run
  (faults : list bool) (fs : FileSystem) (db : DB) (good rest : list string)
  (bad : string) (err : error) :
  filter is_sql (walk fs) = good ++ bad :: rest ->
  (forall p, In p good -> exists m, parseMigrationFile fs p = inr m) ->
  parseMigrationFile fs bad = inl err ->
  let '(res, db', evs) := RunMigrations faults fs db in
  evs = [] /\ db' = prepared faults db /\ schema db' = schema db
  /\ res = Some
             match fst (createMigrationsTable faults (table db)) with
             | Some e => wrapError "failed to create migrations table" e
             | None =>
                 wrapError "failed to load migrations"
                   (wrapError "failed to walk migration directory"
                      (wrapError ("failed to parse migration file " ++ bad)%string
                         err))
             end.
Proof.
  intros Hwalk Hgood Hbad.
  assert (Hload : loadMigrationsFromFiles fs
                  = inl (wrapError "failed to walk migration directory"
                           (wrapError ("failed to parse migration file " ++ bad)%string
                              err))).
  { unfold loadMigrationsFromFiles. rewrite walk_files_sql_only, Hwalk.
    rewrite (walk_files_fails fs good [] bad rest err Hgood); auto.
    assert (F : Forall (fun p => is_sql p = true) (filter is_sql (walk fs))).
    { apply Forall_forall. intros p Hp. now apply filter_In in Hp. }
    rewrite Hwalk in F.
    replace (good ++ bad :: rest) with ((good ++ [bad]) ++ rest) in F
      by (now rewrite <- app_assoc).
    now apply Forall_app in F. }
  unfold RunMigrations. rewrite Hload.
  destruct (createMigrationsTable faults (table db)) as [[e |] tb'];
    cbn [fst]; repeat split.
Qed.

End DiscoveryFailure.

Definition misnamed_directory : FileSystem :=
  files_of
    [("database/migrations/sensor_data/003_create_sensors.sql",
      script "CREATE TABLE sensors (id INT);" "DROP TABLE sensors;");
     ("database/migrations/user_management/001-create-users.sql",
      script "CREATE TABLE users (id INT);" "DROP TABLE users;");
     ("database/migrations/user_management/002_create_roles.sql",
      script "CREATE TABLE roles (id INT);" "DROP TABLE roles;")].

Lemma unparsable_file_blocks_the_run_witness :
  let bad := "database/migrations/user_management/001-create-users.sql" in
  filter is_sql (walk misnamed_directory)
  = ["database/migrations/sensor_data/003_create_sensors.sql"]
      ++ bad :: ["database/migrations/user_management/002_create_roles.sql"]
  /\ parseMigrationFile misnamed_directory bad
     = inl (errorString
              "invalid migration filename format: 001-create-users.sql")
  /\ snd (RunMigrations [] misnamed_directory fresh_database) = []
  /\ fst (fst (RunMigrations [] misnamed_directory fresh_database))
     = Some (wrapError "failed to load migrations"
               (wrapError "failed to walk migration directory"
                  (wrapError ("failed to parse migration file " ++ bad)%string
                     (errorString
                        "invalid migration filename format: 001-create-users.sql")))).
Proof.
  intros bad.
  assert (W : filter is_sql (walk misnamed_directory)
              = ["database/migrations/sensor_data/003_create_sensors.sql"]
                  ++ bad
                  :: ["database/migrations/user_management/002_create_roles.sql"])
    by (vm_compute; reflexivity).
  assert (B : parseMigrationFile misnamed_directory bad
              = inl (errorString
                       "invalid migration filename format: 001-create-users.sql"))
    by (vm_compute; reflexivity).
  split; [exact W |]. split; [exact B |].
  assert (G : forall p,
             In p ["database/migrations/sensor_data/003_create_sensors.sql"] ->
             exists m, parseMigrationFile misnamed_directory p = inr m).
  { intros p [<- | []]. eexists. vm_compute. reflexivity. }
  pose proof (unparsable_file_blocks_the_run [] misnamed_directory
                fresh_database _ _ _ _ W G B) as K.
  rewrite (triple_eta (RunMigrations [] misnamed_directory fresh_database)) in K.
  destruct K as (E & _ & _ & R). split; [exact E | exact R].
Defined.

(** ** What a run of apply-all leaves behind *)

Section RunMore.
Context {PG : Database} {SS : SliceSort}.

(** The forward script of a migration as the transaction runs it: a blank
    one is not sent. *)
Definition up_script (m : Migration) (s : Schema) : option Schema :=
  if blank (UpSQL m) then Some s else exec_sql (UpSQL m) s.

Fixpoint run_scripts (ms : list Migration) (s : Schema) : option Schema :=
  match ms with
  | [] => Some s
  | m :: rest =>
      match up_script m s with
      | Some s' => run_scripts rest s'
      | None => None
      end
  end.

(** Every row of the ledger was written before the present time. *)
Definition clock_ahead (db : DB) : Prop :=
  forall rows e, ledger db = Some rows -> In e rows ->
                 (executed_at e < now db)%Z.

Lemma step_committed (m : Migration) (db db' : DB) res evs :
  step m db res db' evs ->
  (committed evs = [] /\ skipped evs ++ begun evs = [m]
   /\ ledger db' = ledger db /\ (now db <= now db' <= now db + 1)%Z
   /\ (res = None -> skipped evs = [m]))
  \/ (committed evs = [m] /\ skipped evs = [] /\ res = None
      /\ exists rows,
           ledger db = Some rows /\ ~ In (Version m) (map version rows)
           /\ ledger db' = Some (rows ++ [entry_of m (now db)])
           /\ now db' = (now db + 1)%Z).
Proof.
  destruct 1 as [m db Hin | m db rows e db' evs Hl Hn -> Hl' Hnow H
                 | m db err evs Hn H].
  - left. simpl. repeat split; auto; lia.
  - right. assert (C : committed evs = [m] /\ skipped evs = [])
      by (destruct H as [-> | ->]; now split).
    destruct C as [C1 C2]. repeat split; auto.
    exists rows. repeat split; auto.
  - left. simpl.
    assert (C : committed evs = [] /\ skipped evs ++ begun evs = [m])
      by (repeat (destruct H as [-> | H]); subst; now split).
    destruct C as [C1 C2]. repeat split; auto; try lia. discriminate.
Qed.

Lemma flat_map_committed_app (a b : list event) :
  committed (a ++ b) = committed a ++ committed b.
Proof. apply flat_map_app. Qed.

Lemma flat_map_skipped_app (a b : list event) :
  skipped (a ++ b) = skipped a ++ skipped b.
Proof. apply flat_map_app. Qed.

Lemma run_added ms db res db' evs :
  run ms db res db' evs ->
  forall rows, ledger db = Some rows ->
  exists added,
    ledger db' = Some (rows ++ added)
    /\ (now db <= now db')%Z
    /\ Forall2 (fun r m => exists t, r = entry_of m t
                                     /\ (now db <= t < now db')%Z)
               added (committed evs).
Proof.
  induction 1 as [db | m rest db err db' evs Hs
                  | m rest db db1 evs1 res db' evs2 Hs Hr IH]; intros rows Hl.
  - exists []. rewrite app_nil_r.
    split; [exact Hl |]. split; [lia | constructor].
  - destruct (step_committed _ _ _ _ _ Hs)
      as [(C & _ & L & N & _) | (_ & _ & E & _)]; [| discriminate].
    exists []. rewrite app_nil_r, C, L.
    split; [exact Hl |]. split; [lia | constructor].
  - rewrite flat_map_committed_app.
    destruct (step_committed _ _ _ _ _ Hs)
      as [(C & _ & L & N & _) | (C & _ & _ & rows1 & L0 & _ & L1 & N)].
    + rewrite Hl in L. destruct (IH _ L) as (added & La & Na & F).
      exists added. rewrite C. simpl.
      split; [exact La |]. split; [lia |].
      eapply Forall2_impl; [| exact F].
      intros r x (t & -> & Ht). exists t. split; [reflexivity | lia].
    + rewrite Hl in L0; injection L0 as <-.
      destruct (IH _ L1) as (added & La & Na & F).
      exists (entry_of m (now db) :: added). rewrite C.
      rewrite <- app_assoc in La. simpl in La |- *.
      split; [exact La |]. split; [lia |].
      constructor; [exists (now db); split; [reflexivity | lia] |].
      eapply Forall2_impl; [| exact F].
      intros r x (t & -> & Ht). exists t. split; [reflexivity | lia].
Qed.

Lemma prepared_clock (faults : list bool) (db : DB) :
  clock_ahead db -> clock_ahead (prepared faults db).
Proof.
  intros Hclock rows1 e Hl1 He. change (now (prepared faults db)) with (now db).
  pose proof (prepared_keys faults db) as K.
  destruct (ledger db) as [rows0 |] eqn:Hl0.
  - destruct K as (rows1' & Hl1' & K & _). rewrite Hl1 in Hl1'.
    injection Hl1' as <-. apply map_key_columns in K as [_ Kt].
    assert (Hin : In (executed_at e) (map executed_at rows0))
      by (rewrite <- Kt; now apply in_map).
    apply in_map_iff in Hin as (e0 & <- & He0). now apply (Hclock rows0).
  - destruct K as [K | K]; rewrite Hl1 in K; [discriminate |].
    injection K as ->. destruct He.
Qed.

(** X6: the ledger is append-only under apply-all.  Whatever the outcome,
    the rows present before the run are all still there, in place, with
    the version, description and time they had, and unchanged altogether
    when the table had the module column (otherwise the upgrade of the
    table may have set their module); the rows added are, in order, those
    of the migrations the run committed: each carries the version,
    description, module and path of its migration and a time stamp taken
    during the run.  Only when there was no table and it could not be
    created is there no ledger after the run. *)
Theorem ledger_grows_by_the_committed
  (faults : list bool) (fs : FileSystem) (db : DB) :
  let '(res, db', evs) := RunMigrations faults fs db in
  exists added,
    Forall2 (fun r m => exists t, r = entry_of m t
                                  /\ (now db <= t < now db')%Z)
            added (committed evs)
    /\ match ledger db, ledger db' with
       | Some rows0, Some rows' =>
           exists rows1,
             rows' = rows1 ++ added
             /\ map key rows1 = map key rows0
             /\ (forall t, table db = Some t -> has_module t = true ->
                           rows1 = rows0)
       | None, Some rows' => rows' = added
       | None, None => added = [] /\ res <> None
       | Some _, None => False
       end.
Proof.
  destruct (RunMigrations faults fs db) as [[res db'] evs] eqn:E.
  pose proof (prepared_keys faults db) as K.
  assert (Still : db' = prepared faults db -> evs = [] -> res <> None ->
            exists added,
              Forall2 (fun r m => exists t, r = entry_of m t
                                            /\ (now db <= t < now db')%Z)
                      added (committed evs)
              /\ match ledger db, ledger db' with
                 | Some rows0, Some rows' =>
                     exists rows1,
                       rows' = rows1 ++ added
                       /\ map key rows1 = map key rows0
                       /\ (forall t, table db = Some t -> has_module t = true ->
                                     rows1 = rows0)
                 | None, Some rows' => rows' = added
                 | None, None => added = [] /\ res <> None
                 | Some _, None => False
                 end).
  { intros -> -> Hres. exists []. split; [constructor |].
    destruct (ledger db) as [rows0 |].
    - destruct K as (rows1 & -> & K1 & K2). exists rows1.
      rewrite app_nil_r. now split.
    - destruct K as [-> | ->]; [now split | reflexivity]. }
  destruct (RunMigrations_cases _ _ _ _ _ _ E)
    as [(e & _ & -> & -> & ->) | (t0 & _ & Ht0 & _ & R)];
    [apply Still; [reflexivity | reflexivity | discriminate] |].
  destruct (loadMigrationsFromFiles fs) as [err | ms].
  { destruct R as (-> & -> & ->).
    apply Still; [reflexivity | reflexivity | discriminate]. }
  pose proof (table_ledger _ _ Ht0) as Hl0.
  destruct (run_added _ _ _ _ _ (execute_pending_run _ _ _ _ _ _ Hl0 R)
              _ Hl0) as (added & La & _ & F).
  exists added. split; [exact F |]. rewrite La.
  destruct (ledger db) as [rows0 |].
  - destruct K as (rows1 & Hl1 & K1 & K2). rewrite Hl0 in Hl1.
    injection Hl1 as <-. exists (rows t0). now split.
  - destruct K as [K | K]; rewrite Hl0 in K; [discriminate |].
    injection K as ->. reflexivity.
Qed.

Lemma executeMigration_schema (m : Migration) (db db' : DB) rows res evs :
  ledger db = Some rows ->
  executeMigration m db = (res, db', evs) ->
  (committed evs = [] /\ schema db' = schema db)
  \/ (committed evs = [m] /\ up_script m (schema db) = Some (schema db')).
Proof.
  intros Hl. unfold executeMigration, up_script.
  destruct (ledger_table _ _ Hl) as (t & -> & _).
  destruct (0 <? count_version (Version m) (Legacy.rows t))%nat;
    [intros [= <- <- <-]; now left |].
  destruct (blank (UpSQL m));
    [| destruct (exec_sql (UpSQL m) (schema db)) as [schema' |]];
    simpl;
    try destruct (insert_entry _ _ _);
    try destruct (commit_ok _);
    intros [= <- <- <-]; simpl; auto.
Qed.

Lemma run_scripts_app (a b : list Migration) (s s1 : Schema) :
  run_scripts a s = Some s1 -> run_scripts (a ++ b) s = run_scripts b s1.
Proof.
  revert s; induction a as [| m a IH]; intros s; simpl.
  - now intros [= <-].
  - destruct (up_script m s); [apply IH | discriminate].
Qed.

Lemma execute_pending_schema (ms : list Migration) :
  forall db rows res db' evs,
    ledger db = Some rows ->
    execute_pending ms db = (res, db', evs) ->
    run_scripts (committed evs) (schema db) = Some (schema db').
Proof.
  induction ms as [| m ms IH]; intros db rows res db' evs Hl; simpl.
  - now intros [= <- <- <-].
  - destruct (executeMigration m db) as [[r1 db1] evs1] eqn:E1.
    pose proof (executeMigration_step _ _ _ Hl _ _ _ E1) as Hs.
    destruct (step_ledger _ _ _ _ _ Hs rows Hl) as (added & Hl1 & _).
    assert (S1 : run_scripts (committed evs1) (schema db) = Some (schema db1)).
    { destruct (executeMigration_schema _ _ _ _ _ _ Hl E1)
        as [[-> ->] | [-> U]]; simpl; [reflexivity | now rewrite U]. }
    destruct r1 as [err |].
    + now intros [= <- <- <-].
    + destruct (execute_pending ms db1) as [[r2 db2] evs2] eqn:E2.
      intros [= <- <- <-]. rewrite flat_map_committed_app.
      rewrite (run_scripts_app _ _ _ _ S1). eapply IH; eauto.
Qed.

(** X7: what apply-all does to the managed schemas is to run, in the
    order of the run, the forward scripts of the migrations it committed
    and no other: the scripts of skipped migrations and of the failing one
    leave no trace, and the work of the migrations committed before a
    failure is kept. *)
Theorem schemas_hold_the_committed_scripts
  (faults : list bool) (fs : FileSystem) (db : DB) :
  let '(res, db', evs) := RunMigrations faults fs db in
  run_scripts (committed evs) (schema db) = Some (schema db').
Proof.
  destruct (RunMigrations faults fs db) as [[res db'] evs] eqn:E.
  destruct (RunMigrations_cases _ _ _ _ _ _ E)
    as [(e & _ & _ & -> & ->) | (t0 & _ & Ht0 & _ & R)]; [reflexivity |].
  destruct (loadMigrationsFromFiles fs) as [err | ms].
  - destruct R as (_ & -> & ->). reflexivity.
  - change (schema db) with (schema (prepared faults db)).
    eapply execute_pending_schema; [apply (table_ledger _ _ Ht0) | exact R].
Qed.

End RunMore.

Section RunInvariants.
Context {PG : Database} {SS : SliceSort}.

Lemma run_keeps_versions_distinct ms db res db' evs :
  run ms db res db' evs ->
  NoDup (applied db) -> NoDup (applied db').
Proof.
  induction 1 as [db | m rest db err db' evs Hs
                  | m rest db db1 evs1 res db' evs2 Hs Hr IH]; intros Hnd.
  - exact Hnd.
  - destruct (step_committed _ _ _ _ _ Hs)
      as [(_ & _ & L & _) | (_ & _ & E & _)]; [| discriminate].
    unfold applied in *. now rewrite L.
  - apply IH.
    destruct (step_committed _ _ _ _ _ Hs)
      as [(_ & _ & L & _) | (_ & _ & _ & rows & L0 & Hn & L1 & _)].
    + unfold applied in *. now rewrite L.
    + unfold applied in *. rewrite L0 in Hnd. rewrite L1, map_app. simpl.
      apply NoDup_app; [exact Hnd | repeat constructor; intros [] |].
      intros v Hv [<- | []]. contradiction.
Qed.

(** X8: the primary key of the tracking table is never violated.  If the
    versions in the ledger are pairwise distinct before a run of
    apply-all, they are so after it; and when [executeMigration] fails on
    recording a migration, the cause is the check of the column types or
    a column that the table lacks, not the key: the version was not in the
    ledger. *)
Theorem versions_stay_distinct
  (faults : list bool) (fs : FileSystem) (db : DB) :
  NoDup (applied db) ->
  let '(res, db', evs) := RunMigrations faults fs db in
  NoDup (applied db')
  /\ forall m d d' evs_m,
       executeMigration m d
       = (Some (wrapError "failed to record migration" driver_error), d', evs_m) ->
       ~ In (Version m) (applied d)
       /\ (insert_ok (Version m) (Description m) (Module_ m) (FilePath m)
           = false
           \/ columns d <> Some (true, true)).
Proof.
  intros Hnd.
  destruct (RunMigrations faults fs db) as [[res db'] evs] eqn:E.
  rewrite <- (prepared_applied faults) in Hnd.
  split.
  - destruct (RunMigrations_cases _ _ _ _ _ _ E)
      as [(e & _ & _ & -> & _) | (t0 & _ & Ht0 & _ & R)]; [exact Hnd |].
    destruct (loadMigrationsFromFiles fs) as [err | ms].
    + now destruct R as (_ & -> & _).
    + eapply run_keeps_versions_distinct; [| exact Hnd].
      eapply execute_pending_run; [apply (table_ledger _ _ Ht0) | exact R].
  - intros m d d' evs_m. unfold executeMigration, applied, ledger, columns.
    destruct (table d) as [t |]; [| discriminate]. cbn [option_map].
    destruct (0 <? count_version (Version m) (rows t))%nat eqn:Ec;
      [discriminate |].
    unfold insert_entry. rewrite Ec.
    intros H. split; [now apply count_version_zero |]. revert H.
    destruct (blank (UpSQL m));
      [| destruct (exec_sql (UpSQL m) (schema d)); [| discriminate]];
      cbn [fst snd];
      destruct (has_module t); destruct (has_file_path t);
      destruct (insert_ok _ _ _ _); cbn [andb];
      try destruct (commit_ok _); try discriminate; intros _;
      try (now left); right; discriminate.
Qed.

Lemma run_last_commit ms db res db' evs :
  run ms db res db' evs ->
  forall rows,
    ledger db = Some rows ->
    (forall e, In e rows -> (executed_at e < now db)%Z) ->
    exists added,
      ledger db' = Some (rows ++ added)
      /\ (forall e, In e (rows ++ added) -> (executed_at e < now db')%Z)
      /\ ((added = [] /\ committed evs = [])
          \/ exists front cfront m t,
               added = front ++ [entry_of m t]
               /\ committed evs = cfront ++ [m]
               /\ (forall e, In e (rows ++ front) -> (executed_at e < t)%Z)
               /\ ~ In (Version m) (map version (rows ++ front))).
Proof.
  induction 1 as [db | m rest db err db' evs Hs
                  | m rest db db1 evs1 res db' evs2 Hs Hr IH];
    intros rows Hl Hclock.
  - exists []. rewrite app_nil_r. split; [exact Hl |].
    split; [exact Hclock | now left].
  - destruct (step_committed _ _ _ _ _ Hs)
      as [(C & _ & L & N & _) | (_ & _ & E & _)]; [| discriminate].
    exists []. rewrite app_nil_r, L. split; [exact Hl |].
    split; [| now left].
    intros e He. specialize (Hclock e He). lia.
  - rewrite flat_map_committed_app.
    destruct (step_committed _ _ _ _ _ Hs)
      as [(C & _ & L & N & _) | (C & _ & _ & rows1 & L0 & Hn & L1 & N)].
    + rewrite Hl in L. rewrite C. simpl. apply (IH _ L).
      intros e He. specialize (Hclock e He). lia.
    + rewrite Hl in L0; injection L0 as <-.
      destruct (IH _ L1) as (added & La & Ca & Last).
      { intros e He. apply in_app_iff in He as [He | [<- | []]].
        - specialize (Hclock e He). lia.
        - simpl. lia. }
      exists (entry_of m (now db) :: added).
      rewrite <- app_assoc in La, Ca. simpl in La, Ca.
      split; [exact La |]. split; [exact Ca |]. right. rewrite C.
      destruct Last as [[-> ->] | (front & cfront & m' & t & -> & -> & Ht & Hv)].
      * exists [], [], m, (now db). rewrite !app_nil_r.
        split; [reflexivity |]. split; [reflexivity |].
        split; [exact Hclock | exact Hn].
      * exists (entry_of m (now db) :: front), (m :: cfront), m', t.
        rewrite <- app_assoc in Ht, Hv. simpl in Ht, Hv.
        split; [reflexivity |]. split; [reflexivity |].
        split; [exact Ht | exact Hv].
Qed.

(** X9: a rollback after apply-all undoes the last migration the run
    committed.  When the ledger holds no row from the future and the run,
    successful or failed, committed at least one migration, a rollback
    that succeeds removes exactly the row of the last committed one and
    leaves every other row in place. *)
Theorem rollback_undoes_last_committed
  (faults : list bool) (fs fs' : FileSystem) (db db2 : DB) :
  clock_ahead db ->
  let '(res, db1, evs) := RunMigrations faults fs db in
  committed evs <> [] ->
  Rollback fs' db1 = (None, db2) ->
  exists others m t,
    committed evs = removelast (committed evs) ++ [m]
    /\ ledger db1 = Some (others ++ [entry_of m t])
    /\ ledger db2 = Some others.
Proof.
  intros Hclock.
  destruct (RunMigrations faults fs db) as [[res db1] evs] eqn:E.
  intros Hne Hroll.
  destruct (RunMigrations_cases _ _ _ _ _ _ E)
    as [(e & _ & _ & _ & ->) | (t0 & _ & Ht0 & _ & R)]; [now elim Hne |].
  destruct (loadMigrationsFromFiles fs) as [err | ms];
    [destruct R as (_ & _ & ->); now elim Hne |].
  pose proof (table_ledger _ _ Ht0) as Hl0.
  destruct (run_last_commit _ _ _ _ _ (execute_pending_run _ _ _ _ _ _ Hl0 R)
              _ Hl0) as (added & La & _ & Last).
  { intros e He. apply (prepared_clock faults db Hclock _ e Hl0 He). }
  set (rows0 := Legacy.rows t0) in *.
  destruct Last as [[_ C] | (front & cfront & m & t & -> & C & Ht & Hv)];
    [contradiction |].
  exists (rows0 ++ front), m, t.
  rewrite app_assoc in La.
  split; [rewrite C; now rewrite removelast_last |].
  split; [exact La |].
  destruct (latest (((rows0 ++ front) ++ [entry_of m t]))) as [e |] eqn:He.
  - assert (e = entry_of m t) as ->.
    { apply (latest_strict _ _ _ He); [apply in_app_iff; right; now left |].
      intros e' He' Hne'. apply in_app_iff in He' as [He' | [<- | []]].
      - now apply Ht.
      - now elim Hne'. }
    rewrite (proj1 (Rollback_target _ _ _ _ _ La He Hroll)). f_equal.
    now apply delete_version_last.
  - apply latest_none in He. now destruct (rows0 ++ front).
Qed.

(** X10: the comparison handed to [sort.Slice] is a strict weak ordering,
    as the sort requires, for all version strings, those that do not parse
    included: it is irreflexive and transitive, and not being ordered
    either way is transitive too. *)
Theorem version_less_is_strict_weak_order :
  (forall a, version_less a a = false)
  /\ (forall a b c, version_less a b = true -> version_less b c = true ->
                    version_less a c = true)
  /\ (forall a b c,
        version_less a b = false -> version_less b a = false ->
        version_less b c = false -> version_less c b = false ->
        version_less a c = false /\ version_less c a = false).
Proof.
  unfold version_less. repeat split; intros;
    repeat match goal with
           | H : (_ <? _)%Z = true |- _ => apply Z.ltb_lt in H
           | H : (_ <? _)%Z = false |- _ => apply Z.ltb_ge in H
           end;
    try apply Z.ltb_lt; try apply Z.ltb_ge; lia.
Qed.

Lemma run_success_partition ms db db' evs :
  run ms db None db' evs ->
  Forall (fun m => In (Version m) (applied db')) ms
  /\ forall m, In m ms -> In m (skipped evs) \/ In m (committed evs).
Proof.
  intros R. remember None as res eqn:Hres.
  induction R as [db | m rest db err db' evs Hs
                  | m rest db db1 evs1 res db' evs2 Hs Hr IH];
    [split; [constructor | intros m []] | discriminate |].
  subst res. destruct (IH eq_refl) as [IHa IHb].
  assert (Hgrow : forall v, In v (applied db1) -> In v (applied db')).
  { intros v Hv. unfold applied in *.
    destruct (ledger db1) as [rows1 |] eqn:L1; [| destruct Hv].
    destruct (run_ledger _ _ _ _ _ Hr _ L1) as (added & -> & _).
    rewrite map_app. apply in_app_iff. now left. }
  rewrite flat_map_skipped_app, flat_map_committed_app.
  destruct (step_committed _ _ _ _ _ Hs)
    as [(C & _ & L & _ & S) | (C & S0 & _ & rows & L0 & _ & L1 & _)].
  - specialize (S eq_refl). rewrite S, C. split.
    + constructor; [| exact IHa]. apply Hgrow.
      destruct (step_ok_inv _ _ _ _ Hs) as [[-> Hin] | (r & _ & _ & e & He & _ & Le)].
      * exact Hin.
      * unfold applied. rewrite Le, map_app, <- He.
        apply in_app_iff. right. now left.
    + intros x [<- | Hx]; [left; now left |].
      destruct (IHb x Hx); [left; now right | now right].
  - rewrite C, S0. simpl. split.
    + constructor; [| exact IHa]. apply Hgrow.
      unfold applied. rewrite L1, map_app. apply in_app_iff. right. now left.
    + intros x [<- | Hx]; [right; now left |].
      destruct (IHb x Hx); [now left | right; now right].
Qed.

(** X11: a nil result means the corpus is fully applied.  When apply-all
    returns no error, every discovered migration was either skipped as
    already executed or committed by this run, and the version of each is
    in the ledger, whatever the database accepts or refuses. *)
Theorem success_means_fully_applied
  (faults : list bool) (fs : FileSystem) (ms : list Migration) (db : DB) :
  loadMigrationsFromFiles fs = inr ms ->
  let '(res, db', evs) := RunMigrations faults fs db in
  res = None ->
  forall m, In m ms ->
    In (Version m) (applied db')
    /\ (In m (skipped evs) \/ In m (committed evs)).
Proof.
  intros Hload.
  destruct (RunMigrations faults fs db) as [[res db'] evs] eqn:E.
  intros -> m Hm.
  destruct (RunMigrations_cases _ _ _ _ _ _ E)
    as [(e & _ & H & _) | (t0 & _ & Ht0 & _ & R)]; [discriminate H |].
  rewrite Hload in R.
  destruct (run_success_partition _ _ _ _
              (execute_pending_run _ _ _ _ _ _ (table_ledger _ _ Ht0) R))
    as [A B].
  assert (Hs : In m (sort_Slice ms))
    by (eapply Permutation_in; [apply sort_Slice_perm | exact Hm]).
  split; [| now apply B].
  rewrite Forall_forall in A. now apply A.
Qed.

End RunInvariants.

(** On the old table apply-all upgrades the row of 001, skips the script
    of 001 and adds the rows of 002 and 003. *)
Lemma ledger_grows_by_the_committed_witness :
  let out := RunMigrations [] three_scripts old_database in
  exists rows1 added,
    ledger (snd (fst out)) = Some (rows1 ++ added)
    /\ map key rows1 = map key (rows old_table)
    /\ map module rows1 = [Some "legacy"]
    /\ map version added = ["002"; "003"]
    /\ map Version (committed (snd out)) = ["002"; "003"].
Proof.
  intros out.
  pose proof (ledger_grows_by_the_committed [] three_scripts old_database)
    as K.
  fold out in K. rewrite (triple_eta out) in K.
  destruct K as (added & F & M).
  change (ledger old_database) with (Some (rows old_table)) in M.
  assert (L : ledger (snd (fst out))
              = Some [mkRow "001" "create users" (Some "legacy") None 5;
                      mkEntry "002" "create roles" "user_management"
                        "database/migrations/user_management/002_create_roles.sql" 10;
                      sensors_row 11])
    by (vm_compute; reflexivity).
  assert (C : map Version (committed (snd out)) = ["002"; "003"])
    by (vm_compute; reflexivity).
  rewrite L in M. destruct M as (rows1 & E & Kk & _).
  assert (Hlen : List.length rows1 = 1%nat)
    by (rewrite <- (length_map key), Kk; reflexivity).
  destruct rows1 as [| r [| r2 l]]; try discriminate Hlen.
  cbn [app] in E. injection E as <- <-.
  exists [mkRow "001" "create users" (Some "legacy") None 5],
         [mkEntry "002" "create roles" "user_management"
            "database/migrations/user_management/002_create_roles.sql" 10;
          sensors_row 11].
  split; [exact L |]. split; [exact Kk |]. split; [reflexivity |].
  split; [reflexivity | exact C].
Defined.

Lemma versions_stay_distinct_witness :
  NoDup (applied fresh_database)
  /\ NoDup (applied (snd (fst (RunMigrations [] three_scripts fresh_database)))).
Proof.
  assert (H : NoDup (applied fresh_database)) by constructor.
  split; [exact H |].
  pose proof (versions_stay_distinct [] three_scripts fresh_database H) as K.
  destruct (RunMigrations [] three_scripts fresh_database) as [[r d] e].
  exact (proj1 K).
Defined.

Definition first_run : option error * DB * list event :=
  RunMigrations [] three_scripts fresh_database.

Definition then_back : option error * DB :=
  Rollback three_scripts (snd (fst first_run)).

Lemma rollback_undoes_last_committed_witness :
  clock_ahead fresh_database
  /\ committed (snd first_run) <> []
  /\ Rollback three_scripts (snd (fst first_run)) = (None, snd then_back)
  /\ exists others m t,
       ledger (snd (fst first_run)) = Some (others ++ [entry_of m t])
       /\ ledger (snd then_back) = Some others.
Proof.
  assert (C : clock_ahead fresh_database) by (intros rows e H; discriminate H).
  assert (N : committed (snd first_run) <> []) by (vm_compute; discriminate).
  assert (R : Rollback three_scripts (snd (fst first_run))
              = (None, snd then_back)) by (vm_compute; reflexivity).
  split; [exact C |]. split; [exact N |]. split; [exact R |].
  pose proof (rollback_undoes_last_committed [] three_scripts three_scripts
                fresh_database (snd then_back) C) as K.
  unfold first_run in N, R |- *. revert N R K.
  destruct (RunMigrations [] three_scripts fresh_database) as [[r d] e].
  cbn [fst snd]. intros N R K.
  destruct (K N R) as (others & m & t & _ & L1 & L2).
  exists others, m, t. split; [exact L1 | exact L2].
Defined.

Lemma success_means_fully_applied_witness :
  loadMigrationsFromFiles three_scripts = inr (corpus_of three_scripts)
  /\ fst (fst first_run) = None
  /\ forall m, In m (corpus_of three_scripts) ->
               In (Version m) (applied (snd (fst first_run))).
Proof.
  assert (L : loadMigrationsFromFiles three_scripts
              = inr (corpus_of three_scripts)) by (vm_compute; reflexivity).
  assert (N : fst (fst first_run) = None) by (vm_compute; reflexivity).
  split; [exact L |]. split; [exact N |].
  pose proof (success_means_fully_applied [] three_scripts _ fresh_database L)
    as K.
  unfold first_run in N |- *. revert N K.
  destruct (RunMigrations [] three_scripts fresh_database) as [[r d] e].
  cbn [fst snd]. intros N K m Hm. exact (proj1 (K N m Hm)).
Defined.

(** ** More on rollback *)

Section RollbackMore.
Context {PG : Database}.
Import strings Splitter.

Lemma scan_without_down (lines : list string) :
  Forall (fun line => is_down_marker line = false) lines ->
  forall st, inDownSection st = false ->
    downLines (scan_lines st lines) = downLines st
    /\ inDownSection (scan_lines st lines) = false.
Proof.
  induction 1 as [| line lines Hl _ IH]; intros st Hst; [now split |].
  rewrite scan_lines_cons. unfold scan_line. rewrite Hl.
  destruct (is_up_marker line).
  - apply (IH (enter_section false st)). reflexivity.
  - unfold keep_line. rewrite Hst.
    apply (IH (mkScan (upLines st ++ [line]) (downLines st) false)).
    reflexivity.
Qed.

(** X12: rolling back a migration whose file has no DOWN marker.  When no
    line of the file opens a reverse section, the rollback sends no SQL:
    it deletes the row of the migration from the ledger and leaves the
    schemas as they are. *)
Theorem rollback_without_down_section
  (fs : FileSystem) (db : DB) (rows : list LedgerEntry)
  (e : LedgerEntry) (path content : string) :
  ledger db = Some rows ->
  latest rows = Some e ->
  readable db e path ->
  ReadFile fs path = Some content ->
  has_byte "_" (filepath.Base path) = true ->
  Forall (fun line => is_down_marker line = false) (Split content LF) ->
  commit_ok (schema db) = true ->
  Rollback fs db
  = (None, mkDB (with_rows (delete_version (version e)) (table db))
               (schema db) (now db + 1))
  /\ ledger (snd (Rollback fs db)) = Some (delete_version (version e) rows).
Proof.
  intros Hl He Hreadable Hread Hname Hdown Hcommit.
  destruct (last_migration_reads _ _ _ _ Hl He Hreadable) as (mname & _ & Q).
  assert (R : Rollback fs db
              = (None, mkDB (with_rows (delete_version (version e)) (table db))
                           (schema db) (now db + 1))).
  { unfold Rollback, parseMigrationFile. rewrite Q, Hread.
    destruct (SplitN2_some _ _ Hname) as (a & b & -> & _).
    unfold splitMigrationContent, sections.
    destruct (scan_without_down _ Hdown scan_start eq_refl) as [-> _].
    simpl. now rewrite Hcommit. }
  split; [exact R |]. rewrite R. cbn [snd]. unfold ledger. cbn [table].
  destruct (ledger_table _ _ Hl) as (t & -> & <-). reflexivity.
Qed.

Lemma delete_version_absent (v : string) (rows : list LedgerEntry) :
  ~ In v (map version rows) -> delete_version v rows = rows.
Proof.
  intros Hn. induction rows as [| r rows IH]; simpl; [reflexivity |].
  destruct (version r =? v)%string eqn:E.
  - apply String.eqb_eq in E. exfalso. apply Hn. now left.
  - simpl. f_equal. apply IH. intros H. apply Hn. now right.
Qed.

Lemma delete_version_unique (rows : list LedgerEntry) (e : LedgerEntry) :
  NoDup (map version rows) -> In e rows ->
  exists l1 l2, rows = l1 ++ e :: l2
                /\ delete_version (version e) rows = l1 ++ l2.
Proof.
  intros Hnd Hin. destruct (in_split _ _ Hin) as (l1 & l2 & ->).
  exists l1, l2. split; [reflexivity |].
  rewrite map_app in Hnd. simpl in Hnd.
  pose proof (NoDup_remove_2 _ _ _ Hnd) as Hout.
  unfold delete_version. rewrite filter_app. simpl.
  rewrite String.eqb_refl. simpl.
  fold (delete_version (version e) l1) (delete_version (version e) l2).
  rewrite !delete_version_absent; [reflexivity | |];
    intros H; apply Hout, in_app_iff; auto.
Qed.

(** X13: what a successful rollback changes.  With pairwise distinct
    versions in a ledger that is not empty, the rollback removes exactly
    one row, the one the database returns as latest, and keeps all the
    others in place; the schemas are what the DOWN section of the file at
    the path of that row makes of them, or unchanged when it is blank. *)
Theorem rollback_removes_one_row
  (fs : FileSystem) (db db' : DB) (rows : list LedgerEntry) :
  ledger db = Some rows ->
  NoDup (map version rows) ->
  rows <> [] ->
  Rollback fs db = (None, db') ->
  exists e l1 l2 path m,
    latest rows = Some e
    /\ rows = l1 ++ e :: l2
    /\ ledger db' = Some (l1 ++ l2)
    /\ file_path e = Some path
    /\ parseMigrationFile fs path = inr m
    /\ (if blank (DownSQL m) then Some (schema db)
        else exec_sql (DownSQL m) (schema db)) = Some (schema db').
Proof.
  intros Hl Hnd Hne Hroll.
  destruct (latest rows) as [e |] eqn:He;
    [| apply latest_none in He; contradiction].
  destruct (latest_greatest _ _ He) as [Hin _].
  destruct (delete_version_unique _ _ Hnd Hin) as (l1 & l2 & Hrows & Hdel).
  destruct (Rollback_target _ _ _ _ _ Hl He Hroll)
    as (Hl' & path & m & Hp & P & D).
  exists e, l1, l2, path, m.
  split; [reflexivity |]. split; [exact Hrows |].
  split; [now rewrite Hl', Hdel |]. split; [exact Hp |]. split; [exact P |].
  exact D.
Qed.

End RollbackMore.

(** A migration that cannot be reversed: its file has a forward part only. *)
Definition forward_only_scripts : FileSystem :=
  files_of
    [("database/migrations/user_management/001_create_users.sql",
      text ["-- UP"; "CREATE TABLE users (id INT);"])].

Lemma rollback_without_down_section_witness :
  let path := "database/migrations/user_management/001_create_users.sql" in
  exists content,
    ledger users_applied = Some [users_row 0]
    /\ latest [users_row 0] = Some (users_row 0)
    /\ readable users_applied (users_row 0) path
    /\ ReadFile forward_only_scripts path = Some content
    /\ has_byte "_" (filepath.Base path) = true
    /\ Forall (fun line => Splitter.is_down_marker line = false)
              (strings.Split content strings.LF)
    /\ commit_ok (schema users_applied) = true
    /\ Rollback forward_only_scripts users_applied
       = (None, mkDB (tracking []) (schema users_applied) 2).
Proof.
  intros path.
  exists (text ["-- UP"; "CREATE TABLE users (id INT);"]).
  assert (R : ReadFile forward_only_scripts path
              = Some (text ["-- UP"; "CREATE TABLE users (id INT);"]))
    by (vm_compute; reflexivity).
  assert (U : has_byte "_" (filepath.Base path) = true)
    by (vm_compute; reflexivity).
  assert (D : Forall (fun line => Splitter.is_down_marker line = false)
                (strings.Split (text ["-- UP"; "CREATE TABLE users (id INT);"])
                               strings.LF)).
  { replace (strings.Split (text ["-- UP"; "CREATE TABLE users (id INT);"])
                           strings.LF)
      with ["-- UP"; "CREATE TABLE users (id INT);"] by (vm_compute; reflexivity).
    repeat (constructor; [vm_compute; reflexivity |]). constructor. }
  split; [reflexivity |]. split; [reflexivity |].
  split; [exact users_row_readable |]. split; [exact R |].
  split; [exact U |]. split; [exact D |]. split; [reflexivity |].
  rewrite (proj1 (rollback_without_down_section forward_only_scripts
                    users_applied [users_row 0] (users_row 0) path _
                    eq_refl eq_refl users_row_readable R U D eq_refl)).
  vm_compute; reflexivity.
Defined.

Lemma rollback_removes_one_row_witness :
  ledger out_of_band = Some [sensors_row 10; users_row 20]
  /\ NoDup (map version [sensors_row 10; users_row 20])
  /\ Rollback three_scripts out_of_band
     = (None, snd (Rollback three_scripts out_of_band))
  /\ exists e l1 l2,
       [sensors_row 10; users_row 20] = l1 ++ e :: l2
       /\ ledger (snd (Rollback three_scripts out_of_band)) = Some (l1 ++ l2).
Proof.
  assert (N : NoDup (map version [sensors_row 10; users_row 20])).
  { simpl. repeat constructor; simpl; [intros [H | []]; discriminate H | tauto]. }
  assert (R : Rollback three_scripts out_of_band
              = (None, snd (Rollback three_scripts out_of_band)))
    by (vm_compute; reflexivity).
  split; [reflexivity |]. split; [exact N |]. split; [exact R |].
  destruct (rollback_removes_one_row three_scripts out_of_band
              (snd (Rollback three_scripts out_of_band))
              [sensors_row 10; users_row 20] eq_refl N) as
    (e & l1 & l2 & path & m & _ & S & L & _); [discriminate | exact R |].
  exists e, l1, l2. split; [exact S | exact L].
Defined.


(** ** Creating a migration file *)

(** *** More facts about strings *)

Lemma has_byte_app (c : ascii) (a b : string) :
  has_byte c (a ++ b)%string = has_byte c a || has_byte c b.
Proof.
  induction a as [| d a IH]; simpl; [reflexivity |].
  now rewrite IH, orb_assoc.
Qed.

Lemma string_app_assoc (a b c : string) :
  ((a ++ b) ++ c)%string = (a ++ (b ++ c))%string.
Proof. induction a as [| d a IH]; simpl; [reflexivity | now rewrite IH]. Qed.

Lemma string_app_nil_r (s : string) : (s ++ "")%string = s.
Proof. induction s as [| c s IH]; simpl; [reflexivity | now rewrite IH]. Qed.

Lemma rev_string_app (a b : string) :
  strings.rev_string (a ++ b)%string
  = (strings.rev_string b ++ strings.rev_string a)%string.
Proof.
  induction a as [| c a IH]; simpl.
  - now rewrite string_app_nil_r.
  - now rewrite IH, string_app_assoc.
Qed.

Lemma rev_string_involutive (s : string) :
  strings.rev_string (strings.rev_string s) = s.
Proof.
  induction s as [| c s IH]; simpl; [reflexivity |].
  now rewrite rev_string_app, IH.
Qed.

Lemma Split_single (s : string) (sep : ascii) :
  has_byte sep s = false -> strings.Split s sep = [s].
Proof.
  induction s as [| c s IH]; simpl; [reflexivity |].
  destruct (Ascii.eqb c sep); simpl; [discriminate |].
  intros H. now rewrite IH.
Qed.

Lemma Split_first (a b : string) (sep : ascii) :
  has_byte sep a = false ->
  strings.Split (a ++ String sep b) sep = a :: strings.Split b sep.
Proof.
  induction a as [| c a IH]; simpl.
  - now rewrite Ascii.eqb_refl.
  - destruct (Ascii.eqb c sep); simpl; [discriminate |].
    intros H. now rewrite IH.
Qed.

Lemma Split_last (a f : string) (sep : ascii) :
  has_byte sep f = false ->
  strings.Split (a ++ String sep f) sep = strings.Split a sep ++ [f].
Proof.
  intros Hf. induction a as [| c a IH]; simpl.
  - now rewrite Ascii.eqb_refl, (Split_single _ _ Hf).
  - destruct (Ascii.eqb c sep); [now rewrite IH |].
    rewrite IH. pose proof (strings.Split a sep) as l.
    pose proof (Split_nonempty a sep) as Hne.
    destruct (strings.Split a sep); [contradiction | reflexivity].
Qed.

Lemma SplitN2_first (a b : string) (sep : ascii) :
  has_byte sep a = false ->
  strings.SplitN2 (a ++ String sep b) sep = Some (a, b).
Proof.
  induction a as [| c a IH]; simpl.
  - now rewrite Ascii.eqb_refl.
  - destruct (Ascii.eqb c sep); simpl; [discriminate |].
    intros H. now rewrite IH.
Qed.

Lemma prefix_empty (s : string) : String.prefix "" s = true.
Proof. destruct s; reflexivity. Qed.

Lemma TrimSuffix_sql (d : string) :
  strings.TrimSuffix (d ++ ".sql") ".sql" = d.
Proof.
  unfold strings.TrimSuffix, strings.HasSuffix.
  rewrite rev_string_app. simpl.
  now rewrite prefix_empty, rev_string_involutive.
Qed.

Lemma ReplaceAll_back (s : string) :
  strings.ReplaceAll (strings.ReplaceAll s " " "_") "_" " "
  = strings.ReplaceAll s "_" " ".
Proof.
  induction s as [| c s IH]; simpl; [reflexivity |]. rewrite IH. f_equal.
  destruct (Ascii.eqb c " ") eqn:E1; simpl.
  - apply Ascii.eqb_eq in E1; subst c. reflexivity.
  - reflexivity.
Qed.

Lemma ReplaceAll_keeps (s : string) (old new c : ascii) :
  c <> new -> has_byte c s = false ->
  has_byte c (strings.ReplaceAll s old new) = false.
Proof.
  intros Hc. induction s as [| d s IH]; simpl; [reflexivity |].
  intros H. apply orb_false_elim in H as [Hd Hs].
  rewrite (IH Hs), orb_false_r.
  destruct (Ascii.eqb d old); [| exact Hd].
  apply Ascii.eqb_neq. congruence.
Qed.

Lemma ReplaceAll_id (s : string) (old new : ascii) :
  has_byte old s = false -> strings.ReplaceAll s old new = s.
Proof.
  induction s as [| d s IH]; simpl; [reflexivity |].
  intros H. apply orb_false_elim in H as [Hd Hs].
  now rewrite Hd, IH.
Qed.

(** *** [getNextVersion] and [CreateMigrationFile] *)

(** The decimal digits of [u], written right to left in front of [acc] as
    [fmtInteger] of fmt/format.go does; an [int] has at most 19 digits. *)
Fixpoint decimal (fuel : nat) (u : Z) (acc : string) : string :=
  match fuel with
  | O => acc
  | S fuel' =>
      let acc' :=
        String (ascii_of_nat (48 + Z.to_nat (u mod 10))) acc in
      if (u <? 10)%Z then acc' else decimal fuel' (u / 10) acc'
  end.

Fixpoint zeros (n : nat) : string :=
  match n with
  | O => EmptyString
  | S k => String "0" (zeros k)
  end.

(** [fmt.Sprintf("%03d", n)]: the digits are padded with zeros to the
    width 3, the sign of a negative number taking one of the places. *)
Definition Sprintf_03d (n : Z) : string :=
  let digits := decimal 20 (Z.abs n) EmptyString in
  let prec := if (n <? 0)%Z then 2%nat else 3%nat in
  let body := (zeros (prec - String.length digits) ++ digits)%string in
  if (n <? 0)%Z then String "-" body else body.

Definition migrationsDir : string := "database/migrations".

(** [filepath.Join(dir, module, filename)] for a [dir] that is not empty. *)
Definition Join3 (dir module filename : string) : string :=
  filepath.Clean (dir ++ "/" ++ module ++ "/" ++ filename)%string.

Definition migration_filename (nextVersion : Z) (description : string) : string :=
  (Sprintf_03d nextVersion ++ "_"
     ++ strings.ReplaceAll description " " "_" ++ ".sql")%string.

Definition template_tail : list string :=
  [""; "-- UP"; "-- Add your UP migration SQL here"; ""; "";
   "-- DOWN"; "-- Add your DOWN migration SQL here (for rollback)"; ""; ""].

(** The text that [CreateMigrationFile] formats for the new file. *)
Definition migration_template (filename module description : string) : string :=
  ("-- Migration: " ++ filename ++ String strings.LF
     ("-- Module: " ++ module ++ String strings.LF
        ("-- Description: " ++ description ++ String strings.LF
           (text template_tail))))%string.

Section NextVersion.
Context {PG : Database}.

(** [CAST(version AS INTEGER)] as the database evaluates it, [None] when
    it raises an error. *)
Variable cast_integer : string -> option Z.

Fixpoint cast_versions (rows : list LedgerEntry) : option (list Z) :=
  match rows with
  | [] => Some []
  | r :: rest =>
      match cast_integer (version r), cast_versions rest with
      | Some n, Some ns => Some (n :: ns)
      | _, _ => None
      end
  end.

(** [COALESCE(MAX(...), 0)]. *)
Definition max_or_zero (ns : list Z) : Z :=
  match ns with
  | [] => 0%Z
  | n :: rest => fold_left Z.max rest n
  end.

Definition getNextVersion (db : DB) : error + Z :=
  match ledger db with
  | None => inl (wrapError "failed to get max version" driver_error)
  | Some rows =>
      match cast_versions rows with
      | None => inl (wrapError "failed to get max version" driver_error)
      | Some ns => inr (max_or_zero ns + 1)%Z
      end
  end.

(** [CreateMigrationFile] up to the call of [os.WriteFile]: the path and
    the content it asks to write. *)
Definition CreateMigrationFile (module description : string) (db : DB)
  : error + (string * string) :=
  match getNextVersion db with
  | inl err => inl (wrapError "failed to get next version" err)
  | inr nextVersion =>
      let filename := migration_filename nextVersion description in
      let filePath := Join3 migrationsDir module filename in
      inr (filePath, migration_template filename module description)
  end.

End NextVersion.

Section NextVersionFacts.
Context {PG : Database}.
Variable cast_integer : string -> option Z.

Lemma cast_versions_some (rows : list LedgerEntry) (ns : list Z) :
  cast_versions cast_integer rows = Some ns ->
  Forall2 (fun r n => cast_integer (version r) = Some n) rows ns.
Proof.
  revert ns; induction rows as [| r rows IH]; intros ns; simpl.
  - intros [= <-]. constructor.
  - destruct (cast_integer (version r)) as [n |] eqn:E; [| discriminate].
    destruct (cast_versions cast_integer rows) as [ns' |]; [| discriminate].
    intros [= <-]. constructor; auto.
Qed.

Lemma cast_versions_none (rows : list LedgerEntry) (r : LedgerEntry) :
  In r rows -> cast_integer (version r) = None ->
  cast_versions cast_integer rows = None.
Proof.
  induction rows as [| r0 rows IH]; intros Hin Hr; [destruct Hin |].
  simpl. destruct Hin as [-> | Hin].
  - now rewrite Hr.
  - rewrite (IH Hin Hr). now destruct (cast_integer (version r0)).
Qed.

Lemma Forall2_left {A B} (R : A -> B -> Prop) (l1 : list A) (l2 : list B) :
  Forall2 R l1 l2 -> forall a, In a l1 -> exists b, In b l2 /\ R a b.
Proof.
  induction 1 as [| x y l1 l2 Hxy _ IH]; intros a; [intros [] |].
  intros [<- | Ha]; [exists y; split; [now left | exact Hxy] |].
  destruct (IH a Ha) as (b & Hb & Hab). exists b. split; [now right | exact Hab].
Qed.

Lemma Forall2_right {A B} (R : A -> B -> Prop) (l1 : list A) (l2 : list B) :
  Forall2 R l1 l2 -> forall b, In b l2 -> exists a, In a l1 /\ R a b.
Proof.
  induction 1 as [| x y l1 l2 Hxy _ IH]; intros b; [intros [] |].
  intros [<- | Hb]; [exists x; split; [now left | exact Hxy] |].
  destruct (IH b Hb) as (a & Ha & Hab). exists a. split; [now right | exact Hab].
Qed.

Lemma fold_max_bounds (l : list Z) (a : Z) :
  (a <= fold_left Z.max l a)%Z
  /\ (forall x, In x l -> (x <= fold_left Z.max l a)%Z)
  /\ (fold_left Z.max l a = a \/ In (fold_left Z.max l a) l).
Proof.
  revert a; induction l as [| y l IH]; intros a; simpl.
  - split; [lia |]. split; [intros x [] | now left].
  - destruct (IH (Z.max a y)) as (Ha & Hall & Hin).
    split; [lia |]. split.
    + intros x [<- | Hx]; [lia | now apply Hall].
    + destruct Hin as [Hin | Hin]; [| right; now right].
      rewrite Hin. destruct (Z.max_spec a y) as [[_ ->] | [_ ->]];
        [right; now left | now left].
Qed.

(** X14: [getNextVersion] numbers a new migration above every applied
    one.  On an empty ledger it returns 1.  When it succeeds, every version
    in the ledger casts to an integer below the result, and on a ledger
    that is not empty the result is one more than the cast of one of its
    versions.  It fails when the table is missing or when the database
    cannot cast one of the versions. *)
Theorem next_version_exceeds_applied (db : DB) (rows : list LedgerEntry) :
  ledger db = Some rows ->
  (rows = [] -> getNextVersion cast_integer db = inr 1%Z)
  /\ (forall n, getNextVersion cast_integer db = inr n ->
        (forall r, In r rows ->
           exists k, cast_integer (version r) = Some k /\ (k < n)%Z)
        /\ (rows <> [] ->
            exists r, In r rows /\ cast_integer (version r) = Some (n - 1)%Z))
  /\ (forall r, In r rows -> cast_integer (version r) = None ->
        getNextVersion cast_integer db
        = inl (wrapError "failed to get max version" driver_error)).
Proof.
  intros Hl. unfold getNextVersion. rewrite Hl.
  split; [now intros -> |]. split.
  - intros n.
    destruct (cast_versions cast_integer rows) as [ns |] eqn:E; [| discriminate].
    intros [= <-]. apply cast_versions_some in E.
    destruct E as [| r k rows ns Hr F]; [split; [intros r [] | now intros H] |].
    simpl. destruct (fold_max_bounds ns k) as (Hk & Hall & Hin).
    split.
    + intros r0 [<- | Hr0]; [exists k; split; [exact Hr | lia] |].
      destruct (Forall2_left _ _ _ F _ Hr0) as (k0 & Hk0 & E0).
      exists k0. split; [exact E0 |]. specialize (Hall _ Hk0). lia.
    + intros _. replace (fold_left Z.max ns k + 1 - 1)%Z
        with (fold_left Z.max ns k) by lia.
      destruct Hin as [-> | Hin]; [exists r; split; [now left | exact Hr] |].
      destruct (Forall2_right _ _ _ F _ Hin) as (r0 & Hr0 & E0).
      exists r0. split; [now right | exact E0].
  - intros r Hin Hr. now rewrite (cast_versions_none _ _ Hin Hr).
Qed.

End NextVersionFacts.

(** *** The generated file name read back *)

(** The byte [fmtInteger] writes for the last digit of [u]. *)
Definition digit_byte (u : Z) : ascii :=
  ascii_of_nat (48 + Z.to_nat (u mod 10)).

Lemma decimal_step (fuel : nat) (u : Z) (acc : string) :
  decimal (S fuel) u acc
  = if (u <? 10)%Z then String (digit_byte u) acc
    else decimal fuel (u / 10) (String (digit_byte u) acc).
Proof. reflexivity. Qed.

Lemma small_digits_step (c : ascii) (r : string) (n : Z) :
  strconv.small_digits (String c r) n
  = match strconv.digit c with
    | None => None
    | Some d => strconv.small_digits r (n * 10 + d)
    end.
Proof. reflexivity. Qed.

Lemma digit_byte_facts (u : Z) :
  strconv.digit (digit_byte u) = Some (u mod 10)%Z
  /\ strconv.is_sign (digit_byte u) = false.
Proof.
  unfold digit_byte. pose proof (Z.mod_pos_bound u 10) as H.
  set (d := (u mod 10)%Z) in *.
  assert (E : (d = 0 \/ d = 1 \/ d = 2 \/ d = 3 \/ d = 4 \/ d = 5 \/ d = 6
               \/ d = 7 \/ d = 8 \/ d = 9)%Z) by lia.
  clearbody d.
  repeat (destruct E as [-> | E]); try subst d; split; reflexivity.
Qed.

Lemma decimal_value (fuel : nat) :
  forall u acc,
    (0 <= u < 10 ^ Z.of_nat fuel)%Z ->
    strconv.small_digits (decimal fuel u acc) 0 = strconv.small_digits acc u.
Proof.
  induction fuel as [| fuel IH]; intros u acc Hu.
  - change (10 ^ Z.of_nat 0)%Z with 1%Z in Hu.
    replace u with 0%Z by lia. reflexivity.
  - rewrite Nat2Z.inj_succ, Z.pow_succ_r in Hu by lia.
    rewrite decimal_step.
    destruct (digit_byte_facts u) as (Hd & _).
    destruct (u <? 10)%Z eqn:E.
    + apply Z.ltb_lt in E. rewrite small_digits_step, Hd.
      rewrite Z.mod_small by lia. reflexivity.
    + apply Z.ltb_ge in E. rewrite IH.
      * rewrite small_digits_step, Hd. f_equal.
        pose proof (Z.div_mod u 10). lia.
      * split; [apply Z.div_pos; lia | apply Z.div_lt_upper_bound; lia].
Qed.

Lemma decimal_head (fuel : nat) :
  forall u acc,
    exists c t, decimal (S fuel) u acc = String c t
                /\ strconv.is_sign c = false.
Proof.
  induction fuel as [| fuel IH]; intros u acc;
    destruct (digit_byte_facts u) as (_ & Hs); rewrite decimal_step.
  - destruct (u <? 10)%Z; eexists; eexists;
      (split; [reflexivity | exact Hs]).
  - destruct (u <? 10)%Z; [| apply IH].
    eexists; eexists. split; [reflexivity | exact Hs].
Qed.

Lemma decimal_length (k : nat) :
  forall fuel u acc,
    (k <= fuel)%nat -> (0 <= u < 10 ^ Z.of_nat k)%Z ->
    (String.length (decimal fuel u acc) <= String.length acc + k + 1)%nat.
Proof.
  induction k as [| k IH]; intros fuel u acc Hk Hu.
  - change (10 ^ Z.of_nat 0)%Z with 1%Z in Hu. replace u with 0%Z by lia.
    destruct fuel; [simpl; lia |].
    rewrite decimal_step. change (0 <? 10)%Z with true. cbv iota.
    cbn [String.length]. lia.
  - destruct fuel as [| fuel]; [lia |].
    rewrite Nat2Z.inj_succ, Z.pow_succ_r in Hu by lia.
    rewrite decimal_step.
    destruct (u <? 10)%Z eqn:E; [cbn [String.length]; lia |].
    apply Z.ltb_ge in E.
    etransitivity; [apply IH; [lia |] |]; [| cbn [String.length]; lia].
    split; [apply Z.div_pos; lia | apply Z.div_lt_upper_bound; lia].
Qed.

Lemma zeros_value (k : nat) (s : string) :
  strconv.small_digits (zeros k ++ s)%string 0 = strconv.small_digits s 0.
Proof. induction k as [| k IH]; simpl; [reflexivity | exact IH]. Qed.

Lemma length_zeros_app (k : nat) (s : string) :
  String.length (zeros k ++ s)%string = (k + String.length s)%nat.
Proof. induction k as [| k IH]; simpl; [reflexivity | now rewrite IH]. Qed.

(** The digits and zeros of [Sprintf_03d], without the sign. *)
Definition padded (n : Z) : string :=
  let digits := decimal 20 (Z.abs n) EmptyString in
  (zeros ((if (n <? 0)%Z then 2 else 3) - String.length digits) ++ digits)%string.

Lemma padded_facts (n : Z) :
  (- 10 ^ 10 < n < 10 ^ 10)%Z ->
  strconv.small_digits (padded n) 0 = Some (Z.abs n)
  /\ (String.length (padded n) <= 14)%nat
  /\ exists c t, padded n = String c t /\ strconv.is_sign c = false.
Proof.
  intros Hn. unfold padded.
  set (digits := decimal 20 (Z.abs n) EmptyString).
  set (k := (if (n <? 0)%Z then 2 else 3) - String.length digits).
  assert (Hk : (k <= 3)%nat) by (unfold k; destruct (n <? 0)%Z; lia).
  assert (P20 : (10 ^ Z.of_nat 20 = 10 ^ 20)%Z) by reflexivity.
  assert (P10 : (10 ^ Z.of_nat 10 = 10 ^ 10)%Z) by reflexivity.
  split; [| split].
  - rewrite zeros_value. unfold digits. rewrite decimal_value; [reflexivity |].
    rewrite P20. lia.
  - rewrite length_zeros_app.
    pose proof (decimal_length 10 20 (Z.abs n) EmptyString) as L.
    fold digits in L. cbn [String.length] in L.
    assert ((String.length digits <= 0 + 10 + 1)%nat)
      by (apply L; [lia | rewrite P10; lia]).
    lia.
  - destruct k as [| k'].
    + destruct (decimal_head 19 (Z.abs n) EmptyString) as (c & t & E & S).
      exists c, t. unfold digits. cbn [zeros append]. rewrite E. auto.
    + cbn [zeros append]. eexists; eexists. split; reflexivity.
Qed.

Lemma Sprintf_03d_sign (n : Z) :
  Sprintf_03d n = if (n <? 0)%Z then String "-" (padded n) else padded n.
Proof. reflexivity. Qed.

Lemma Atoi_fast (c : ascii) (t : string) :
  (String.length t < 18)%nat ->
  strconv.Atoi (String c t)
  = match (if strconv.is_sign c then t else String c t) with
    | EmptyString => (0%Z, Some strconv.ErrSyntax)
    | body =>
        match strconv.small_digits body 0 with
        | None => (0%Z, Some strconv.ErrSyntax)
        | Some n => ((if Ascii.eqb c "-" then - n else n)%Z, None)
        end
    end.
Proof.
  intros H. unfold strconv.Atoi.
  assert (E : ((0 <? String.length (String c t))
               && (String.length (String c t) <? 19))%nat = true).
  { cbn [String.length]. apply andb_true_iff.
    split; [reflexivity | apply Nat.ltb_lt; lia]. }
  rewrite E. cbv zeta.
  destruct (if strconv.is_sign c then t else String c t); reflexivity.
Qed.

Lemma Atoi_Sprintf_03d (n : Z) :
  (- 10 ^ 10 < n < 10 ^ 10)%Z -> strconv.Atoi (Sprintf_03d n) = (n, None).
Proof.
  intros Hn. destruct (padded_facts n Hn) as (V & L & c & t & E & S).
  rewrite Sprintf_03d_sign.
  destruct (n <? 0)%Z eqn:Neg.
  - apply Z.ltb_lt in Neg. rewrite Atoi_fast by lia.
    change (strconv.is_sign "-") with true. cbv iota.
    rewrite E in V |- *. rewrite V.
    change (Ascii.eqb "-" "-") with true. cbv iota. f_equal. lia.
  - apply Z.ltb_ge in Neg. rewrite E in V, L |- *.
    cbn [String.length] in L. rewrite Atoi_fast by lia.
    rewrite S, V.
    assert (Hc : Ascii.eqb c "-" = false).
    { unfold strconv.is_sign in S. now apply orb_false_elim in S. }
    rewrite Hc. f_equal. lia.
Qed.

Lemma digit_byte_differs (u : Z) (c : ascii) :
  strconv.digit c = None -> Ascii.eqb (digit_byte u) c = false.
Proof.
  intros Hc. apply Ascii.eqb_neq. intros <-.
  destruct (digit_byte_facts u) as [Hd _]. congruence.
Qed.

Lemma decimal_bytes (c : ascii) (fuel : nat) :
  strconv.digit c = None ->
  forall u acc, has_byte c (decimal fuel u acc) = has_byte c acc.
Proof.
  intros Hc. induction fuel as [| fuel IH]; intros u acc; [reflexivity |].
  rewrite decimal_step.
  destruct (u <? 10)%Z; [| rewrite IH];
    cbn [has_byte]; now rewrite (digit_byte_differs u c Hc).
Qed.

Lemma Sprintf_03d_bytes (c : ascii) (n : Z) :
  strconv.digit c = None -> Ascii.eqb "-" c = false ->
  has_byte c (Sprintf_03d n) = false.
Proof.
  intros Hd Hm. rewrite Sprintf_03d_sign.
  assert (P : has_byte c (padded n) = false).
  { unfold padded. rewrite has_byte_app, decimal_bytes by exact Hd.
    rewrite orb_false_r.
    induction ((if (n <? 0)%Z then 2 else 3)
               - String.length (decimal 20 (Z.abs n) ""))%nat as [| k IH];
      [reflexivity |].
    cbn [zeros has_byte]. rewrite IH, orb_false_r.
    apply Ascii.eqb_neq. intros <-. discriminate Hd. }
  destruct (n <? 0)%Z; [| exact P].
  cbn [has_byte]. now rewrite Hm, P.
Qed.

(** *** The path of the new file *)

Lemma clean_elements_last (rooted : bool) (f : string) :
  (f =? "")%string = false -> (f =? ".")%string = false ->
  (f =? "..")%string = false ->
  forall xs out,
    exists out', filepath.clean_elements rooted out (xs ++ [f]) = rev out' ++ [f].
Proof.
  intros H1 H2 H3. induction xs as [| e xs IH]; intros out.
  - exists out. simpl. now rewrite H1, H2, H3.
  - simpl. destruct ((e =? "") || (e =? "."))%string; [apply IH |].
    destruct (e =? "..")%string; [| apply IH].
    destruct out as [| top below]; [destruct rooted; apply IH |].
    destruct (top =? "..")%string; apply IH.
Qed.

Lemma Join_snoc (l : list string) (f sep : string) :
  strings.Join (l ++ [f]) sep
  = match l with
    | [] => f
    | _ => (strings.Join l sep ++ sep ++ f)%string
    end.
Proof.
  induction l as [| a l IH]; [reflexivity |].
  change ((a :: l) ++ [f]) with (a :: (l ++ [f])).
  destruct l as [| b l]; [reflexivity |].
  change (strings.Join (a :: (b :: l) ++ [f]) sep)
    with (a ++ sep ++ strings.Join ((b :: l) ++ [f]) sep)%string.
  rewrite IH.
  change (strings.Join (a :: b :: l) sep)
    with (a ++ sep ++ strings.Join (b :: l) sep)%string.
  now rewrite !string_app_assoc.
Qed.

Lemma rev_string_head (f : string) :
  f <> "" -> has_byte "/" f = false ->
  exists c r, strings.rev_string f = String c r /\ Ascii.eqb c "/" = false.
Proof.
  induction f as [| d f IH]; [now intros H |].
  intros _ H. cbn [has_byte] in H. apply orb_false_elim in H as [Hd Hf].
  cbn [strings.rev_string]. destruct f as [| e f].
  - exists d, "". now split.
  - destruct (IH ltac:(discriminate) Hf) as (c & r & -> & Hc).
    exists c, (r ++ String d "")%string. now split.
Qed.

(** [Base] of a path that ends with an element: the element. *)
Lemma Base_of_element (pre f : string) :
  (pre = "" \/ exists J, pre = (J ++ "/")%string) ->
  f <> "" -> has_byte "/" f = false ->
  filepath.Base (pre ++ f)%string = f.
Proof.
  intros Hpre Hne Hf.
  assert (Hs : exists c t, (pre ++ f)%string = String c t).
  { destruct pre as [| c t]; [| now exists c, (t ++ f)%string].
    destruct f as [| c t]; [now contradiction Hne | simpl; eauto]. }
  destruct Hs as (c & t & E). unfold filepath.Base. rewrite E, <- E.
  assert (Hstrip :
            strings.rev_string
              (filepath.strip_leading_separators
                 (strings.rev_string (pre ++ f)%string)) = (pre ++ f)%string).
  { set (R := strings.rev_string (pre ++ f)%string).
    assert (ER : exists d r, R = String d r /\ Ascii.eqb d "/" = false).
    { unfold R. rewrite rev_string_app.
      destruct (rev_string_head f Hne Hf) as (d & r & -> & Hd).
      cbn [append]. eauto. }
    destruct ER as (d & r & ER & Hd). rewrite ER.
    cbn [filepath.strip_leading_separators].
    unfold filepath.Separator. rewrite Hd, <- ER.
    apply rev_string_involutive. }
  rewrite Hstrip. unfold filepath.last_element.
  assert (Hlast : last (strings.Split (pre ++ f)%string filepath.Separator) ""
                  = f).
  { unfold filepath.Separator. destruct Hpre as [-> | [J ->]].
    - cbn [append]. now rewrite (Split_single _ _ Hf).
    - rewrite string_app_assoc.
      change ("/" ++ f)%string with (String "/" f).
      rewrite (Split_last _ _ _ Hf). apply last_last. }
  rewrite Hlast. destruct f; [now contradiction Hne | reflexivity].
Qed.

(** The joined path ends with the file name, whatever the module is. *)
Lemma Join3_ends (module f : string) :
  has_byte "/" f = false -> has_byte "_" f = true ->
  exists pre, (pre = "" \/ exists J, pre = (J ++ "/")%string)
              /\ Join3 migrationsDir module f = (pre ++ f)%string.
Proof.
  intros Hslash Hu.
  assert (H1 : (f =? "")%string = false)
    by (apply String.eqb_neq; intros E; rewrite E in Hu; discriminate Hu).
  assert (H2 : (f =? ".")%string = false)
    by (apply String.eqb_neq; intros E; rewrite E in Hu; discriminate Hu).
  assert (H3 : (f =? "..")%string = false)
    by (apply String.eqb_neq; intros E; rewrite E in Hu; discriminate Hu).
  unfold Join3, migrationsDir.
  set (path := ("database/migrations" ++ "/" ++ module ++ "/" ++ f)%string).
  assert (Hsplit : strings.Split path filepath.Separator
                   = strings.Split ("database/migrations/" ++ module)%string
                                   filepath.Separator ++ [f]).
  { unfold path, filepath.Separator.
    change ("database/migrations" ++ "/" ++ module ++ "/" ++ f)%string
      with ("database/migrations/" ++ (module ++ String "/" f))%string.
    rewrite <- string_app_assoc. apply Split_last, Hslash. }
  assert (Hclean : filepath.Clean path
                   = let body :=
                       strings.Join
                         (filepath.clean_elements false []
                            (strings.Split path filepath.Separator)) "/" in
                     if (body =? "")%string then "." else body)
    by reflexivity.
  rewrite Hclean, Hsplit. cbv zeta.
  destruct (clean_elements_last false f H1 H2 H3
              (strings.Split ("database/migrations/" ++ module)%string
                             filepath.Separator) []) as [out' ->].
  rewrite Join_snoc.
  destruct (rev out') as [| a l] eqn:Eo.
  - rewrite H1. exists "". split; [now left | reflexivity].
  - set (J := strings.Join (a :: l) "/").
    assert (Hb : ((J ++ "/" ++ f) =? "")%string = false).
    { apply String.eqb_neq. intros E.
      assert (Hz : has_byte "_" (J ++ "/" ++ f)%string = true)
        by (rewrite !has_byte_app, Hu; now rewrite !orb_true_r).
      rewrite E in Hz. discriminate Hz. }
    rewrite Hb. exists (J ++ "/")%string.
    split; [right; now exists J | now rewrite string_app_assoc].
Qed.

Lemma HasSuffix_sql (d : string) : strings.HasSuffix (d ++ ".sql") ".sql" = true.
Proof.
  unfold strings.HasSuffix. rewrite rev_string_app. simpl.
  now rewrite prefix_empty.
Qed.

(** *** The directory of the new file *)

(** A path element that [Clean] keeps as it is. *)
Definition element (e : string) : Prop :=
  e <> "" /\ e <> "." /\ e <> ".." /\ has_byte "/" e = false.

Lemma clean_elements_keeps (rooted : bool) (e : string)
      (out rest : list string) :
  e <> "" -> e <> "." -> e <> ".." ->
  filepath.clean_elements rooted out (e :: rest)
  = filepath.clean_elements rooted (e :: out) rest.
Proof.
  intros H1 H2 H3. apply String.eqb_neq in H1, H2, H3.
  cbn [filepath.clean_elements]. now rewrite H1, H2, H3.
Qed.

Lemma through_last_separator_none (f : string) :
  has_byte "/" f = false -> filepath.through_last_separator f = "".
Proof.
  induction f as [| c f IH]; [reflexivity |].
  cbn [has_byte filepath.through_last_separator]. intros H.
  apply orb_false_elim in H as [Hc Hf]. rewrite (IH Hf).
  unfold filepath.Separator. now rewrite Hc.
Qed.

Lemma through_last_separator_app (a f : string) :
  has_byte "/" f = false ->
  filepath.through_last_separator (a ++ String "/" f) = (a ++ "/")%string.
Proof.
  intros Hf. induction a as [| c a IH].
  - cbn [append filepath.through_last_separator].
    now rewrite (through_last_separator_none f Hf).
  - cbn [append filepath.through_last_separator]. rewrite IH.
    destruct a; reflexivity.
Qed.

Lemma Join3_of_element (module f : string) :
  element module -> element f ->
  Join3 migrationsDir module f
  = ("database/migrations/" ++ module ++ "/" ++ f)%string.
Proof.
  intros (M1 & M2 & M3 & M4) (F1 & F2 & F3 & F4).
  unfold Join3, migrationsDir.
  change ("database/migrations" ++ "/" ++ module ++ "/" ++ f)%string
    with (String "d" ("atabase" ++ String "/"
            ("migrations" ++ String "/" (module ++ String "/" f))))%string.
  cbv beta iota delta [filepath.Clean].
  change (Ascii.eqb "d" filepath.Separator) with false.
  change (String "d" ("atabase" ++ String "/"
            ("migrations" ++ String "/" (module ++ String "/" f))))%string
    with ("database" ++ String "/"
            ("migrations" ++ String "/" (module ++ String "/" f)))%string.
  unfold filepath.Separator.
  rewrite !Split_first, (Split_single f "/" F4) by (assumption || reflexivity).
  rewrite !clean_elements_keeps by (assumption || discriminate).
  cbv zeta. cbn [filepath.clean_elements rev app strings.Join].
  reflexivity.
Qed.

Lemma Dir_Join3 (module f : string) :
  element module -> element f ->
  filepath.Base (filepath.Dir (Join3 migrationsDir module f)) = module.
Proof.
  intros Hm Hf. rewrite (Join3_of_element module f Hm Hf).
  destruct Hm as (M1 & M2 & M3 & M4). destruct Hf as (_ & _ & _ & F4).
  unfold filepath.Dir.
  change ("database/migrations/" ++ module ++ "/" ++ f)%string
    with ("database/migrations/" ++ (module ++ String "/" f))%string.
  rewrite <- string_app_assoc, (through_last_separator_app _ f F4).
  rewrite string_app_assoc.
  change (("database/migrations/" ++ module ++ "/"))%string
    with (String "d" ("atabase" ++ String "/"
            ("migrations" ++ String "/" (module ++ String "/" ""))))%string.
  cbv beta iota delta [filepath.Clean].
  change (Ascii.eqb "d" filepath.Separator) with false.
  change (String "d" ("atabase" ++ String "/"
            ("migrations" ++ String "/" (module ++ String "/" ""))))%string
    with ("database" ++ String "/"
            ("migrations" ++ String "/" (module ++ String "/" "")))%string.
  unfold filepath.Separator.
  rewrite !Split_first by (assumption || reflexivity).
  rewrite !clean_elements_keeps by (assumption || discriminate).
  cbv zeta. cbn [filepath.clean_elements strings.Split rev app strings.Join
                 String.eqb orb].
  change ("database" ++ "/" ++ "migrations" ++ "/" ++ module)%string
    with ("database/migrations/" ++ module)%string.
  apply (Base_of_element "database/migrations/" module);
    [right; now exists "database/migrations" | exact M1 | exact M4].
Qed.

(** *** The lines of the template *)

(** The byte occurs in no space rune. *)
Definition outside_spaces (c : ascii) : bool :=
  forallb (fun r => negb (has_byte c r) && negb (r =? "")%string)
          (strings.space_runes ++ map strings.rev_string strings.space_runes).

Lemma outside_spaces_runes (c : ascii) :
  outside_spaces c = true ->
  Forall (fun r => has_byte c r = false /\ r <> "") strings.space_runes
  /\ Forall (fun r => has_byte c r = false /\ r <> "")
            (map strings.rev_string strings.space_runes).
Proof.
  unfold outside_spaces. rewrite forallb_app. intros H.
  apply andb_true_iff in H as [H1 H2].
  split; apply Forall_forall; intros r Hr;
    [ apply (proj1 (forallb_forall _ _) H1) in Hr
    | apply (proj1 (forallb_forall _ _) H2) in Hr ];
    apply andb_true_iff in Hr as [Ha Hb];
    apply negb_true_iff in Ha, Hb; apply String.eqb_neq in Hb; now split.
Qed.

Lemma prefix_inside (c : ascii) (b r : string) :
  has_byte c r = false ->
  forall a, String.prefix r (a ++ String c b) = true ->
            exists a2, a = (r ++ a2)%string.
Proof.
  induction r as [| d r IH]; intros Hr a; [now exists a |].
  cbn [has_byte] in Hr. apply orb_false_elim in Hr as [Hd Hr].
  destruct a as [| e a]; cbn [append String.prefix].
  - destruct (ascii_dec d c) as [-> | _]; [| discriminate].
    now rewrite Ascii.eqb_refl in Hd.
  - destruct (ascii_dec d e) as [-> | _]; [| discriminate].
    intros H. destruct (IH Hr a H) as [a2 ->]. now exists a2.
Qed.

Lemma drop_length_app (r s : string) :
  strings.drop (String.length r) (r ++ s) = s.
Proof. induction r as [| d r IH]; [now destruct s | exact IH]. Qed.

Lemma rune_width_inside (c : ascii) (b : string) (runes : list string) :
  Forall (fun r => has_byte c r = false /\ r <> "") runes ->
  forall a, exists a2,
    strings.drop (strings.rune_width runes (a ++ String c b)) (a ++ String c b)
    = (a2 ++ String c b)%string.
Proof.
  induction 1 as [| r runes [Hr _] _ IH]; intros a.
  - exists a. now destruct a.
  - cbn [strings.rune_width].
    destruct (String.prefix r (a ++ String c b)) eqn:E; [| apply IH].
    destruct (prefix_inside c b r Hr a E) as [a2 ->].
    exists a2. rewrite string_app_assoc. apply drop_length_app.
Qed.

Lemma trim_left_keeps (c : ascii) (b : string) (runes : list string) :
  Forall (fun r => has_byte c r = false /\ r <> "") runes ->
  forall fuel a, exists a2,
    strings.trim_left fuel runes (a ++ String c b) = (a2 ++ String c b)%string.
Proof.
  intros Hr. induction fuel as [| fuel IH]; intros a; [now exists a |].
  cbn [strings.trim_left].
  destruct (rune_width_inside c b runes Hr a) as [a2 E].
  destruct (strings.rune_width runes (a ++ String c b)) as [| w];
    [now exists a |].
  rewrite E. apply IH.
Qed.

Lemma rune_width_head (c : ascii) (s : string) (runes : list string) :
  Forall (fun r => has_byte c r = false /\ r <> "") runes ->
  strings.rune_width runes (String c s) = 0%nat.
Proof.
  induction 1 as [| r runes [Hr Hne] _ IH]; [reflexivity |].
  cbn [strings.rune_width]. destruct r as [| d r]; [now contradiction Hne |].
  cbn [has_byte] in Hr. apply orb_false_elim in Hr as [Hd _].
  cbn [String.prefix]. destruct (ascii_dec d c) as [-> | _]; [| exact IH].
  now rewrite Ascii.eqb_refl in Hd.
Qed.

(** [TrimSpace] keeps a line up to a byte of it that is in no space rune,
    when the line starts with such a byte as well. *)
Lemma TrimSpace_keeps (c0 : ascii) (p : string) (c : ascii) (x : string) :
  outside_spaces c0 = true -> outside_spaces c = true ->
  exists y, strings.TrimSpace (String c0 p ++ String c x)
            = (String c0 p ++ String c y)%string.
Proof.
  intros H0 Hc.
  destruct (outside_spaces_runes c0 H0) as [L0 _].
  destruct (outside_spaces_runes c Hc) as [_ Rc].
  unfold strings.TrimSpace.
  assert (EL : strings.TrimLeftSpace (String c0 p ++ String c x)
               = (String c0 p ++ String c x)%string).
  { unfold strings.TrimLeftSpace. cbn [append String.length strings.trim_left].
    now rewrite (rune_width_head c0 _ _ L0). }
  rewrite EL. unfold strings.TrimRightSpace.
  rewrite rev_string_app. cbn [strings.rev_string].
  rewrite (string_app_assoc (strings.rev_string x)). cbn [append].
  match goal with
  | |- context [strings.trim_left ?n ?rs (?a ++ String c ?b)] =>
      destruct (trim_left_keeps c b rs Rc n a) as [a2 ->]
  end.
  exists (strings.rev_string a2).
  rewrite rev_string_app. cbn [strings.rev_string].
  rewrite rev_string_app, rev_string_involutive. cbn [strings.rev_string append].
  now rewrite !string_app_assoc.
Qed.

Section TemplateLines.
Import strings Splitter.

Lemma migration_line_plain (x : string) : plain ("-- Migration: " ++ x).
Proof.
  destruct (TrimSpace_keeps "-" "- " "M" ("igration: " ++ x) eq_refl eq_refl)
    as [y E].
  unfold plain, is_marker, is_down_marker, is_up_marker.
  change ("-- Migration: " ++ x)%string
    with (String "-" "- " ++ String "M" ("igration: " ++ x))%string.
  rewrite E. reflexivity.
Qed.

Lemma module_line_plain (x : string) : plain ("-- Module: " ++ x).
Proof.
  destruct (TrimSpace_keeps "-" "- " "M" ("odule: " ++ x) eq_refl eq_refl)
    as [y E].
  unfold plain, is_marker, is_down_marker, is_up_marker.
  change ("-- Module: " ++ x)%string
    with (String "-" "- " ++ String "M" ("odule: " ++ x))%string.
  rewrite E. reflexivity.
Qed.

Lemma description_line_plain (x : string) : plain ("-- Description: " ++ x).
Proof.
  destruct (TrimSpace_keeps "-" "- D" "e" ("scription: " ++ x) eq_refl eq_refl)
    as [y E].
  unfold plain, is_marker, is_down_marker, is_up_marker.
  change ("-- Description: " ++ x)%string
    with (String "-" "- D" ++ String "e" ("scription: " ++ x))%string.
  rewrite E. reflexivity.
Qed.

Definition up_placeholder : list string :=
  ["-- Add your UP migration SQL here"; ""; ""].

Definition down_placeholder : list string :=
  ["-- Add your DOWN migration SQL here (for rollback)"; ""; ""].

Lemma template_sections (filename module description : string) :
  has_byte LF filename = false ->
  has_byte LF module = false ->
  has_byte LF description = false ->
  splitMigrationContent (migration_template filename module description)
  = (text ([("-- Migration: " ++ filename)%string;
            ("-- Module: " ++ module)%string;
            ("-- Description: " ++ description)%string; ""]
             ++ up_placeholder)%list,
     text down_placeholder).
Proof.
  intros Hf Hm Hd.
  unfold splitMigrationContent, migration_template.
  rewrite <- (string_app_assoc "-- Migration: " filename).
  rewrite Split_first by (rewrite has_byte_app, Hf; reflexivity).
  rewrite <- (string_app_assoc "-- Module: " module).
  rewrite Split_first by (rewrite has_byte_app, Hm; reflexivity).
  rewrite <- (string_app_assoc "-- Description: " description).
  rewrite Split_first by (rewrite has_byte_app, Hd; reflexivity).
  replace (Split (text template_tail) LF) with template_tail
    by (vm_compute; reflexivity).
  set (h1 := ("-- Migration: " ++ filename)%string).
  set (h2 := ("-- Module: " ++ module)%string).
  set (h3 := ("-- Description: " ++ description)%string).
  assert (Hhead : Forall plain [h1; h2; h3; ""]).
  { constructor; [apply migration_line_plain |].
    constructor; [apply module_line_plain |].
    constructor; [apply description_line_plain |].
    constructor; [vm_compute; reflexivity | constructor]. }
  assert (Hup : Forall plain up_placeholder)
    by (repeat (constructor; [vm_compute; reflexivity |]); constructor).
  assert (Hdown : Forall plain down_placeholder)
    by (repeat (constructor; [vm_compute; reflexivity |]); constructor).
  change (h1 :: h2 :: h3 :: template_tail)
    with ([h1; h2; h3; ""] ++ "-- UP" :: up_placeholder
            ++ "-- DOWN" :: down_placeholder).
  rewrite scan_lines_app, (scan_plain_lines _ _ Hhead).
  cbn [inDownSection scan_start upLines downLines].
  rewrite scan_lines_cons, (scan_line_up _ "-- UP")
    by (vm_compute; reflexivity).
  rewrite scan_lines_app, (scan_plain_lines _ _ Hup).
  cbn [enter_section inDownSection upLines downLines].
  rewrite scan_lines_cons, (scan_line_down _ "-- DOWN")
    by (vm_compute; reflexivity).
  rewrite (scan_plain_lines _ _ Hdown).
  cbn [enter_section inDownSection upLines downLines].
  reflexivity.
Qed.

End TemplateLines.

(** *** A created file as the manager reads it *)

Section CreatedFile.
Context {PG : Database} {SS : SliceSort}.
Variable cast_integer : string -> option Z.

Lemma migration_filename_parts (n : Z) (description : string) :
  has_byte "/" description = false ->
  let f := migration_filename n description in
  has_byte "/" f = false /\ has_byte "_" f = true /\ element f
  /\ strings.SplitN2 f "_"
     = Some (Sprintf_03d n,
             (strings.ReplaceAll description " " "_" ++ ".sql")%string).
Proof.
  intros Hd f.
  assert (Hslash : has_byte "/" f = false).
  { unfold f, migration_filename. rewrite !has_byte_app.
    rewrite (Sprintf_03d_bytes "/" n eq_refl eq_refl).
    rewrite (ReplaceAll_keeps description " " "_" "/" ltac:(discriminate) Hd).
    reflexivity. }
  assert (Hu : has_byte "_" f = true).
  { unfold f, migration_filename. rewrite !has_byte_app.
    cbn [has_byte]. rewrite Ascii.eqb_refl. cbn [orb]. apply orb_true_r. }
  split; [exact Hslash |]. split; [exact Hu |]. split.
  - repeat split; try exact Hslash;
      intros E; rewrite E in Hu; discriminate Hu.
  - unfold f, migration_filename.
    apply (SplitN2_first (Sprintf_03d n)
             (strings.ReplaceAll description " " "_" ++ ".sql") "_").
    apply Sprintf_03d_bytes; reflexivity.
Qed.

(** The migrations that discovery returns hold the one of every visited
    path that ends in [.sql]. *)
Lemma loaded_holds (fs : FileSystem) (ms : list Migration) (path : string)
      (m : Migration) :
  loadMigrationsFromFiles fs = inr ms ->
  In path (walk fs) -> is_sql path = true ->
  parseMigrationFile fs path = inr m -> In m ms.
Proof.
  intros Hload Hin Hsql Hparse.
  destruct (walk_files_ok _ _ _ _ Hload) as (found & -> & Hp & Hall).
  cbn [app].
  assert (Hf : In path (map FilePath found))
    by (rewrite Hp; apply filter_In; now split).
  apply in_map_iff in Hf as (m' & <- & Hm').
  rewrite (Hall m' Hm') in Hparse. now injection Hparse as <-.
Qed.

(** X15: a file made by [CreateMigrationFile] reads back as the migration
    it was made for.  For a description without a slash, the path ends in
    .sql and parses to a migration whose version is the zero-padded next
    version, whose version number is the next version itself
    ([CAST ... AS INTEGER] gives a 32-bit integer, so it lies in the range
    assumed), and whose description is the given one with every underscore
    turned into a space.  When the module is a single path element, the
    file lies in the directory of that module below database/migrations,
    the module read back is the given one, and the migration is among
    those that discovery returns once the walk visits the path.  (For
    another module, [..] for one, the path may leave the tree that is
    walked.) *)
Theorem created_file_parses_back
  (fs : FileSystem) (db : DB) (module description path content : string)
  (n : Z) :
  getNextVersion cast_integer db = inr n ->
  (- 2 ^ 31 < n <= 2 ^ 31)%Z ->
  has_byte "/" description = false ->
  CreateMigrationFile cast_integer module description db
  = inr (path, content) ->
  ReadFile fs path = Some content ->
  is_sql path = true
  /\ exists m,
       parseMigrationFile fs path = inr m
       /\ Version m = Sprintf_03d n
       /\ version_number m = n
       /\ Description m = strings.ReplaceAll description "_" " "
       /\ (has_byte "_" description = false -> Description m = description)
       /\ FilePath m = path
       /\ (element module ->
           Module_ m = module
           /\ path = ("database/migrations/" ++ module ++ "/"
                        ++ migration_filename n description)%string
           /\ forall ms, loadMigrationsFromFiles fs = inr ms ->
                         In path (walk fs) -> In m ms).
Proof.
  intros Hn Hrange Hd Hc Hread.
  unfold CreateMigrationFile in Hc. rewrite Hn in Hc.
  injection Hc as <- <-.
  destruct (migration_filename_parts n description Hd)
    as (Hslash & Hu & Hel & Hsplit).
  set (f := migration_filename n description) in *.
  destruct (Join3_ends module f Hslash Hu) as (pre & Hpre & Epath).
  assert (Hbase : filepath.Base (Join3 migrationsDir module f) = f).
  { rewrite Epath. apply Base_of_element; [exact Hpre | apply Hel | exact Hslash]. }
  assert (Hsql : is_sql (Join3 migrationsDir module f) = true).
  { unfold is_sql. rewrite Epath. unfold f, migration_filename.
    rewrite <- !string_app_assoc. apply HasSuffix_sql. }
  split; [exact Hsql |].
  - destruct (parseMigrationFile fs (Join3 migrationsDir module f))
      as [perr | m0] eqn:Hparse.
    { exfalso. revert Hparse. unfold parseMigrationFile.
      rewrite Hread. cbv zeta. rewrite Hbase, Hsplit.
      destruct (Splitter.splitMigrationContent
                  (migration_template f module description)); discriminate. }
    assert (Hm0 : m0 = mkMigration (Sprintf_03d n)
                         (strings.ReplaceAll
                            (strings.TrimSuffix
                               (strings.ReplaceAll description " " "_" ++ ".sql")
                               ".sql") "_" " ")
                         (filepath.Base
                            (filepath.Dir (Join3 migrationsDir module f)))
                         (UpSQL m0) (DownSQL m0)
                         (Join3 migrationsDir module f)).
    { revert Hparse. unfold parseMigrationFile.
      rewrite Hread. cbv zeta. rewrite Hbase, Hsplit.
      destruct (Splitter.splitMigrationContent
                  (migration_template f module description)) as [up down].
      now intros [= <-]. }
    exists m0. split; [reflexivity |]. rewrite Hm0.
    cbn [Version Description FilePath Module_].
    assert (Hdesc :
              strings.ReplaceAll
                (strings.TrimSuffix
                   (strings.ReplaceAll description " " "_" ++ ".sql") ".sql")
                "_" " "
              = strings.ReplaceAll description "_" " ")
      by (rewrite TrimSuffix_sql; apply ReplaceAll_back).
    split; [reflexivity |]. split.
    { unfold version_number. cbn [Version].
      assert (E : (2 ^ 31 = 2147483648)%Z) by reflexivity.
      assert (E10 : (10 ^ 10 = 10000000000)%Z) by reflexivity.
      rewrite Atoi_Sprintf_03d by lia. reflexivity. }
    split; [exact Hdesc |]. split.
    { intros Hund. rewrite Hdesc. now apply ReplaceAll_id. }
    split; [reflexivity |].
    intros Hm. split; [apply Dir_Join3; assumption |].
    split; [apply Join3_of_element; assumption |].
    intros ms Hload Hin. rewrite <- Hm0.
    exact (loaded_holds _ _ _ _ Hload Hin Hsql Hparse).
Qed.

(** X16: the sections of a created file.  When neither the module nor the
    description holds a line feed, the forward section of the file is the
    three header lines, a blank line and the UP placeholder, and the reverse
    section is the DOWN placeholder: the header is part of the forward
    script, and neither section holds a statement. *)
Theorem created_file_sections
  (db : DB) (module description path content : string) (n : Z) :
  getNextVersion cast_integer db = inr n ->
  has_byte strings.LF module = false ->
  has_byte strings.LF description = false ->
  CreateMigrationFile cast_integer module description db
  = inr (path, content) ->
  Splitter.splitMigrationContent content
  = (text ([("-- Migration: " ++ migration_filename n description)%string;
            ("-- Module: " ++ module)%string;
            ("-- Description: " ++ description)%string; ""]
             ++ up_placeholder),
     text down_placeholder).
Proof.
  intros Hn Hm Hd Hc.
  unfold CreateMigrationFile in Hc. rewrite Hn in Hc.
  injection Hc as _ <-.
  apply template_sections; [| exact Hm | exact Hd].
  unfold migration_filename. rewrite !has_byte_app.
  rewrite (Sprintf_03d_bytes strings.LF n eq_refl eq_refl).
  rewrite (ReplaceAll_keeps description " " "_" strings.LF
             ltac:(discriminate) Hd).
  reflexivity.
Qed.

(** X17: the runner accepts versions that the file creator cannot number.
    Once a run has committed a migration whose version the database cannot
    cast to an integer, [CreateMigrationFile] fails on the resulting
    database, whatever module and description it is given. *)
Theorem uncastable_version_blocks_new_files
  (faults : list bool) (fs : FileSystem) (db : DB)
  (module description : string) :
  let '(res, db', evs) := RunMigrations faults fs db in
  forall m, In m (committed evs) ->
            cast_integer (Version m) = None ->
            CreateMigrationFile cast_integer module description db'
            = inl (wrapError "failed to get next version"
                     (wrapError "failed to get max version" driver_error)).
Proof.
  destruct (RunMigrations faults fs db) as [[res db'] evs] eqn:E.
  intros m Hin Hcast.
  destruct (RunMigrations_cases _ _ _ _ _ _ E)
    as [(e & _ & _ & _ & ->) | (t0 & _ & Ht0 & _ & R)]; [destruct Hin |].
  destruct (loadMigrationsFromFiles fs) as [err | ms].
  - destruct R as (_ & _ & ->). destruct Hin.
  - pose proof (table_ledger _ _ Ht0) as Hl0.
    destruct (run_added _ _ _ _ _ (execute_pending_run _ _ _ _ _ _ Hl0 R)
                _ Hl0) as (added & La & _ & F).
    destruct (Forall2_right _ _ _ F _ Hin) as (r & Hr & t & -> & _).
    unfold CreateMigrationFile, getNextVersion. rewrite La.
    rewrite (cast_versions_none cast_integer (Legacy.rows t0 ++ added)
               (entry_of m t)); [reflexivity | | exact Hcast].
    apply in_or_app. now right.
Qed.

End CreatedFile.

(** A cast that reads the decimal numerals of the INTEGER range and raises
    an error on every other text. *)
Definition decimal_cast (v : string) : option Z :=
  match strconv.Atoi v with
  | (n, None) =>
      if ((- 2 ^ 31 <=? n) && (n <? 2 ^ 31))%Z then Some n else None
  | (_, Some _) => None
  end.

(** The file that is created on [out_of_band] for the module
    user_management and the description "add user phone". *)
Definition phone_file : string * string :=
  ("database/migrations/user_management/004_add_user_phone.sql",
   migration_template "004_add_user_phone.sql" "user_management"
                      "add user phone").

Definition phone_directory : FileSystem := files_of [phone_file].

Lemma next_version_exceeds_applied_witness :
  ledger out_of_band = Some [sensors_row 10; users_row 20]
  /\ getNextVersion decimal_cast out_of_band = inr 4%Z
  /\ forall r, In r [sensors_row 10; users_row 20] ->
       exists k, decimal_cast (version r) = Some k /\ (k < 4)%Z.
Proof.
  assert (G : getNextVersion decimal_cast out_of_band = inr 4%Z)
    by (vm_compute; reflexivity).
  destruct (next_version_exceeds_applied decimal_cast out_of_band
              [sensors_row 10; users_row 20] eq_refl) as (_ & H & _).
  split; [reflexivity |]. split; [exact G |].
  exact (proj1 (H 4%Z G)).
Defined.

Lemma created_file_parses_back_witness :
  getNextVersion decimal_cast out_of_band = inr 4%Z
  /\ (- 2 ^ 31 < 4 <= 2 ^ 31)%Z
  /\ has_byte "/" "add user phone" = false
  /\ CreateMigrationFile decimal_cast "user_management" "add user phone"
       out_of_band = inr phone_file
  /\ ReadFile phone_directory (fst phone_file) = Some (snd phone_file)
  /\ exists m,
       parseMigrationFile phone_directory (fst phone_file) = inr m
       /\ Version m = "004" /\ version_number m = 4%Z
       /\ Description m = "add user phone"
       /\ Module_ m = "user_management"
       /\ forall ms, loadMigrationsFromFiles phone_directory = inr ms ->
                     In (fst phone_file) (walk phone_directory) -> In m ms.
Proof.
  assert (G : getNextVersion decimal_cast out_of_band = inr 4%Z)
    by (vm_compute; reflexivity).
  assert (R : (- 2 ^ 31 < 4 <= 2 ^ 31)%Z) by (vm_compute; split; [reflexivity | discriminate]).
  assert (C : CreateMigrationFile decimal_cast "user_management"
                "add user phone" out_of_band
              = inr (fst phone_file, snd phone_file))
    by (vm_compute; reflexivity).
  assert (F : ReadFile phone_directory (fst phone_file) = Some (snd phone_file))
    by (vm_compute; reflexivity).
  split; [exact G |]. split; [exact R |]. split; [reflexivity |].
  split; [exact C |]. split; [exact F |].
  destruct (created_file_parses_back decimal_cast phone_directory out_of_band
              "user_management" "add user phone"
              (fst phone_file) (snd phone_file) 4%Z G R eq_refl C F)
    as (_ & m & P & V & N & _ & D & _ & M).
  exists m. split; [exact P |].
  split; [rewrite V; vm_compute; reflexivity |]. split; [exact N |].
  split; [apply D; reflexivity |].
  assert (E : element "user_management") by (repeat split; discriminate).
  destruct (M E) as (M1 & _ & M3). split; [exact M1 | exact M3].
Defined.

(** With the module [..] the new file is placed outside the directory of
    the migrations. *)
Lemma parent_module_leaves_the_tree :
  Join3 migrationsDir ".." "004_add_user_phone.sql"
  = "database/004_add_user_phone.sql".
Proof. vm_compute; reflexivity. Qed.

Lemma created_file_sections_witness :
  getNextVersion decimal_cast out_of_band = inr 4%Z
  /\ has_byte strings.LF "user_management" = false
  /\ has_byte strings.LF "add user phone" = false
  /\ CreateMigrationFile decimal_cast "user_management" "add user phone"
       out_of_band = inr phone_file
  /\ Splitter.splitMigrationContent (snd phone_file)
     = (text ["-- Migration: 004_add_user_phone.sql";
              "-- Module: user_management";
              "-- Description: add user phone"; "";
              "-- Add your UP migration SQL here"; ""; ""],
        text ["-- Add your DOWN migration SQL here (for rollback)"; ""; ""]).
Proof.
  assert (G : getNextVersion decimal_cast out_of_band = inr 4%Z)
    by (vm_compute; reflexivity).
  assert (C : CreateMigrationFile decimal_cast "user_management"
                "add user phone" out_of_band
              = inr (fst phone_file, snd phone_file))
    by (vm_compute; reflexivity).
  split; [exact G |]. split; [reflexivity |]. split; [reflexivity |].
  split; [exact C |].
  rewrite (created_file_sections decimal_cast out_of_band
             "user_management" "add user phone"
             (fst phone_file) (snd phone_file) 4%Z G eq_refl eq_refl C).
  vm_compute; reflexivity.
Defined.

Lemma uncastable_version_blocks_new_files_witness :
  exists m rest,
    committed (snd (RunMigrations [] named_scripts fresh_database)) = m :: rest
    /\ Version m = "abc"
    /\ decimal_cast (Version m) = None
    /\ CreateMigrationFile decimal_cast "user_management" "add user phone"
         (snd (fst (RunMigrations [] named_scripts fresh_database)))
       = inl (wrapError "failed to get next version"
                (wrapError "failed to get max version" driver_error)).
Proof.
  pose proof (uncastable_version_blocks_new_files decimal_cast [] named_scripts
                fresh_database "user_management" "add user phone") as H.
  rewrite (triple_eta (RunMigrations [] named_scripts fresh_database)) in H.
  destruct (committed (snd (RunMigrations [] named_scripts fresh_database)))
    as [| m rest] eqn:E; [vm_compute in E; discriminate E |].
  assert (V : Version m = "abc")
    by (vm_compute in E; injection E as <- _; reflexivity).
  assert (N : decimal_cast (Version m) = None)
    by (rewrite V; vm_compute; reflexivity).
  exists m, rest. split; [reflexivity |]. split; [exact V |].
  split; [exact N |].
  apply (H m); [now left | exact N].
Defined.


(** ** The reset action of the migration command *)

Section Reset.
Context {PG : Database} {SS : SliceSort}.

(** One call [fmt.Scanln(&response)].  The standard input is given by what
    each call stores: [Some token], or [None] for a call that stores
    nothing (an empty line, the end of the input) and leaves the variable
    as it is. *)
Definition Scanln (stdin : list (option string)) (response : string)
  : string * list (option string) :=
  match stdin with
  | [] => (response, [])
  | Some token :: rest => (token, rest)
  | None :: rest => (response, rest)
  end.

Definition managed_schemas : list string := ["user_management"; "sensor_data"].

Definition drop_schema_sql (name : string) : string :=
  ("DROP SCHEMA IF EXISTS " ++ name ++ " CASCADE")%string.

(** The loop [for _, schema := range schemas]; every statement is its own
    transaction. *)
Fixpoint drop_schemas (names : list string) (db : DB) : option error * DB :=
  match names with
  | [] => (None, db)
  | name :: rest =>
      match exec_sql (drop_schema_sql name) (schema db) with
      | None =>
          (Some (wrapError ("failed to drop schema " ++ name) driver_error), db)
      | Some schema' => drop_schemas rest (mkDB (table db) schema' (now db))
      end
  end.

(** [DROP TABLE IF EXISTS public.migrations], which fails on a driver
    fault. *)
Definition drop_migrations_table (fault : bool) (db : DB) : option error * DB :=
  if fault
  then (Some (wrapError "failed to drop migrations table" driver_error), db)
  else (None, mkDB None (schema db) (now db)).

(** [faults] are the driver faults met by the statements on the tracking
    table: the first one by [DROP TABLE], the others by the run that
    follows. *)
Definition resetDatabase (faults : list bool) (fs : FileSystem)
           (environment : string) (stdin : list (option string)) (db : DB)
  : option error * DB * list event :=
  if (environment =? "production")%string
  then (Some (errorString "reset not allowed in production"), db, [])
  else
    let '(response, stdin1) := Scanln stdin "" in
    if negb (response =? "RESET")%string then (None, db, [])
    else
      let '(response2, _) := Scanln stdin1 response in
      if negb (response2 =? "YES")%string then (None, db, [])
      else
        match drop_schemas managed_schemas db with
        | (Some err, db1) => (Some err, db1, [])
        | (None, db1) =>
            match drop_migrations_table (hd false faults) db1 with
            | (Some err, db2) => (Some err, db2, [])
            | (None, db2) =>
                match RunMigrations (tl faults) fs db2 with
                | (Some err, db3, evs) =>
                    (Some (wrapError "failed to re-run migrations" err),
                     db3, evs)
                | (None, db3, evs) => (None, db3, evs)
                end
            end
        end.

Lemma drop_schemas_ledger (names : list string) :
  forall db,
    table (snd (drop_schemas names db)) = table db
    /\ now (snd (drop_schemas names db)) = now db
    /\ forall err, fst (drop_schemas names db) = Some err ->
         exists name, In name names
                      /\ err = wrapError ("failed to drop schema " ++ name)
                                         driver_error.
Proof.
  induction names as [| name rest IH]; intros db; cbn [drop_schemas].
  - split; [reflexivity |]. split; [reflexivity | discriminate].
  - destruct (exec_sql (drop_schema_sql name) (schema db)) as [s |].
    + destruct (IH (mkDB (table db) s (now db))) as (L & N & E).
      split; [exact L |]. split; [exact N |].
      intros err Herr. destruct (E err Herr) as (n & Hn & ->).
      exists n. split; [now right | reflexivity].
    + split; [reflexivity |]. split; [reflexivity |].
      intros err [= <-]. exists name. split; [now left | reflexivity].
Qed.

(** X18: the reset acts only on a double confirmation outside production.
    In the production environment it returns an error and leaves the
    database as it is.  Elsewhere, unless the first answer stored is RESET
    and the second one YES, it leaves the database as it is and returns no
    error, so that the command reports a reset that did not happen. *)
Theorem reset_needs_both_confirmations
  (faults : list bool) (fs : FileSystem) (environment : string)
  (stdin : list (option string)) (db : DB) :
  let '(res, db', evs) := resetDatabase faults fs environment stdin db in
  (environment = "production" ->
   res = Some (errorString "reset not allowed in production")
   /\ db' = db /\ evs = [])
  /\ (environment <> "production" ->
      (forall rest, stdin <> Some "RESET" :: Some "YES" :: rest) ->
      res = None /\ db' = db /\ evs = []).
Proof.
  destruct (resetDatabase faults fs environment stdin db)
    as [[res db'] evs] eqn:E.
  unfold resetDatabase in E. split.
  - intros ->. cbn in E. now injection E as <- <- <-.
  - intros Henv Hin. apply String.eqb_neq in Henv. rewrite Henv in E.
    destruct stdin as [| [t1 |] stdin1]; cbn [Scanln] in E;
      [cbn in E; now injection E as <- <- <- | |
       cbn in E; now injection E as <- <- <-].
    destruct (t1 =? "RESET")%string eqn:E1; cbn [negb] in E;
      [| now injection E as <- <- <-].
    apply String.eqb_eq in E1. subst t1.
    destruct stdin1 as [| [t2 |] rest]; cbn [Scanln] in E;
      [cbn in E; now injection E as <- <- <- | |
       cbn in E; now injection E as <- <- <-].
    destruct (t2 =? "YES")%string eqn:E2; cbn [negb] in E;
      [| now injection E as <- <- <-].
    apply String.eqb_eq in E2. subst t2. now contradiction (Hin rest).
Qed.

(** X19: what a confirmed reset leaves behind.  Either a schema could not
    be dropped, or the tracking table could not: the reset stops with that
    error, and the table still holds every row it held, also those of the
    schemas dropped before the failure.  Or the table was dropped and could
    not be created again: there is no ledger.  Or the ledger holds only
    rows written by the run that followed the drops, one for each
    migration it committed, in order; an error is then that of the run. *)
Theorem reset_rebuilds_ledger
  (faults : list bool) (fs : FileSystem) (environment : string)
  (rest : list (option string)) (db : DB) :
  environment <> "production" ->
  let '(res, db', evs) :=
    resetDatabase faults fs environment
                  (Some "RESET" :: Some "YES" :: rest) db in
  (exists name,
      In name managed_schemas
      /\ res = Some (wrapError ("failed to drop schema " ++ name) driver_error)
      /\ table db' = table db /\ evs = [])
  \/ (res = Some (wrapError "failed to drop migrations table" driver_error)
      /\ table db' = table db /\ evs = [])
  \/ (ledger db' = None /\ evs = []
      /\ exists e,
           res = Some (wrapError "failed to re-run migrations"
                         (wrapError "failed to create migrations table" e)))
  \/ (exists added,
        ledger db' = Some added
        /\ Forall2 (fun r m => exists t, r = entry_of m t /\ (now db <= t)%Z)
                   added (committed evs)
        /\ (res = None
            \/ exists err, res = Some (wrapError "failed to re-run migrations"
                                                  err))).
Proof.
  intros Henv. apply String.eqb_neq in Henv.
  destruct (resetDatabase faults fs environment
              (Some "RESET" :: Some "YES" :: rest) db)
    as [[res db'] evs] eqn:E.
  unfold resetDatabase in E. rewrite Henv in E. cbn [Scanln] in E.
  change (negb ("RESET" =? "RESET")%string) with false in E.
  change (negb ("YES" =? "YES")%string) with false in E. cbv iota in E.
  destruct (drop_schemas_ledger managed_schemas db) as (L & N & D).
  destruct (drop_schemas managed_schemas db) as [[err |] db1];
    cbn [fst snd] in L, N, D.
  { injection E as <- <- <-. left.
    destruct (D err eq_refl) as (name & Hname & ->).
    exists name. repeat split; assumption. }
  unfold drop_migrations_table in E.
  destruct (hd false faults).
  { injection E as <- <- <-. right. left. repeat split. exact L. }
  set (db2 := mkDB None (schema db1) (now db1)) in *.
  destruct (RunMigrations (tl faults) fs db2) as [[r3 db3] evs3] eqn:R.
  assert (H : (ledger db3 = None /\ evs3 = []
               /\ exists e, r3 = Some (wrapError
                                         "failed to create migrations table" e))
              \/ exists added,
                   ledger db3 = Some added
                   /\ Forall2 (fun r m => exists t, r = entry_of m t
                                                    /\ (now db <= t)%Z)
                              added (committed evs3)).
  { pose proof (prepared_keys (tl faults) db2) as K.
    change (ledger db2) with (@None (list LedgerEntry)) in K.
    destruct (RunMigrations_cases _ _ _ _ _ _ R)
      as [(e & _ & -> & -> & ->) | (t0 & _ & Ht0 & _ & R0)].
    - destruct K as [K | K].
      + left. split; [exact K |]. split; [reflexivity |]. now exists e.
      + right. exists []. split; [exact K | constructor].
    - pose proof (table_ledger _ _ Ht0) as Hl0.
      assert (Hr : Legacy.rows t0 = []).
      { destruct K as [K | K]; rewrite Hl0 in K; [discriminate |].
        now injection K. }
      rewrite Hr in Hl0. right.
      destruct (loadMigrationsFromFiles fs) as [e | ms].
      + destruct R0 as (_ & -> & ->). exists [].
        split; [exact Hl0 | constructor].
      + destruct (run_added _ _ _ _ _
                    (execute_pending_run _ _ _ _ _ _ Hl0 R0) _ Hl0)
          as (added & La & _ & F).
        exists added. split; [exact La |].
        eapply Forall2_impl; [| exact F].
        intros r m (t & -> & Ht). exists t. split; [reflexivity |].
        change (now (prepared (tl faults) db2)) with (now db1) in Ht. lia. }
  destruct H as [(Hl & -> & e & ->) | (added & La & F)].
  - injection E as <- <- <-. right. right. left.
    split; [exact Hl |]. split; [reflexivity |]. now exists e.
  - right. right. right.
    destruct r3 as [e |]; injection E as <- <- <-;
      exists added; (split; [exact La |]); (split; [exact F |]);
      [right; now exists e | now left].
Qed.

End Reset.

(** A reset of [out_of_band] over the three scripts. *)
Definition reset_run (faults : list bool) (stdin : list (option string))
  : option error * DB * list event :=
  resetDatabase faults three_scripts "development" stdin out_of_band.

Lemma reset_needs_both_confirmations_witness :
  "development" <> "production"
  /\ (forall rest, [Some "RESET"; None] <> Some "RESET" :: Some "YES" :: rest)
  /\ reset_run [] [Some "RESET"; None] = (None, out_of_band, []).
Proof.
  assert (H1 : "development" <> "production") by discriminate.
  assert (H2 : forall rest : list (option string),
             [Some "RESET"; None] <> Some "RESET" :: Some "YES" :: rest)
    by discriminate.
  split; [exact H1 |]. split; [exact H2 |].
  pose proof (reset_needs_both_confirmations [] three_scripts "development"
                [Some "RESET"; None] out_of_band) as H.
  fold (reset_run [] [Some "RESET"; None]) in H.
  rewrite (triple_eta (reset_run [] [Some "RESET"; None])) in H |- *.
  destruct H as [_ H]. destruct (H H1 H2) as (-> & -> & ->). reflexivity.
Defined.

Lemma reset_rebuilds_ledger_witness :
  "development" <> "production"
  /\ (exists added,
         ledger (snd (fst (reset_run [] [Some "RESET"; Some "YES"])))
         = Some added
         /\ map version added = ["001"; "002"; "003"])
  /\ fst (fst (reset_run [true] [Some "RESET"; Some "YES"]))
     = Some (wrapError "failed to drop migrations table" driver_error)
  /\ ledger (snd (fst (reset_run [true] [Some "RESET"; Some "YES"])))
     = ledger out_of_band.
Proof.
  assert (H1 : "development" <> "production") by discriminate.
  split; [exact H1 |]. split.
  - pose proof (reset_rebuilds_ledger [] three_scripts "development" []
                  out_of_band H1) as H.
    fold (reset_run [] [Some "RESET"; Some "YES"]) in H.
    rewrite (triple_eta (reset_run [] [Some "RESET"; Some "YES"])) in H.
    assert (Hc : ledger (snd (fst (reset_run [] [Some "RESET"; Some "YES"])))
                 = Some [users_row 21;
                         mkEntry "002" "create roles" "user_management"
                           "database/migrations/user_management/002_create_roles.sql" 22;
                         sensors_row 23])
      by (vm_compute; reflexivity).
    destruct H as [(name & _ & Hres & _)
                  | [(Hres & _) | [(Hl & _) | (added & La & _)]]].
    + vm_compute in Hres. discriminate Hres.
    + vm_compute in Hres. discriminate Hres.
    + rewrite Hc in Hl. discriminate Hl.
    + exists added. split; [exact La |].
      rewrite Hc in La. injection La as <-. reflexivity.
  - split; vm_compute; reflexivity.
Defined.

(** ** The upgrade of a tracking table of the old structure *)

Section LegacyFacts.
Import Legacy.

(** X20: the upgrade of the tracking table.  A call of
    [createMigrationsTable] that returns no error leaves a table with the
    module column in which the version, description and time of every
    row are as before, and a further call without driver faults returns
    the same table.  When the table had no module column before, every
    row written before any column was added has the module legacy
    afterwards. *)
Theorem table_upgrade_keeps_rows
  (faults : list bool) (t t' : Table) :
  well_formed t ->
  createMigrationsTable faults (Some t) = (None, Some t') ->
  has_module t' = true
  /\ map key (rows t') = map key (rows t)
  /\ createMigrationsTable [] (Some t') = (None, Some t')
  /\ (has_module t = false ->
      has_file_path t' = true
      /\ Forall (fun r => module r = Some "legacy") (rows t')).
Proof.
  intros [Wm _] H. unfold createMigrationsTable in H.
  assert (Hm : exists f, migrateMigrationsTable f t = (None, t')).
  { destruct faults as [| [] rest]; [| discriminate H |];
      cbn [tl] in H;
      [destruct (migrateMigrationsTable [] t) as [[e |] t1] eqn:E
      | destruct (migrateMigrationsTable rest t) as [[e |] t1] eqn:E];
      try discriminate H; injection H as <-; eauto. }
  destruct Hm as [f Hm].
  destruct (has_module t) eqn:M.
  - pose proof (migrate_with_module f t M) as S. rewrite Hm in S.
    cbn [snd] in S. subst t'.
    split; [exact M |]. split; [reflexivity |]. split; [| discriminate].
    unfold createMigrationsTable, migrateMigrationsTable. cbn. now rewrite M.
  - destruct (migrate_result f t M _ _ Hm) as (K & _ & R).
    destruct (R eq_refl) as (M' & F' & _ & Rows).
    split; [exact M' |]. split; [exact K |]. split.
    + unfold createMigrationsTable, migrateMigrationsTable. cbn. now rewrite M'.
    + intros _. split; [exact F' |]. rewrite Rows.
      apply default_module_all, Wm. reflexivity.
Qed.

(** X21: an interrupted upgrade is never resumed.  When the upgrade of a
    table without the module column stops with an error after it changed
    the table, the table has the module column and the module of every
    row is still NULL; every later call of [createMigrationsTable] leaves
    that table exactly as it is, whether it returns an error or not, so
    the default module is never assigned and a file_path column that was
    not added is never added. *)
Theorem interrupted_upgrade_is_never_resumed
  (faults : list bool) (t t1 : Table) (err : error) :
  well_formed t ->
  has_module t = false ->
  migrateMigrationsTable faults t = (Some err, t1) ->
  t1 <> t ->
  has_module t1 = true
  /\ Forall (fun r => module r = None) (rows t1)
  /\ forall later, snd (createMigrationsTable later (Some t1)) = Some t1.
Proof.
  intros [Wm _] M H Hne.
  assert (M1 : has_module t1 = true).
  { destruct (migrate_result faults t M _ _ H) as (_ & [-> | M1] & _);
      [now contradiction Hne | exact M1]. }
  split; [exact M1 |]. split.
  - specialize (Wm M). revert H. unfold migrateMigrationsTable.
    destruct (Exec check faults t) as [[c |] f1]; [| intros [= _ <-]; exact Wm].
    rewrite M.
    destruct (Exec add_module f1 t) as [[ta |] f2] eqn:EA;
      [| intros [= _ <-]; exact Wm].
    assert (Ra : rows ta = rows t).
    { revert EA. unfold Exec, add_module. rewrite M.
      destruct f1 as [| [] r]; intros [= <- _]; reflexivity || discriminate. }
    destruct (Exec add_file_path f2 ta) as [[tb |] f3] eqn:EB;
      [| intros [= _ <-]; now rewrite Ra].
    assert (Rb : rows tb = rows ta).
    { revert EB. unfold Exec, add_file_path.
      destruct (has_file_path ta); destruct f2 as [| [] r];
        intros [= <- _] || intros [=]; reflexivity. }
    destruct (Exec set_legacy f3 tb) as [[tc |] f4];
      intros [= _ <-] || intros [=]. now rewrite Rb, Ra.
  - intros later. unfold createMigrationsTable.
    destruct later as [| [] rest]; [| reflexivity |]; cbn [tl].
    + pose proof (migrate_with_module [] t1 M1) as S.
      destruct (migrateMigrationsTable [] t1) as [[e |] t2];
        cbn [snd] in *; now subst.
    + pose proof (migrate_with_module rest t1 M1) as S.
      destruct (migrateMigrationsTable rest t1) as [[e |] t2];
        cbn [snd] in *; now subst.
Qed.

End LegacyFacts.

Lemma old_table_well_formed : Legacy.well_formed old_table.
Proof. split; intros _; repeat constructor. Qed.

Lemma table_upgrade_keeps_rows_witness :
  Legacy.well_formed old_table
  /\ Legacy.createMigrationsTable [] (Some old_table)
     = (None,
        Some (Legacy.mkTable true true
                [Legacy.mkRow "001" "create users" (Some "legacy") None 5]))
  /\ Legacy.createMigrationsTable []
       (Some (Legacy.mkTable true true
                [Legacy.mkRow "001" "create users" (Some "legacy") None 5]))
     = (None,
        Some (Legacy.mkTable true true
                [Legacy.mkRow "001" "create users" (Some "legacy") None 5])).
Proof.
  assert (C : Legacy.createMigrationsTable [] (Some old_table)
              = (None,
                 Some (Legacy.mkTable true true
                         [Legacy.mkRow "001" "create users" (Some "legacy")
                                       None 5])))
    by (vm_compute; reflexivity).
  split; [exact old_table_well_formed |]. split; [exact C |].
  exact (proj1 (proj2 (proj2
           (table_upgrade_keeps_rows [] old_table _ old_table_well_formed C)))).
Defined.

Lemma interrupted_upgrade_is_never_resumed_witness :
  Legacy.well_formed old_table
  /\ Legacy.has_module old_table = false
  /\ Legacy.migrateMigrationsTable [false; false; true] old_table
     = (Some (wrapError "failed to add file_path column" driver_error),
        Legacy.mkTable true false (Legacy.rows old_table))
  /\ Legacy.mkTable true false (Legacy.rows old_table) <> old_table
  /\ forall later,
       snd (Legacy.createMigrationsTable later
              (Some (Legacy.mkTable true false (Legacy.rows old_table))))
       = Some (Legacy.mkTable true false (Legacy.rows old_table)).
Proof.
  assert (M : Legacy.migrateMigrationsTable [false; false; true] old_table
              = (Some (wrapError "failed to add file_path column" driver_error),
                 Legacy.mkTable true false (Legacy.rows old_table)))
    by (vm_compute; reflexivity).
  assert (N : Legacy.mkTable true false (Legacy.rows old_table) <> old_table)
    by discriminate.
  split; [exact old_table_well_formed |]. split; [reflexivity |].
  split; [exact M |]. split; [exact N |].
  exact (proj2 (proj2
           (interrupted_upgrade_is_never_resumed [false; false; true]
              old_table _ _ old_table_well_formed eq_refl M N))).
Defined.


(** ** Reading a tracking table that holds NULLs *)

Section LegacyQueries.
Import Legacy.

(** [ORDER BY executed_at DESC LIMIT 1]: a row with the greatest time,
    whichever the server picks among equal ones. *)
Variable pick : list Row -> option Row.
Hypothesis pick_none : forall l, pick l = None -> l = [].
Hypothesis pick_latest :
  forall l r, pick l = Some r ->
    In r l /\ forall r', In r' l -> (executed_at r' <= executed_at r)%Z.

(** [ORDER BY version ASC], in the collation of the database. *)
Variable by_version : list Row -> list Row.
Hypothesis by_version_perm : forall l, Permutation l (by_version l).

(** The loop [for rows.Next()] of [GetMigrationStatus]: version,
    description, module and time of every row. *)
Fixpoint scan_status (l : list Row) (status : list (string * string * string * Z))
  : error + list (string * string * string * Z) :=
  match l with
  | [] => inr status
  | r :: rest =>
      match module r with
      | None => inl (wrapError "failed to scan row" driver_error)
      | Some m =>
          scan_status rest
            (status ++ [(version r, description r, m, executed_at r)])
      end
  end.

Definition GetMigrationStatus (table : option Table)
  : error + list (string * string * string * Z) :=
  match table with
  | None => inl (wrapError "failed to query migrations" driver_error)
  | Some t =>
      if has_module t then scan_status (by_version (rows t)) []
      else inl (wrapError "failed to query migrations" driver_error)
  end.

Lemma scan_status_ok (l : list Row) :
  Forall (fun r => module r <> None) l ->
  forall status, exists more,
    scan_status l status = inr (status ++ more)
    /\ map (fun s => (fst (fst (fst s)), snd (fst (fst s)), snd s)) more
       = map key l.
Proof.
  induction 1 as [| r l Hr _ IH]; intros status.
  - exists []. now rewrite app_nil_r.
  - cbn [scan_status]. destruct (module r) as [m |]; [| now contradiction Hr].
    destruct (IH (status ++ [(version r, description r, m, executed_at r)]))
      as (more & -> & K).
    exists ((version r, description r, m, executed_at r) :: more).
    rewrite <- app_assoc. split; [reflexivity |].
    cbn [map fst snd]. now rewrite K.
Qed.

Lemma scan_status_null (l : list Row) :
  Exists (fun r => module r = None) l ->
  forall status,
    scan_status l status = inl (wrapError "failed to scan row" driver_error).
Proof.
  induction 1 as [r l Hr | r l _ IH]; intros status; cbn [scan_status].
  - now rewrite Hr.
  - destruct (module r); [apply IH | reflexivity].
Qed.

(** X22: the status listing needs a module in every row.  On a table with
    the module column, [GetMigrationStatus] fails exactly when some row
    has a NULL module, and then with the scan error, returning no row at
    all; otherwise it returns one entry for each row, holding the version,
    description and time of the rows in the order of the query. *)
Theorem status_needs_every_module (t : Table) :
  has_module t = true ->
  (Exists (fun r => module r = None) (rows t) ->
   GetMigrationStatus (Some t)
   = inl (wrapError "failed to scan row" driver_error))
  /\ (Forall (fun r => module r <> None) (rows t) ->
      exists status,
        GetMigrationStatus (Some t) = inr status
        /\ map (fun s => (fst (fst (fst s)), snd (fst (fst s)), snd s)) status
           = map key (by_version (rows t))
        /\ List.length status = List.length (rows t)).
Proof.
  intros M. unfold GetMigrationStatus. rewrite M. split.
  - intros H. apply scan_status_null.
    apply Exists_exists in H as (r & Hr & Hn). apply Exists_exists.
    exists r. split; [| exact Hn].
    eapply Permutation_in; [apply by_version_perm | exact Hr].
  - intros H.
    assert (H' : Forall (fun r => module r <> None) (by_version (rows t))).
    { apply Forall_forall. intros r Hr.
      rewrite Forall_forall in H. apply H.
      eapply Permutation_in; [apply Permutation_sym, by_version_perm | exact Hr]. }
    destruct (scan_status_ok _ H' []) as (status & E & K).
    exists status. split; [exact E |]. split; [exact K |].
    rewrite <- (length_map (fun s => (fst (fst (fst s)), snd (fst (fst s)), snd s))),
      K, length_map.
    symmetry. apply Permutation_length, by_version_perm.
Qed.

Lemma default_module_file_path (l : list Row) :
  Forall (fun r => file_path r = None) l ->
  Forall (fun r => file_path r = None) (map default_module l).
Proof.
  induction 1 as [| r l Hr _ IH]; [constructor |].
  cbn [map]. constructor; [| exact IH].
  unfold default_module. destruct (module r); exact Hr.
Qed.

(** X23: upgraded rows cannot be rolled back.  After
    [createMigrationsTable] has upgraded, without an error, a table that
    had no file_path column and holds a row, the query of [Rollback] fails,
    because the file path of the latest row is NULL: the rollback returns
    the error failed to get last migration and sends nothing else. *)
Theorem upgraded_rows_cannot_be_rolled_back
  (faults : list bool) (t t' : Table) :
  well_formed t ->
  has_file_path t = false ->
  rows t <> [] ->
  createMigrationsTable faults (Some t) = (None, Some t') ->
  last_migration pick (Some t')
  = inl (wrapError "failed to get last migration" driver_error).
Proof.
  intros [Wm Wf] F Hne H. specialize (Wf F).
  assert (Hm : exists f, migrateMigrationsTable f t = (None, t')).
  { unfold createMigrationsTable in H.
    destruct faults as [| [] rest]; [| discriminate H |];
      cbn [tl] in H;
      [destruct (migrateMigrationsTable [] t) as [[e |] t1] eqn:E
      | destruct (migrateMigrationsTable rest t) as [[e |] t1] eqn:E];
      try discriminate H; injection H as <-; eauto. }
  destruct Hm as [f Hm].
  assert (R : Forall (fun r => file_path r = None) (rows t') /\ rows t' <> []).
  { destruct (has_module t) eqn:M.
    - pose proof (migrate_with_module f t M) as S. rewrite Hm in S.
      cbn [snd] in S. subst t'. now split.
    - destruct (migrate_result f t M _ _ Hm) as (_ & _ & R).
      destruct (R eq_refl) as (_ & _ & _ & ->).
      split; [now apply default_module_file_path |].
      destruct (rows t); [now contradiction Hne | discriminate]. }
  destruct R as [Rf Rn].
  unfold last_migration.
  destruct (has_module t' && has_file_path t'); [| reflexivity].
  destruct (pick (rows t')) as [r |] eqn:P;
    [| now contradiction Rn; apply pick_none].
  destruct (pick_latest _ _ P) as [Hin _].
  rewrite Forall_forall in Rf. rewrite (Rf r Hin).
  now destruct (module r).
Qed.

End LegacyQueries.

Lemma status_needs_every_module_witness :
  Legacy.has_module (Legacy.mkTable true false (Legacy.rows old_table)) = true
  /\ Exists (fun r => Legacy.module r = None) (Legacy.rows old_table)
  /\ GetMigrationStatus (fun l => l)
       (Some (Legacy.mkTable true false (Legacy.rows old_table)))
     = inl (wrapError "failed to scan row" driver_error).
Proof.
  assert (E : Exists (fun r => Legacy.module r = None) (Legacy.rows old_table))
    by (left; reflexivity).
  split; [reflexivity |]. split; [exact E |].
  exact (proj1 (status_needs_every_module (fun l => l)
                  (fun l => Permutation_refl l)
                  (Legacy.mkTable true false (Legacy.rows old_table)) eq_refl)
               E).
Defined.

Lemma upgraded_rows_cannot_be_rolled_back_witness :
  Legacy.well_formed old_table
  /\ Legacy.has_file_path old_table = false
  /\ Legacy.rows old_table <> []
  /\ Legacy.createMigrationsTable [] (Some old_table)
     = (None,
        Some (Legacy.mkTable true true
                [Legacy.mkRow "001" "create users" (Some "legacy") None 5]))
  /\ last_migration first_latest
       (Some (Legacy.mkTable true true
                [Legacy.mkRow "001" "create users" (Some "legacy") None 5]))
     = inl (wrapError "failed to get last migration" driver_error).
Proof.
  assert (C : Legacy.createMigrationsTable [] (Some old_table)
              = (None,
                 Some (Legacy.mkTable true true
                         [Legacy.mkRow "001" "create users" (Some "legacy")
                                       None 5])))
    by (vm_compute; reflexivity).
  assert (N : Legacy.rows old_table <> []) by discriminate.
  split; [exact old_table_well_formed |]. split; [reflexivity |].
  split; [exact N |]. split; [exact C |].
  exact (upgraded_rows_cannot_be_rolled_back first_latest
           first_latest_none first_latest_greatest
           [] old_table _ old_table_well_formed eq_refl N C).
Defined.

